(** * The Solidity style checker (solidity-style-checker/checker.js)

    A shallow embedding of the rule engine of [checker.js] together with
    the configuration object of [build-config.js], and the properties of
    the engine that its specification states.

    Conventions of the embedding.
    - A JavaScript string is the list of its UTF-16 code units ([jsstring]);
      [String.prototype.length] is the length of that list.
    - The two module-level accumulators [stats] and [issues] are the two
      fields of the record [state]; every function of the checker that
      mutates them is a function [state -> state].
    - The regular expressions of the checker are values of the type [regex];
      they are run by a backtracking matcher that lists the successful
      match states in the priority order of the ECMAScript matcher, so
      that the first one is the match that [RegExp.prototype.exec] returns.
    - Console output ([log], [printResults]) has no effect on the findings
      or on the exit status and is left out. *)

From Stdlib Require Import ZArith NArith Ascii String DecimalString Lia.
From stdpp Require Import gmap strings list.

Set Default Proof Using "Type".
Local Open Scope nat_scope.
Local Open Scope bool_scope.

(* ===================================================================== *)
(** ** JavaScript strings *)
(* ===================================================================== *)

Module JsString.

Definition jsstring := list N.

Fixpoint str (s : string) : jsstring :=
  match s with
  | EmptyString => []
  | String a s' => N_of_ascii a :: str s'
  end.

Definition ch (a : ascii) : N := N_of_ascii a.

Definition LF : N := 10%N.
Definition TAB : N := 9%N.
Definition DQUOTE : N := 34%N.
Definition SQUOTE : N := 39%N.

(** LineTerminator code points: LF, CR, LS, PS. *)
Definition isLineTerminator (c : N) : bool :=
  (c =? 10)%N || (c =? 13)%N || (c =? 8232)%N || (c =? 8233)%N.

(** The class [\s] of a regular expression, which is also the set of code
    units that [String.prototype.trim] strips: WhiteSpace and
    LineTerminator. *)
Definition isWhiteSpace (c : N) : bool :=
  (c =? 9)%N || (c =? 10)%N || (c =? 11)%N || (c =? 12)%N || (c =? 13)%N
  || (c =? 32)%N || (c =? 160)%N || (c =? 5760)%N
  || ((8192 <=? c)%N && (c <=? 8202)%N)
  || (c =? 8232)%N || (c =? 8233)%N || (c =? 8239)%N || (c =? 8287)%N
  || (c =? 12288)%N || (c =? 65279)%N.

(** The class [\w] that decides a word boundary [\b]. *)
Definition isWordChar (c : N) : bool :=
  ((65 <=? c)%N && (c <=? 90)%N) || ((97 <=? c)%N && (c <=? 122)%N)
  || ((48 <=? c)%N && (c <=? 57)%N) || (c =? 95)%N.

Fixpoint eqb (a b : jsstring) : bool :=
  match a, b with
  | [], [] => true
  | x :: a', y :: b' => (x =? y)%N && eqb a' b'
  | _, _ => false
  end.

Fixpoint trimStart (s : jsstring) : jsstring :=
  match s with
  | c :: s' => if isWhiteSpace c then trimStart s' else s
  | [] => []
  end.

Definition trimEnd (s : jsstring) : jsstring := rev (trimStart (rev s)).

Definition trim (s : jsstring) : jsstring := trimEnd (trimStart s).

Fixpoint startsWith (s p : jsstring) {struct p} : bool :=
  match p, s with
  | [], _ => true
  | x :: p', y :: s' => (x =? y)%N && startsWith s' p'
  | _ :: _, [] => false
  end.

Definition endsWith (s p : jsstring) : bool := startsWith (rev s) (rev p).

Fixpoint includes (s p : jsstring) : bool :=
  startsWith s p ||
  match s with
  | _ :: s' => includes s' p
  | [] => false
  end.

(** [s.split(sep)] for a separator of one code unit: never empty. *)
Fixpoint split (sep : N) (s : jsstring) : list jsstring :=
  match s with
  | [] => [[]]
  | c :: s' =>
      if (c =? sep)%N then [] :: split sep s'
      else match split sep s' with
           | l :: ls => (c :: l) :: ls
           | [] => [[c]]
           end
  end.

(** [a < b] on strings: the comparison of the code units, left to right. *)
Fixpoint ltb (a b : jsstring) : bool :=
  match a, b with
  | _, [] => false
  | [], _ :: _ => true
  | x :: a', y :: b' =>
      if (x <? y)%N then true else if (y <? x)%N then false else ltb a' b'
  end.

(** [array.findIndex(p)], with [None] for the result [-1]. *)
Fixpoint findIndex {A} (p : A -> bool) (l : list A) : option nat :=
  match l with
  | [] => None
  | x :: l' => if p x then Some 0 else option_map S (findIndex p l')
  end.

(** The decimal text of a number in a template literal (for an integer
    below ten to the power 21, beyond which JavaScript prints an
    exponent). *)
Definition ofNat (n : nat) : jsstring :=
  str (NilEmpty.string_of_uint (Nat.to_uint n)).

Definition ofZ (z : Z) : jsstring :=
  str (NilZero.string_of_int (Z.to_int z)).

End JsString.

Import JsString.

(* ===================================================================== *)
(** ** JavaScript values of the configuration *)
(* ===================================================================== *)

(** The values that an option of [build-config.js] or an entry of
    [RULE_SEVERITY] holds.  Numbers are integers, as all the numeric
    options of the configuration are. *)
Inductive jsval :=
| VUndef
| VNull
| VBool (b : bool)
| VNum (z : Z)
| VStr (s : jsstring).

(** ToBoolean. *)
Definition truthy (v : jsval) : bool :=
  match v with
  | VUndef | VNull => false
  | VBool b => b
  | VNum z => negb (z =? 0)%Z
  | VStr s => match s with [] => false | _ => true end
  end.

(** [v === 'literal']. *)
Definition isStr (v : jsval) (lit : string) : bool :=
  match v with
  | VStr s => JsString.eqb s (str lit)
  | _ => false
  end.

(** [a || b]. *)
Definition orElse (a b : jsval) : jsval := if truthy a then a else b.

(* ===================================================================== *)
(** ** Regular expressions *)
(* ===================================================================== *)

Module Regex.

(** Members of a character class: a code unit, a range, or [\s]. *)
Inductive citem :=
| One (c : N)
| Rng (lo hi : N)
| Space.

(** [[...]] when [negated] is false, [[^...]] when it is true. *)
Record cclass := CClass { negated : bool; items : list citem }.

Definition inItem (c : N) (i : citem) : bool :=
  match i with
  | One x => (c =? x)%N
  | Rng lo hi => (lo <=? c)%N && (c <=? hi)%N
  | Space => isWhiteSpace c
  end.

Definition inClass (k : cclass) (c : N) : bool :=
  xorb (negated k) (existsb (inItem c) (items k)).

(** The fragment of the pattern language that the checker uses.  The
    quantifiers [*], [+] and [*?] only ever apply to one character class;
    [?] applies to any pattern. *)
Inductive regex :=
| Eps
| Lit (s : jsstring)
| Cls (k : cclass)
| Seq (a b : regex)
| Alt (a b : regex)
| Star (k : cclass)
| Plus (k : cclass)
| StarLazy (k : cclass)
| Opt (r : regex)
| Group (n : nat) (r : regex)
| Bol (multiline : bool)
| Eol (multiline : bool)
| WordB.

(** A position in the subject: the code units before it, last first, the
    code units from it on, and the captures made so far. *)
Record mstate := MState {
  pre : list N;
  rest : list N;
  caps : list (nat * jsstring)
}.

Definition index (st : mstate) : nat := length (pre st).

Definition step (st : mstate) : list mstate :=
  match rest st with
  | c :: r => [MState (c :: pre st) r (caps st)]
  | [] => []
  end.

Fixpoint lit (s : jsstring) (st : mstate) : list mstate :=
  match s with
  | [] => [st]
  | x :: s' =>
      match rest st with
      | c :: r =>
          if (c =? x)%N then lit s' (MState (c :: pre st) r (caps st)) else []
      | [] => []
      end
  end.

(** Greedy [k*]: the longest run first, then the shorter ones. *)
Fixpoint star (k : cclass) (p r : list N) (cs : list (nat * jsstring))
  : list mstate :=
  match r with
  | c :: r' =>
      if inClass k c then star k (c :: p) r' cs ++ [MState p r cs]
      else [MState p r cs]
  | [] => [MState p r cs]
  end.

(** Lazy [k*?]: the empty run first, then the longer ones. *)
Fixpoint starLazy (k : cclass) (p r : list N) (cs : list (nat * jsstring))
  : list mstate :=
  match r with
  | c :: r' =>
      if inClass k c then MState p r cs :: starLazy k (c :: p) r' cs
      else [MState p r cs]
  | [] => [MState p r cs]
  end.

(** The text between two positions of one subject. *)
Definition between (st st' : mstate) : jsstring :=
  rev (take (index st' - index st) (pre st')).

Definition capture (n : nat) (st st' : mstate) : mstate :=
  MState (pre st') (rest st') ((n, between st st') :: caps st').

Definition atLineStart (m : bool) (st : mstate) : bool :=
  match pre st with
  | [] => true
  | c :: _ => m && isLineTerminator c
  end.

Definition atLineEnd (m : bool) (st : mstate) : bool :=
  match rest st with
  | [] => true
  | c :: _ => m && isLineTerminator c
  end.

Definition wordBefore (st : mstate) : bool :=
  match pre st with c :: _ => isWordChar c | [] => false end.

Definition wordAfter (st : mstate) : bool :=
  match rest st with c :: _ => isWordChar c | [] => false end.

(** All the ways in which [r] matches from [st], best first. *)
Fixpoint rmatch (r : regex) (st : mstate) : list mstate :=
  match r with
  | Eps => [st]
  | Lit s => lit s st
  | Cls k =>
      match rest st with
      | c :: _ => if inClass k c then step st else []
      | [] => []
      end
  | Seq a b => flat_map (rmatch b) (rmatch a st)
  | Alt a b => rmatch a st ++ rmatch b st
  | Star k => star k (pre st) (rest st) (caps st)
  | Plus k =>
      match rest st with
      | c :: r' => if inClass k c then star k (c :: pre st) r' (caps st) else []
      | [] => []
      end
  | StarLazy k => starLazy k (pre st) (rest st) (caps st)
  | Opt a =>
      List.filter (fun st' => negb (index st' =? index st)) (rmatch a st)
      ++ [st]
  | Group n a => map (capture n st) (rmatch a st)
  | Bol m => if atLineStart m st then [st] else []
  | Eol m => if atLineEnd m st then [st] else []
  | WordB => if xorb (wordBefore st) (wordAfter st) then [st] else []
  end.

(** The result of a successful [exec]: [match.index], the index after the
    match (the next [lastIndex] of a global pattern) and the groups. *)
Record mresult := MResult {
  m_index : nat;
  m_end : nat;
  m_caps : list (nat * jsstring)
}.

(** [match[n]], [None] when the group did not take part. *)
Fixpoint group (n : nat) (cs : list (nat * jsstring)) : option jsstring :=
  match cs with
  | [] => None
  | (k, s) :: cs' => if k =? n then Some s else group n cs'
  end.

(** The leftmost match at or after the position [(p, r)]. *)
Fixpoint search (re : regex) (p r : list N) : option mresult :=
  match rmatch re (MState p r []) with
  | st :: _ => Some (MResult (length p) (index st) (caps st))
  | [] =>
      match r with
      | c :: r' => search re (c :: p) r'
      | [] => None
      end
  end.

(** [re.exec(s)] with [re.lastIndex = i]. *)
Definition exec (re : regex) (s : jsstring) (i : nat) : option mresult :=
  if length s <? i then None else search re (rev (take i s)) (drop i s).

(** [re.test(s)] and [s.match(re)] for a pattern without the [g] flag. *)
Definition test (re : regex) (s : jsstring) : bool :=
  match exec re s 0 with Some _ => true | None => false end.

(** The matches that the loop
    [while ((match = re.exec(s)) !== null) { ... }] visits for a pattern
    with the [g] flag; [fuel] bounds the number of iterations. *)
Fixpoint execLoop (fuel : nat) (re : regex) (s : jsstring) (i : nat)
  : list mresult :=
  match fuel with
  | 0 => []
  | S fuel' =>
      match exec re s i with
      | None => []
      | Some m => m :: execLoop fuel' re s (m_end m)
      end
  end.

Definition execAll (re : regex) (s : jsstring) : list mresult :=
  execLoop (S (length s)) re s 0.

(** The least number of code units that a match of [r] consumes. *)
Fixpoint minLen (r : regex) : nat :=
  match r with
  | Eps | Star _ | StarLazy _ | Opt _ | Bol _ | Eol _ | WordB => 0
  | Lit s => length s
  | Cls _ | Plus _ => 1
  | Seq a b => minLen a + minLen b
  | Alt a b => Nat.min (minLen a) (minLen b)
  | Group _ a => minLen a
  end.

(** *** The declarative reading of a pattern *)

(** From [st] the matcher reaches [st'] by reading the word [w]. *)
Definition reaches (w : jsstring) (st st' : mstate) : Prop :=
  pre st' = rev w ++ pre st /\ rest st = w ++ rest st'.

(** The runs of a character class from a position. *)
Definition run_of (k : cclass) (p r : list N) (cs : list (nat * jsstring))
    (st' : mstate) : Prop :=
  exists w, forallb (inClass k) w = true
            /\ reaches w (MState p r cs) st' /\ caps st' = cs.

(** A pattern without groups leaves the captures as they are. *)
Fixpoint groupFree (r : regex) : bool :=
  match r with
  | Group _ _ => false
  | Seq a b | Alt a b => groupFree a && groupFree b
  | Opt a => groupFree a
  | _ => true
  end.

(** A pattern is context free when it has no assertion ([^], [$], [\b]):
    whether it matches a word does not depend on what surrounds the
    word. *)
Fixpoint contextFree (r : regex) : bool :=
  match r with
  | Bol _ | Eol _ | WordB => false
  | Seq a b | Alt a b => contextFree a && contextFree b
  | Opt a | Group _ a => contextFree a
  | _ => true
  end.

(** The words of a context-free pattern. *)
Fixpoint lang (r : regex) (w : jsstring) : Prop :=
  match r with
  | Eps => w = []
  | Lit s => w = s
  | Cls k => exists c, w = [c] /\ inClass k c = true
  | Seq a b => exists u v, w = u ++ v /\ lang a u /\ lang b v
  | Alt a b => lang a w \/ lang b w
  | Star k | StarLazy k => forallb (inClass k) w = true
  | Plus k => w <> [] /\ forallb (inClass k) w = true
  | Opt a => w = [] \/ lang a w
  | Group _ a => lang a w
  | Bol _ | Eol _ | WordB => w = []
  end.

End Regex.

Import Regex.

(* ===================================================================== *)
(** ** The configuration (build-config.js) *)
(* ===================================================================== *)

(** The options of [RULES] that the checker reads.  An option that is
    absent from the object is [VUndef]. *)
Record structure_rules := StructureRules {
  spdxLicense : jsval;
  spdxAtTop : jsval;
  pragmaAfterLicense : jsval
}.

Record imports_rules := ImportsRules {
  namedOnly : jsval;
  alphabetical : jsval
}.

Record naming_rules := NamingRules {
  contracts : jsval;
  functions : jsval;
  functionArguments : jsval;
  privateInternalFunctions : jsval;
  events : jsval;
  eventsPastTense : jsval;
  constants : jsval
}.

(** [maxLineLength] is a number when it is set; [None] stands for an
    absent (or otherwise falsy, non-numeric) option. *)
Record layout_rules := LayoutRules {
  maxLineLength : option Z;
  indentation : jsval;
  noTabs : jsval;
  noTrailingWhitespace : jsval
}.

(** [config.RULES]: a category is [None] when [config.RULES.category] is
    absent or falsy. *)
Record rules := Rules {
  structure : option structure_rules;
  imports : option imports_rules;
  naming : option naming_rules;
  layout : option layout_rules
}.

Record config := Config {
  RULES : rules;
  RULE_SEVERITY : gmap string jsval
}.

(** [config.RULE_SEVERITY[rule] || dflt]. *)
Definition severityOf (cfg : config) (rule : string) (dflt : string) : jsval :=
  orElse (default VUndef (RULE_SEVERITY cfg !! rule)) (VStr (str dflt)).

(* ===================================================================== *)
(** ** Statistics and issues *)
(* ===================================================================== *)

Record stats_t := Stats {
  files : nat;
  errors : nat;
  warnings : nat;
  info : nat;
  passed : nat
}.

Record issue := Issue {
  file : jsstring;
  line : nat;
  rule : string;
  message : jsstring;
  severity : jsval
}.

(** The module-level variables [stats] and [issues]. *)
Record state := State {
  stats : stats_t;
  issues : list issue
}.

Definition initial : state := State (Stats 0 0 0 0 0) [].

Definition addIssue (file : jsstring) (line : nat) (rule : string)
    (message : jsstring) (severity : jsval) (s : state) : state :=
  let st := stats s in
  State
    (if isStr severity "error" then
       Stats (files st) (S (errors st)) (warnings st) (info st) (passed st)
     else if isStr severity "warning" then
       Stats (files st) (errors st) (S (warnings st)) (info st) (passed st)
     else if isStr severity "info" then
       Stats (files st) (errors st) (warnings st) (S (info st)) (passed st)
     else st)
    (issues s ++ [Issue file line rule message severity]).

(** [array.forEach(x => body)] and [array.forEach((x, index) => body)]
    for a body that updates the accumulators. *)
Definition forEach {A} (body : A -> state -> state) (l : list A)
    (s : state) : state :=
  fold_left (fun s x => body x s) l s.

Fixpoint forEachFrom {A} (k : nat) (body : nat -> A -> state -> state)
    (l : list A) (s : state) : state :=
  match l with
  | [] => s
  | x :: l' => forEachFrom (S k) body l' (body k x s)
  end.

Definition forEachIndexed {A} (body : nat -> A -> state -> state)
    (l : list A) (s : state) : state :=
  forEachFrom 0 body l s.

(* ===================================================================== *)
(** ** The patterns of the checker *)
(* ===================================================================== *)

(** The source text of each pattern is quoted above its definition; the
    blanks in a quoted pattern only separate its parts and are not part of
    it. *)
Module Patterns.

Definition cat (l : list regex) : regex := foldr Seq Eps l.

Definition ws : cclass := CClass false [Space].
Definition notChar (c : N) : cclass := CClass true [One c].
Definition quote : cclass := CClass false [One DQUOTE; One SQUOTE].
Definition notQuote : cclass := CClass true [One DQUOTE; One SQUOTE].
Definition upper : cclass := CClass false [Rng (ch "A") (ch "Z")].
Definition lower : cclass := CClass false [Rng (ch "a") (ch "z")].
Definition alnum : cclass :=
  CClass false [Rng (ch "a") (ch "z"); Rng (ch "A") (ch "Z");
                Rng (ch "0") (ch "9")].
Definition upperNum_ : cclass :=
  CClass false [Rng (ch "A") (ch "Z"); Rng (ch "0") (ch "9"); One (ch "_")].
Definition identStart : cclass :=
  CClass false [Rng (ch "A") (ch "Z"); Rng (ch "a") (ch "z"); One (ch "_")].
Definition identChar : cclass :=
  CClass false [Rng (ch "A") (ch "Z"); Rng (ch "a") (ch "z");
                Rng (ch "0") (ch "9"); One (ch "_")].

(** [[A-Za-z_][A-Za-z0-9_]*] *)
Definition ident : regex := Seq (Cls identStart) (Star identChar).

(** [/SPDX-License-Identifier:/] *)
Definition spdxPattern : regex := Lit (str "SPDX-License-Identifier:").

(** [/^import\s+\{[^}]+\}\s+from\s+[Q'][^Q']+[Q'];?$/], where [Q] stands
    for the double quote: the parts between [^] and [$], and the
    pattern. *)
Definition namedImportParts : list regex :=
  [Lit (str "import"); Plus ws; Lit (str "{"); Plus (notChar (ch "}"));
   Lit (str "}"); Plus ws; Lit (str "from"); Plus ws; Cls quote;
   Plus notQuote; Cls quote; Opt (Lit (str ";"))].

Definition namedImportPattern : regex :=
  cat (Bol false :: namedImportParts ++ [Eol false]).

(** [/from\s+[Q']([^Q']+)[Q']/], where [Q] stands for the double quote. *)
Definition importPathPattern : regex :=
  cat [Lit (str "from"); Plus ws; Cls quote; Group 1 (Plus notQuote);
       Cls quote].

(** [/^ (\s* ) contract \s+ ([A-Za-z_][A-Za-z0-9_]* ) /gm] *)
Definition contractPattern : regex :=
  cat [Bol true; Group 1 (Star ws); Lit (str "contract"); Plus ws;
       Group 2 ident].

(** [/function \s+ ([A-Za-z_][A-Za-z0-9_]* ) \s* \( \s* ([^)]* ) \s* \) \s*
     ([^{]*?) \s* {/gs]
    (the flag [s] only changes the meaning of the dot, which does not
    occur). *)
Definition functionPattern : regex :=
  cat [Lit (str "function"); Plus ws; Group 1 ident; Star ws; Lit (str "(");
       Star ws; Group 2 (Star (notChar (ch ")"))); Star ws; Lit (str ")");
       Star ws; Group 3 (StarLazy (notChar (ch "{"))); Star ws;
       Lit (str "{")].

(** [/\b(public|external|internal|private)\b/] *)
Definition visibilityPattern : regex :=
  cat [WordB;
       Group 1 (Alt (Lit (str "public"))
               (Alt (Lit (str "external"))
               (Alt (Lit (str "internal")) (Lit (str "private")))));
       WordB].

(** [/\s+ ([A-Za-z_][A-Za-z0-9_]* ) (?: \s*$ | \s*\[ )/] *)
Definition argNamePattern : regex :=
  cat [Plus ws; Group 1 ident;
       Alt (Seq (Star ws) (Eol false)) (Seq (Star ws) (Lit (str "[")))].

(** [/event \s+ ([A-Za-z_][A-Za-z0-9_]* ) /g] *)
Definition eventPattern : regex :=
  cat [Lit (str "event"); Plus ws; Group 1 ident].

(** [/([A-Za-z_][A-Za-z0-9_]* ) \s+ (public|private|internal)? \s+ constant/g] *)
Definition constantPattern : regex :=
  cat [Group 1 ident; Plus ws;
       Opt (Group 2 (Alt (Lit (str "public"))
                    (Alt (Lit (str "private")) (Lit (str "internal")))));
       Plus ws; Lit (str "constant")].

(** [/\s+$/] *)
Definition trailingWhitespacePattern : regex := cat [Plus ws; Eol false].

(** [/^[A-Z][a-zA-Z0-9]*$/] *)
Definition capWordsPattern : regex :=
  cat [Bol false; Cls upper; Star alnum; Eol false].

(** [/^[a-z][a-zA-Z0-9]*$/] *)
Definition mixedCasePattern : regex :=
  cat [Bol false; Cls lower; Star alnum; Eol false].

(** [/^[A-Z][A-Z0-9_]*$/] *)
Definition upperCasePattern : regex :=
  cat [Bol false; Cls upper; Star upperNum_; Eol false].

(** [/^_[a-z][a-zA-Z0-9]*$/] *)
Definition underscoreMixedCasePattern : regex :=
  cat [Bol false; Lit (str "_"); Cls lower; Star alnum; Eol false].

End Patterns.

Import Patterns.

(* ===================================================================== *)
(** ** Naming convention helpers *)
(* ===================================================================== *)

Definition isCapWords (name : jsstring) : bool := test capWordsPattern name.
Definition isMixedCase (name : jsstring) : bool := test mixedCasePattern name.
Definition isUpperCase (name : jsstring) : bool := test upperCasePattern name.
Definition isUnderscoreMixedCase (name : jsstring) : bool :=
  test underscoreMixedCasePattern name.

Definition pastTenseSuffixes : list jsstring :=
  [str "ed"; str "Updated"; str "Created"; str "Deleted"; str "Added";
   str "Removed"; str "Set"; str "Changed"].

Definition isPastTense (eventName : jsstring) : bool :=
  existsb (fun suffix => endsWith eventName suffix) pastTenseSuffixes.

(** [match[n]] for a group that takes part in every match of its pattern. *)
Definition grp (n : nat) (m : mresult) : jsstring :=
  default [] (group n (m_caps m)).

(** [content.substring(0, index).split('\n').length] *)
Definition lineNumberAt (content : jsstring) (index : nat) : nat :=
  length (split LF (take index content)).

(** [array.includes(x)] for an array of strings. *)
Definition memStr (x : jsstring) (l : list jsstring) : bool :=
  existsb (JsString.eqb x) l.

(* ===================================================================== *)
(** ** The four passes *)
(* ===================================================================== *)

(** Each pass is the sequence of the blocks of its source function, in the
    order of the source; a block is named after the comment that heads it
    in [checker.js]. *)

Definition sevError : jsval := VStr (str "error").
Definition sevWarning : jsval := VStr (str "warning").
Definition sevInfo : jsval := VStr (str "info").

Definition spdxMarker : jsstring := str "SPDX-License-Identifier:".

(** *** checkFileStructure *)

(** Check SPDX license *)
Definition checkSpdx (cfg : config) (rules : structure_rules)
    (path content : jsstring) (lines : list jsstring) (s : state) : state :=
  if truthy (spdxLicense rules) then
    let hasSpdx := test spdxPattern content in
    if negb hasSpdx then
      addIssue path 1 "structure.spdxLicense"
        (str "Missing SPDX license identifier")
        (severityOf cfg "structure.spdxLicense" "error") s
    else if truthy (spdxAtTop rules) && (0 <? length lines) then
      let firstLine := trim (nth 0 lines []) in
      if negb (includes firstLine spdxMarker) then
        addIssue path 1 "structure.spdxAtTop"
          (str "SPDX license should be on first line") sevWarning s
      else s
    else s
  else s.

(** Check pragma placement *)
Definition checkPragma (rules : structure_rules) (path : jsstring)
    (lines : list jsstring) (s : state) : state :=
  if truthy (pragmaAfterLicense rules) then
    let pragmaLineIndex :=
      findIndex (fun l => startsWith (trim l) (str "pragma solidity")) lines in
    let spdxLineIndex := findIndex (fun l => includes l spdxMarker) lines in
    match pragmaLineIndex, spdxLineIndex with
    | Some p, Some q =>
        if p <? q then
          addIssue path (p + 1) "structure.pragmaAfterLicense"
            (str "Pragma should come after SPDX license") sevWarning s
        else s
    | _, _ => s
    end
  else s.

Definition checkFileStructure (cfg : config) (path content : jsstring)
    (lines : list jsstring) (s : state) : state :=
  match structure (RULES cfg) with
  | None => s
  | Some rules =>
      checkPragma rules path lines (checkSpdx cfg rules path content lines s)
  end.

(** *** checkImports *)

Record importInfo := ImportInfo {
  i_line : jsstring;
  i_lineNumber : nat
}.

(** The array [imports] that the first loop of [checkImports] builds. *)
Fixpoint collectImportsFrom (k : nat) (lines : list jsstring)
  : list importInfo :=
  match lines with
  | [] => []
  | l :: lines' =>
      let trimmed := trim l in
      if startsWith trimmed (str "import ") then
        ImportInfo trimmed (k + 1) :: collectImportsFrom (S k) lines'
      else collectImportsFrom (S k) lines'
  end.

Definition collectImports (lines : list jsstring) : list importInfo :=
  collectImportsFrom 0 lines.

Definition extractImportPath (importLine : jsstring) : option jsstring :=
  match exec importPathPattern importLine 0 with
  | Some m => Some (grp 1 m)
  | None => None
  end.

(** [currentFrom && previousFrom && currentFrom < previousFrom]; a path
    that is not null is truthy when it is not the empty string. *)
Definition outOfOrder (currentFrom previousFrom : option jsstring) : bool :=
  match currentFrom, previousFrom with
  | Some c, Some p =>
      truthy (VStr c) && truthy (VStr p) && JsString.ltb c p
  | _, _ => false
  end.

Definition namedImportMessage : jsstring :=
  str "Use named imports: import {Contract} from " ++ [DQUOTE]
  ++ str "./file.sol" ++ [DQUOTE].

(** Check named imports *)
Definition checkNamedImport (rules : imports_rules) (path : jsstring)
    (imp : importInfo) (s : state) : state :=
  if truthy (namedOnly rules) then
    if negb (test namedImportPattern (i_line imp)) then
      addIssue path (i_lineNumber imp) "imports.namedOnly"
        namedImportMessage sevWarning s
    else s
  else s.

(** Check alphabetical order *)
Definition checkAlphabetical (rules : imports_rules) (path : jsstring)
    (imports : list importInfo) (index : nat) (imp : importInfo)
    (s : state) : state :=
  if truthy (alphabetical rules) && (0 <? index) then
    let currentFrom := extractImportPath (i_line imp) in
    let previousFrom :=
      extractImportPath (i_line (nth (index - 1) imports imp)) in
    if outOfOrder currentFrom previousFrom then
      addIssue path (i_lineNumber imp) "imports.alphabetical"
        (str "Imports should be alphabetically ordered") sevWarning s
    else s
  else s.

Definition checkImport (rules : imports_rules) (path : jsstring)
    (imports : list importInfo) (index : nat) (imp : importInfo)
    (s : state) : state :=
  checkAlphabetical rules path imports index imp
    (checkNamedImport rules path imp s).

Definition checkImports (cfg : config) (path content : jsstring)
    (lines : list jsstring) (s : state) : state :=
  match imports (RULES cfg) with
  | None => s
  | Some rules =>
      let imports := collectImports lines in
      forEachIndexed (checkImport rules path imports) imports s
  end.

(** *** checkNaming *)

Definition checkContract (cfg : config) (rules : naming_rules)
    (path content : jsstring) (m : mresult) (s : state) : state :=
  let contractName := grp 2 m in
  let lineNumber := lineNumberAt content (m_index m) in
  if isStr (contracts rules) "CapWords" && negb (isCapWords contractName) then
    addIssue path lineNumber "naming.contracts"
      (str "Contract name '" ++ contractName
       ++ str "' should use CapWords style")
      (severityOf cfg "naming.contracts" "error") s
  else s.

Definition resolveVisibility (modifiersAndVisibility : jsstring) : jsstring :=
  match exec visibilityPattern modifiersAndVisibility 0 with
  | Some v => grp 1 v
  | None => str "internal"
  end.

Definition isPrivateOrInternal (visibility : jsstring) : bool :=
  JsString.eqb visibility (str "private")
  || JsString.eqb visibility (str "internal").

(** Check private/internal function naming first *)
Definition checkPrivateInternalName (rules : naming_rules) (path : jsstring)
    (lineNumber : nat) (visibility functionName : jsstring) (s : state)
  : state :=
  if isStr (privateInternalFunctions rules) "_underscoreMixedCase" then
    if isPrivateOrInternal visibility
       && negb (isUnderscoreMixedCase functionName) then
      addIssue path lineNumber "naming.privateInternalFunctions"
        (visibility ++ str " function '" ++ functionName
         ++ str "' should use _underscoreMixedCase style") sevError s
    else s
  else s.

(** Check general function name style (but skip private/internal functions
    that should have underscores) *)
Definition checkFunctionName (cfg : config) (rules : naming_rules)
    (path : jsstring) (lineNumber : nat) (visibility functionName : jsstring)
    (s : state) : state :=
  if isStr (functions rules) "mixedCase" then
    let shouldHaveUnderscore :=
      isPrivateOrInternal visibility
      && isStr (privateInternalFunctions rules) "_underscoreMixedCase" in
    if negb shouldHaveUnderscore && negb (isMixedCase functionName) then
      addIssue path lineNumber "naming.functions"
        (str "Function name '" ++ functionName
         ++ str "' should use mixedCase style")
        (severityOf cfg "naming.functions" "error") s
    else s
  else s.

Definition checkArgument (path : jsstring) (lineNumber : nat)
    (arg : jsstring) (s : state) : state :=
  if truthy (VStr arg) then
    (* Extract argument name from the type name pattern *)
    match exec argNamePattern arg 0 with
    | Some a =>
        let argName := grp 1 a in
        (* Skip memory/storage/calldata keywords *)
        if memStr argName [str "memory"; str "storage"; str "calldata"]
        then s
        else if negb (isUnderscoreMixedCase argName) then
          addIssue path lineNumber "naming.functionArguments"
            (str "Function argument '" ++ argName
             ++ str "' should use _underscoreMixedCase style") sevError s
        else s
    | None => s
    end
  else s.

(** Check function argument naming *)
Definition checkArguments (rules : naming_rules) (path : jsstring)
    (lineNumber : nat) (functionArgs : jsstring) (s : state) : state :=
  if isStr (functionArguments rules) "_underscoreMixedCase"
     && truthy (VStr (trim functionArgs)) then
    let args := map trim (split (ch ",") functionArgs) in
    forEach (checkArgument path lineNumber) args s
  else s.

Definition specialFunctions : list jsstring :=
  [str "constructor"; str "receive"; str "fallback"].

(** The body of the loop over the matches of [functionPattern]. *)
Definition checkFunction (cfg : config) (rules : naming_rules)
    (path content : jsstring) (m : mresult) (s : state) : state :=
  let functionName := grp 1 m in
  let functionArgs := grp 2 m in
  let modifiersAndVisibility := grp 3 m in
  let lineNumber := lineNumberAt content (m_index m) in
  (* Skip special functions *)
  if memStr functionName specialFunctions then s
  else
    (* Extract visibility from modifiers *)
    let visibility := resolveVisibility modifiersAndVisibility in
    checkArguments rules path lineNumber functionArgs
      (checkFunctionName cfg rules path lineNumber visibility functionName
         (checkPrivateInternalName rules path lineNumber visibility
            functionName s)).

(** Check event names, and check past tense (Coinbase rule) *)
Definition checkEventCapWords (rules : naming_rules) (path : jsstring)
    (lineNumber : nat) (eventName : jsstring) (s : state) : state :=
  if isStr (events rules) "CapWords" && negb (isCapWords eventName) then
    addIssue path lineNumber "naming.events"
      (str "Event name '" ++ eventName ++ str "' should use CapWords style")
      sevError s
  else s.

Definition checkEventPastTense (rules : naming_rules) (path : jsstring)
    (lineNumber : nat) (eventName : jsstring) (s : state) : state :=
  if truthy (eventsPastTense rules) && negb (isPastTense eventName) then
    addIssue path lineNumber "naming.eventsPastTense"
      (str "Event name '" ++ eventName
       ++ str "' should be past tense (e.g., 'OwnerUpdated' not 'OwnerUpdate')")
      sevInfo s
  else s.

Definition checkEvent (rules : naming_rules) (path content : jsstring)
    (m : mresult) (s : state) : state :=
  let eventName := grp 1 m in
  let lineNumber := lineNumberAt content (m_index m) in
  checkEventPastTense rules path lineNumber eventName
    (checkEventCapWords rules path lineNumber eventName s).

Definition checkConstant (rules : naming_rules) (path content : jsstring)
    (m : mresult) (s : state) : state :=
  let constantName := grp 1 m in
  let lineNumber := lineNumberAt content (m_index m) in
  if isStr (constants rules) "UPPER_CASE" && negb (isUpperCase constantName)
  then
    addIssue path lineNumber "naming.constants"
      (str "Constant '" ++ constantName
       ++ str "' should use UPPER_CASE_WITH_UNDERSCORES style") sevError s
  else s.

(** Check contract names *)
Definition checkContracts (cfg : config) (rules : naming_rules)
    (path content : jsstring) (s : state) : state :=
  if truthy (contracts rules) then
    forEach (checkContract cfg rules path content)
      (execAll contractPattern content) s
  else s.

(** Check function names and arguments *)
Definition checkFunctions (cfg : config) (rules : naming_rules)
    (path content : jsstring) (s : state) : state :=
  if truthy (functions rules) || truthy (functionArguments rules)
     || truthy (privateInternalFunctions rules) then
    forEach (checkFunction cfg rules path content)
      (execAll functionPattern content) s
  else s.

(** Check event names and patterns *)
Definition checkEvents (rules : naming_rules) (path content : jsstring)
    (s : state) : state :=
  if truthy (events rules) then
    forEach (checkEvent rules path content) (execAll eventPattern content) s
  else s.

(** Check constants *)
Definition checkConstants (rules : naming_rules) (path content : jsstring)
    (s : state) : state :=
  if truthy (constants rules) then
    forEach (checkConstant rules path content)
      (execAll constantPattern content) s
  else s.

Definition checkNaming (cfg : config) (path content : jsstring)
    (lines : list jsstring) (s : state) : state :=
  match naming (RULES cfg) with
  | None => s
  | Some rules =>
      checkConstants rules path content
        (checkEvents rules path content
           (checkFunctions cfg rules path content
              (checkContracts cfg rules path content s)))
  end.

(** *** checkLayout *)

(** Check line length *)
Definition checkLineLength (cfg : config) (rules : layout_rules)
    (path : jsstring) (lineNumber : nat) (l : jsstring) (s : state) : state :=
  match maxLineLength rules with
  | Some maxLen =>
      if negb (maxLen =? 0)%Z && (maxLen <? Z.of_nat (length l))%Z then
        addIssue path lineNumber "layout.maxLineLength"
          (str "Line length " ++ ofNat (length l)
           ++ str " exceeds maximum " ++ ofZ maxLen)
          (severityOf cfg "layout.maxLineLength" "warning") s
      else s
  | None => s
  end.

(** Check indentation *)
Definition checkTabs (rules : layout_rules) (path : jsstring)
    (lineNumber : nat) (l : jsstring) (s : state) : state :=
  if truthy (indentation rules) && truthy (noTabs rules) then
    if includes l [TAB] then
      addIssue path lineNumber "layout.noTabs"
        (str "Use spaces instead of tabs for indentation") sevError s
    else s
  else s.

(** Check trailing whitespace *)
Definition checkTrailingWhitespace (rules : layout_rules) (path : jsstring)
    (lineNumber : nat) (l : jsstring) (s : state) : state :=
  if truthy (noTrailingWhitespace rules)
     && test trailingWhitespacePattern l then
    addIssue path lineNumber "layout.noTrailingWhitespace"
      (str "Remove trailing whitespace") sevWarning s
  else s.

Definition checkLine (cfg : config) (rules : layout_rules) (path : jsstring)
    (index : nat) (l : jsstring) (s : state) : state :=
  let lineNumber := index + 1 in
  checkTrailingWhitespace rules path lineNumber l
    (checkTabs rules path lineNumber l
       (checkLineLength cfg rules path lineNumber l s)).

Definition checkLayout (cfg : config) (path content : jsstring)
    (lines : list jsstring) (s : state) : state :=
  match layout (RULES cfg) with
  | None => s
  | Some rules => forEachIndexed (checkLine cfg rules path) lines s
  end.

(* ===================================================================== *)
(** ** checkFile and main *)
(* ===================================================================== *)

(** A contract found by [findContracts], with the text that
    [fs.readFileSync(contract.fullPath, 'utf8')] returns for it. *)
Record contract := Contract {
  path : jsstring;
  text : jsstring
}.

(** [stats.files++] *)
Definition countFile (s : state) : state :=
  let st := stats s in
  State (Stats (S (files st)) (errors st) (warnings st) (info st) (passed st))
        (issues s).

Definition checkFile (cfg : config) (c : contract) (s : state) : state :=
  let content := text c in
  let lines := split LF content in
  checkLayout cfg (path c) content lines
    (checkNaming cfg (path c) content lines
       (checkImports cfg (path c) content lines
          (checkFileStructure cfg (path c) content lines (countFile s)))).

(** The exit status that [main] computes once the files are checked:
    [process.exit(1)] when [stats.errors > 0], and the status 0 of a
    script that runs to its end otherwise. *)
Definition exitStatus (s : state) : nat :=
  if 0 <? errors (stats s) then 1 else 0.

Definition main (cfg : config) (found : list contract) (s : state)
  : state * nat :=
  let s := forEach (checkFile cfg) found s in
  (s, exitStatus s).

(** One run of the checker: [main] in a fresh process, where [stats] and
    [issues] have their initial values. *)
Definition run (cfg : config) (found : list contract) : state * nat :=
  main cfg found initial.

(* ===================================================================== *)
(** ** Vocabulary of the properties *)
(* ===================================================================== *)

(** The issue that one call of [addIssue] records, and the effect of a
    sequence of such calls. *)
Definition emit (i : issue) (s : state) : state :=
  addIssue (file i) (line i) (rule i) (message i) (severity i) s.

Definition emitAll (l : list issue) (s : state) : state :=
  fold_left (fun s i => emit i s) l s.

(** The findings that a piece of the checker emits: the issues it records
    when it starts from the initial accumulators. *)
Definition findings (f : state -> state) : list issue := issues (f initial).

(** A piece of the checker is an emitter when all it does to the
    accumulators, whatever they hold, is to record its findings. *)
Definition emitter (f : state -> state) : Prop :=
  forall s, f s = emitAll (findings f) s.

(** The four passes of [checkFile], in the order of the source. *)
Definition passes (cfg : config) (c : contract) (s : state) : state :=
  checkLayout cfg (path c) (text c) (split LF (text c))
    (checkNaming cfg (path c) (text c) (split LF (text c))
       (checkImports cfg (path c) (text c) (split LF (text c))
          (checkFileStructure cfg (path c) (text c) (split LF (text c)) s))).

(** The findings of a run over the contracts [found]. *)
Definition runFindings (cfg : config) (found : list contract) : list issue :=
  flat_map (fun c => findings (passes cfg c)) found.

Fixpoint flatMapFrom {A B} (k : nat) (F : nat -> A -> list B) (l : list A)
  : list B :=
  match l with
  | [] => []
  | x :: l' => F k x ++ flatMapFrom (S k) F l'
  end.

Definition hasSeverity (sev : string) (i : issue) : bool :=
  isStr (severity i) sev.

Definition countSeverity (sev : string) (l : list issue) : nat :=
  length (List.filter (hasSeverity sev) l).

Definition hasRule (r : string) (i : issue) : bool := String.eqb (rule i) r.

Definition countRule (r : string) (l : list issue) : nat :=
  length (List.filter (hasRule r) l).

Definition hasRuleAt (r : string) (n : nat) (i : issue) : bool :=
  String.eqb (rule i) r && (line i =? n).

Definition countRuleAt (r : string) (n : nat) (l : list issue) : nat :=
  length (List.filter (hasRuleAt r n) l).

(** The counters agree with the recorded issues. *)
Definition consistent (s : state) : Prop :=
  errors (stats s) = countSeverity "error" (issues s)
  /\ warnings (stats s) = countSeverity "warning" (issues s)
  /\ info (stats s) = countSeverity "info" (issues s).

Definition validSeverity (i : issue) : bool :=
  hasSeverity "error" i || hasSeverity "warning" i || hasSeverity "info" i.

(** The total of the issues is the sum of the three counters. *)
Definition balanced (s : state) : Prop :=
  length (issues s)
  = errors (stats s) + warnings (stats s) + info (stats s).

(** The category of a rule identifier [category.ruleName]. *)
Fixpoint categoryOf (r : string) : string :=
  match r with
  | EmptyString => EmptyString
  | String a r' =>
      if Ascii.eqb a "."%char then EmptyString else String a (categoryOf r')
  end.

(** Whether [config.RULES] has the category [cat]; the categories of the
    checker are structure, imports, naming and layout. *)
Definition present {A} (o : option A) : bool :=
  match o with Some _ => true | None => false end.

Definition categoryOn (cfg : config) (cat : string) : bool :=
  if String.eqb cat "structure" then present (structure (RULES cfg))
  else if String.eqb cat "imports" then present (imports (RULES cfg))
  else if String.eqb cat "naming" then present (naming (RULES cfg))
  else if String.eqb cat "layout" then present (layout (RULES cfg))
  else false.

Definition inCategory (cat : string) (i : issue) : Prop :=
  categoryOf (rule i) = cat.

(** Whether the underscore rule for private and internal functions is
    the one that applies to a function of the given visibility. *)
Definition underscoreRuleApplies (rules : naming_rules)
    (visibility : jsstring) : bool :=
  isStr (privateInternalFunctions rules) "_underscoreMixedCase"
  && isPrivateOrInternal visibility.

(** *** Adjacent imports *)

(** Both paths are extracted and the path of [cur] is less than the path
    of [prev] in the order of the code units. *)
Definition pathLess (prev cur : importInfo) : Prop :=
  exists c p,
    extractImportPath (i_line cur) = Some c
    /\ extractImportPath (i_line prev) = Some p
    /\ JsString.ltb c p = true.

(** The test that [checkImports] makes on an import and the one before. *)
Definition inverted (prev cur : importInfo) : bool :=
  outOfOrder (extractImportPath (i_line cur))
    (extractImportPath (i_line prev)).

(** The number of imports that are [inverted] with the one before. *)
Fixpoint inversionsFrom (prev : option importInfo) (l : list importInfo)
  : nat :=
  match l with
  | [] => 0
  | cur :: l' =>
      match prev with
      | Some p => if inverted p cur then 1 else 0
      | None => 0
      end + inversionsFrom (Some cur) l'
  end.

Definition inversions (l : list importInfo) : nat := inversionsFrom None l.

(** *** The grammar of a named import in the words of the specification *)

(** An identifier name of Solidity: [/^[A-Za-z_$][A-Za-z0-9_$]*$/]. *)
Definition specIdentifierPattern : regex :=
  cat [Bol false;
       Cls (CClass false [Rng (ch "A") (ch "Z"); Rng (ch "a") (ch "z");
                          One (ch "_"); One (ch "$")]);
       Star (CClass false [Rng (ch "A") (ch "Z"); Rng (ch "a") (ch "z");
                           Rng (ch "0") (ch "9"); One (ch "_");
                           One (ch "$")]);
       Eol false].

(** One or more identifier names, each free of commas: the names are
    separated by commas, and blanks around a name are allowed. *)
Definition specIdentifiers (body : jsstring) : bool :=
  forallb (fun name => test specIdentifierPattern (trim name))
          (split (ch ",") body).

(** The pattern of the code with a group around what the braces hold. *)
Definition specNamedImportParts : regex :=
  cat [Bol false; Lit (str "import"); Plus ws; Lit (str "{");
       Group 1 (Plus (notChar (ch "}"))); Lit (str "}"); Plus ws;
       Lit (str "from"); Plus ws; Cls quote; Plus notQuote; Cls quote;
       Opt (Lit (str ";")); Eol false].

(** Modelled on the words of the specification, to be compared with
    [namedImportPattern]: the line has the form
    [import {Identifiers} from Qpath Q;] (where [Q] is a quote), the
    braces hold one or more identifier names, and the semicolon is
    optional. *)
Definition specNamedImportGrammar (line : jsstring) : bool :=
  match exec specNamedImportParts line 0 with
  | Some m => specIdentifiers (grp 1 m)
  | None => false
  end.

Definition operatorImportFile : contract :=
  Contract (str "Example.sol") (str "import {+} from './a.sol';").

(** *** Concrete configurations and inputs *)

(** The configuration that [build-config.js] exports, for the options that
    the checker reads. *)
Definition buildConfig : config :=
  Config
    (Rules
       (Some (StructureRules (VBool true) (VBool true) (VBool true)))
       (Some (ImportsRules (VBool true) (VBool true)))
       (Some (NamingRules (VStr (str "CapWords")) (VStr (str "mixedCase"))
                (VStr (str "_underscoreMixedCase"))
                (VStr (str "_underscoreMixedCase"))
                (VStr (str "CapWords")) (VBool true)
                (VStr (str "UPPER_CASE"))))
       (Some (LayoutRules (Some 120%Z) (VNum 4) (VBool true) (VBool true))))
    (list_to_map
       [("naming.contracts", sevError); ("naming.functions", sevError);
        ("naming.functionArguments", sevError);
        ("naming.privateInternalFunctions", sevError);
        ("structure.spdxLicense", sevError);
        ("layout.indentation", sevError);
        ("layout.maxLineLength", sevWarning);
        ("imports.alphabetical", sevWarning);
        ("naming.eventsPastTense", sevInfo);
        ("advanced.namedParameters", sevInfo)]).

(** [build-config.js] with the two import rules overridden to error in
    [RULE_SEVERITY]. *)
Definition importsAsErrors : config :=
  Config (RULES buildConfig)
    (<["imports.namedOnly" := sevError]>
       (<["imports.alphabetical" := sevError]> (RULE_SEVERITY buildConfig))).

(** [build-config.js] without its naming category. *)
Definition namingOff : config :=
  Config
    (Rules (structure (RULES buildConfig)) (imports (RULES buildConfig)) None
       (layout (RULES buildConfig)))
    (RULE_SEVERITY buildConfig).

(** A layout category with [noTabs] on and no [indentation] option. *)
Definition noTabsOnly : config :=
  Config
    (Rules None None None
       (Some (LayoutRules None VUndef (VBool true) VUndef)))
    ∅.

(** The text of a file, from its lines. *)
Fixpoint unlines (l : list string) : jsstring :=
  match l with
  | [] => []
  | [x] => str x
  | x :: l' => str x ++ LF :: unlines l'
  end.

Definition privateFunctionFile : contract :=
  Contract (str "Example.sol") (str "function validateInput() private { }").

Definition unorderedImportsFile : contract :=
  Contract (str "Example.sol")
    (unlines ["import {B} from './b.sol';"; "import A from './a.sol';"]).

Definition licensedFile : contract :=
  Contract (str "Example.sol")
    (unlines ["// SPDX-License-Identifier: MIT"; "pragma solidity ^0.8.13;"]).

Definition lowerContractFile : contract :=
  Contract (str "Example.sol") (str "contract myToken { }").

Definition capContractFile : contract :=
  Contract (str "Example.sol") (str "contract MyToken { }").

(** One line of 130 code units. *)
Definition longLineFile : contract :=
  Contract (str "Example.sol") (repeat (ch "a") 130).

Definition tabFile : contract :=
  Contract (str "Example.sol") (TAB :: str "uint256 x;").

(** *** The severity of each rule *)

(** The severity that the checker gives to a finding of each rule: for
    four rules the entry of [RULE_SEVERITY] when it is truthy, for the
    others a constant. *)
Definition severityTable (cfg : config) (r : string) : jsval :=
  if String.eqb r "structure.spdxLicense" then severityOf cfg r "error"
  else if String.eqb r "naming.contracts" then severityOf cfg r "error"
  else if String.eqb r "naming.functions" then severityOf cfg r "error"
  else if String.eqb r "layout.maxLineLength" then severityOf cfg r "warning"
  else if String.eqb r "naming.privateInternalFunctions" then sevError
  else if String.eqb r "naming.functionArguments" then sevError
  else if String.eqb r "naming.events" then sevError
  else if String.eqb r "naming.constants" then sevError
  else if String.eqb r "layout.noTabs" then sevError
  else if String.eqb r "naming.eventsPastTense" then sevInfo
  else sevWarning.

(** The four rules whose severity [RULE_SEVERITY] overrides. *)
Definition overridableRules : list string :=
  ["structure.spdxLicense"; "naming.contracts"; "naming.functions";
   "layout.maxLineLength"].

Definition validValue (v : jsval) : bool :=
  isStr v "error" || isStr v "warning" || isStr v "info".

(** Each entry of [RULE_SEVERITY] for an overridable rule is absent, falsy
    or one of the three severities. *)
Definition validOverrides (cfg : config) : bool :=
  forallb (fun r =>
             match RULE_SEVERITY cfg !! r with
             | None => true
             | Some v => negb (truthy v) || validValue v
             end) overridableRules.

(** A finding of the file [p], at one of its [n] lines. *)
Definition located (p : jsstring) (n : nat) (i : issue) : Prop :=
  file i = p /\ 1 <= line i <= n.

(** *** Letters and digits *)

Definition isUpperLetter (c : N) : bool := (65 <=? c)%N && (c <=? 90)%N.
Definition isLowerLetter (c : N) : bool := (97 <=? c)%N && (c <=? 122)%N.
Definition isDigit (c : N) : bool := (48 <=? c)%N && (c <=? 57)%N.
Definition isAlnum (c : N) : bool :=
  isLowerLetter c || isUpperLetter c || isDigit c.
Definition isUpperDigitUnderscore (c : N) : bool :=
  isUpperLetter c || isDigit c || (c =? 95)%N.

(** *** The from-clause of an import *)

Definition isQuote (c : N) : bool := (c =? 34)%N || (c =? 39)%N.

(** After [a] the line [l] has a from-clause with the path [p]: the word
    from, one or more blanks, a quote, the path of one or more code units
    other than a quote, and a quote; [b] is what follows. *)
Definition fromClauseAt (l a p b : jsstring) : Prop :=
  exists ws q1 q2,
    l = a ++ str "from" ++ ws ++ q1 :: p ++ q2 :: b
    /\ ws <> [] /\ forallb isWhiteSpace ws = true
    /\ isQuote q1 = true /\ isQuote q2 = true
    /\ p <> [] /\ forallb (fun c => negb (isQuote c)) p = true.

Definition hasFromClause (l : jsstring) : Prop :=
  exists a p b, fromClauseAt l a p b.

(** [p] is the path of the import [l]: the path of its first
    from-clause. *)
Definition importPathOf (l p : jsstring) : Prop :=
  exists a b,
    fromClauseAt l a p b
    /\ forall a' p' b', fromClauseAt l a' p' b' -> length a <= length a'.

(** Both imports have a path, and the path of [cur] is less than the path
    of [prev] in the order of the code units. *)
Definition pathsOutOfOrder (prev cur : importInfo) : Prop :=
  exists c p,
    importPathOf (i_line cur) c /\ importPathOf (i_line prev) p
    /\ JsString.ltb c p = true.

(** An import without a from-clause between two named imports. *)
Definition plainImportFile : contract :=
  Contract (str "Example.sol")
    (unlines ["import {B} from './b.sol';"; "import './a.sol';";
              "import {A} from './a.sol';"]).

(** *** The visibility of a function and the findings on its name *)

Definition visibilityKeywords : list jsstring :=
  [str "public"; str "external"; str "internal"; str "private"].

Definition endsInWordChar (a : jsstring) : bool :=
  match rev a with c :: _ => isWordChar c | [] => false end.

Definition startsWithWordChar (b : jsstring) : bool :=
  match b with c :: _ => isWordChar c | [] => false end.

(** After [a] the text [mods] has the visibility keyword [kw] as a whole
    word: no letter, digit or underscore stands just before or just after
    it; [b] is what follows. *)
Definition keywordAt (mods a kw b : jsstring) : Prop :=
  mods = a ++ kw ++ b /\ In kw visibilityKeywords
  /\ endsInWordChar a = false /\ startsWithWordChar b = false.

(** The visibility of a function with the modifiers [mods]: the first
    visibility keyword among them, internal when there is none. *)
Definition visibilityOf (mods v : jsstring) : Prop :=
  (exists a b,
      keywordAt mods a v b
      /\ forall a' kw' b', keywordAt mods a' kw' b' -> length a <= length a')
  \/ (v = str "internal" /\ forall a kw b, ~ keywordAt mods a kw b).

(** The function declarations that the naming pass checks: the matches of
    [functionPattern] but for those named constructor, receive or
    fallback. *)
Definition checkedFunctions (content : jsstring) : list mresult :=
  List.filter (fun m => negb (memStr (grp 1 m) specialFunctions))
    (execAll functionPattern content).

Definition isFunctionNameFinding (i : issue) : bool :=
  hasRule "naming.privateInternalFunctions" i || hasRule "naming.functions" i.

(** The finding on the name of a function of the given visibility: the
    one of the underscore rule when that rule applies, the one of the
    mixedCase rule otherwise. *)
Definition nameFindings (cfg : config) (rules : naming_rules)
    (path : jsstring) (lineNumber : nat) (visibility name : jsstring)
  : list issue :=
  if underscoreRuleApplies rules visibility then
    if isUnderscoreMixedCase name then []
    else
      [Issue path lineNumber "naming.privateInternalFunctions"
         (visibility ++ str " function '" ++ name
          ++ str "' should use _underscoreMixedCase style") sevError]
  else if isStr (functions rules) "mixedCase" && negb (isMixedCase name) then
    [Issue path lineNumber "naming.functions"
       (str "Function name '" ++ name ++ str "' should use mixedCase style")
       (severityOf cfg "naming.functions" "error")]
  else [].

(** Functions of each visibility, one without a keyword and one that the
    pass skips. *)
Definition visibilitiesFile : contract :=
  Contract (str "Example.sol")
    (unlines ["function validateInput() private { }";
              "function Transfer() public { }";
              "function helper() { }";
              "function fallback() external { }";
              "function _check() internal { }";
              "function Publish() notprivate { }"]).

(** *** Options that depend on another option *)

(** Only [eventsPastTense] is set among the naming rules. *)
Definition pastTenseOnly : config :=
  Config
    (Rules None None
       (Some (NamingRules VUndef VUndef VUndef VUndef VUndef (VBool true)
                VUndef))
       None)
    ∅.

Definition eventFile : contract :=
  Contract (str "Example.sol") (str "event Transfer(address to);").

(** Only [spdxAtTop] is set among the structure rules. *)
Definition atTopOnly : config :=
  Config
    (Rules (Some (StructureRules VUndef (VBool true) VUndef)) None None None)
    ∅.

Definition lateLicenseFile : contract :=
  Contract (str "Example.sol")
    (unlines ["pragma solidity ^0.8.13;"; "// SPDX-License-Identifier: MIT"]).

(* ===================================================================== *)
(** ** Strings *)
(* ===================================================================== *)

Lemma jseqb_eq (a b : jsstring) : JsString.eqb a b = true <-> a = b.
Proof.
  revert b; induction a as [|x a IH]; intros [|y b]; simpl; split;
    try congruence; try reflexivity.
  - intros H. apply andb_prop in H as [Hx Hab].
    apply N.eqb_eq in Hx. apply IH in Hab. congruence.
  - intros H. injection H as -> ->. rewrite N.eqb_refl. simpl.
    now apply IH.
Qed.

Lemma isStr_eq (v : jsval) (lit : string) :
  isStr v lit = true <-> v = VStr (str lit).
Proof.
  destruct v; simpl; split; try discriminate; try congruence.
  - intros H. apply jseqb_eq in H. congruence.
  - intros H. injection H as ->. now apply jseqb_eq.
Qed.

Lemma split_nonempty (sep : N) (s : jsstring) : split sep s <> [].
Proof.
  induction s as [|c s IH]; simpl; [discriminate|].
  destruct (c =? sep)%N; [discriminate|].
  destruct (split sep s); [contradiction|discriminate].
Qed.

(* ===================================================================== *)
(** ** Emitters *)
(* ===================================================================== *)

Lemma emitAll_app (l1 l2 : list issue) (s : state) :
  emitAll (l1 ++ l2) s = emitAll l2 (emitAll l1 s).
Proof. unfold emitAll. apply fold_left_app. Qed.

Lemma issues_emit (i : issue) (s : state) : issues (emit i s) = issues s ++ [i].
Proof. destruct i; reflexivity. Qed.

Lemma issues_emitAll (l : list issue) (s : state) :
  issues (emitAll l s) = issues s ++ l.
Proof.
  revert s; induction l as [|i l IH]; intros s; simpl.
  - now rewrite app_nil_r.
  - change (issues (emitAll l (emit i s)) = issues s ++ i :: l).
    rewrite IH, issues_emit, <- app_assoc. reflexivity.
Qed.

Lemma findings_emitAll (l : list issue) : findings (emitAll l) = l.
Proof. unfold findings. now rewrite issues_emitAll. Qed.

Lemma emitter_intro (f : state -> state) (l : list issue) :
  (forall s, f s = emitAll l s) -> emitter f /\ findings f = l.
Proof.
  intros H.
  assert (Hl : findings f = l).
  { unfold findings. rewrite H. apply (findings_emitAll l). }
  split; [|exact Hl]. intros s. now rewrite Hl.
Qed.

Lemma emitter_id : emitter (fun s => s).
Proof. apply (emitter_intro _ []). reflexivity. Qed.

Lemma findings_id : findings (fun s => s) = [].
Proof. reflexivity. Qed.

Lemma emitter_addIssue f l r m sv : emitter (addIssue f l r m sv).
Proof. apply (emitter_intro _ [Issue f l r m sv]). reflexivity. Qed.

Lemma findings_addIssue f l r m sv :
  findings (addIssue f l r m sv) = [Issue f l r m sv].
Proof. reflexivity. Qed.

Lemma emitter_comp (f g : state -> state) :
  emitter f -> emitter g -> emitter (fun s => g (f s)).
Proof.
  intros Hf Hg. apply (emitter_intro _ (findings f ++ findings g)).
  intros s. now rewrite Hg, Hf, emitAll_app.
Qed.

Lemma findings_comp (f g : state -> state) :
  emitter f -> emitter g ->
  findings (fun s => g (f s)) = findings f ++ findings g.
Proof.
  intros Hf Hg. apply (emitter_intro _ (findings f ++ findings g)).
  intros s. now rewrite Hg, Hf, emitAll_app.
Qed.

Lemma forEach_emitAll {A} (body : A -> state -> state) (l : list A) :
  (forall x, emitter (body x)) ->
  forall s, forEach body l s
            = emitAll (flat_map (fun x => findings (body x)) l) s.
Proof.
  intros Hb. induction l as [|x l IH]; intros s; simpl; [reflexivity|].
  rewrite emitAll_app, <- (Hb x s). apply IH.
Qed.

Lemma emitter_forEach {A} (body : A -> state -> state) (l : list A) :
  (forall x, emitter (body x)) -> emitter (forEach body l).
Proof.
  intros Hb. eapply emitter_intro. now apply forEach_emitAll.
Qed.

Lemma findings_forEach {A} (body : A -> state -> state) (l : list A) :
  (forall x, emitter (body x)) ->
  findings (forEach body l) = flat_map (fun x => findings (body x)) l.
Proof.
  intros Hb. eapply emitter_intro. now apply forEach_emitAll.
Qed.

Lemma forEachFrom_emitAll {A} (body : nat -> A -> state -> state)
    (l : list A) :
  (forall k x, emitter (body k x)) ->
  forall k s, forEachFrom k body l s
              = emitAll (flatMapFrom k (fun k x => findings (body k x)) l) s.
Proof.
  intros Hb. induction l as [|x l IH]; intros k s; simpl; [reflexivity|].
  rewrite emitAll_app, <- (Hb k x s). apply IH.
Qed.

Lemma emitter_forEachIndexed {A} (body : nat -> A -> state -> state)
    (l : list A) :
  (forall k x, emitter (body k x)) -> emitter (forEachIndexed body l).
Proof.
  intros Hb. eapply emitter_intro. intros s. now apply forEachFrom_emitAll.
Qed.

Lemma findings_forEachIndexed {A} (body : nat -> A -> state -> state)
    (l : list A) :
  (forall k x, emitter (body k x)) ->
  findings (forEachIndexed body l)
  = flatMapFrom 0 (fun k x => findings (body k x)) l.
Proof.
  intros Hb. eapply emitter_intro. intros s. now apply forEachFrom_emitAll.
Qed.

(** A block that is a cascade of tests around calls of [addIssue]. *)
Ltac emitter_cases :=
  repeat match goal with
         | |- context [if ?b then _ else _] => destruct b
         | |- context [match ?o with Some _ => _ | None => _ end] => destruct o
         end;
  auto using emitter_id, emitter_addIssue.

(** *** Every block and every pass is an emitter *)

Lemma emitter_checkSpdx cfg rules p content lines :
  emitter (checkSpdx cfg rules p content lines).
Proof. unfold checkSpdx. emitter_cases. Qed.

Lemma emitter_checkPragma rules p lines : emitter (checkPragma rules p lines).
Proof. unfold checkPragma. emitter_cases. Qed.

Lemma emitter_checkFileStructure cfg p content lines :
  emitter (checkFileStructure cfg p content lines).
Proof.
  unfold checkFileStructure. destruct (structure (RULES cfg)).
  - apply emitter_comp; [apply emitter_checkSpdx|apply emitter_checkPragma].
  - apply emitter_id.
Qed.

Lemma emitter_checkNamedImport rules p imp :
  emitter (checkNamedImport rules p imp).
Proof. unfold checkNamedImport. emitter_cases. Qed.

Lemma emitter_checkAlphabetical rules p imps k imp :
  emitter (checkAlphabetical rules p imps k imp).
Proof. unfold checkAlphabetical. emitter_cases. Qed.

Lemma emitter_checkImport rules p imps k imp :
  emitter (checkImport rules p imps k imp).
Proof.
  unfold checkImport. apply emitter_comp;
    [apply emitter_checkNamedImport|apply emitter_checkAlphabetical].
Qed.

Lemma emitter_checkImports cfg p content lines :
  emitter (checkImports cfg p content lines).
Proof.
  unfold checkImports. destruct (imports (RULES cfg)).
  - apply emitter_forEachIndexed. intros. apply emitter_checkImport.
  - apply emitter_id.
Qed.

Lemma emitter_checkContract cfg rules p content m :
  emitter (checkContract cfg rules p content m).
Proof. unfold checkContract. emitter_cases. Qed.

Lemma emitter_checkPrivateInternalName rules p n vis name :
  emitter (checkPrivateInternalName rules p n vis name).
Proof. unfold checkPrivateInternalName. emitter_cases. Qed.

Lemma emitter_checkFunctionName cfg rules p n vis name :
  emitter (checkFunctionName cfg rules p n vis name).
Proof. unfold checkFunctionName. emitter_cases. Qed.

Lemma emitter_checkArgument p n arg : emitter (checkArgument p n arg).
Proof. unfold checkArgument. emitter_cases. Qed.

Lemma emitter_checkArguments rules p n args :
  emitter (checkArguments rules p n args).
Proof.
  unfold checkArguments.
  destruct (_ && _); [|apply emitter_id].
  apply emitter_forEach. intros. apply emitter_checkArgument.
Qed.

Lemma emitter_checkFunction cfg rules p content m :
  emitter (checkFunction cfg rules p content m).
Proof.
  unfold checkFunction. destruct (memStr _ _); [apply emitter_id|].
  apply emitter_comp; [apply emitter_comp|].
  - apply emitter_checkPrivateInternalName.
  - apply emitter_checkFunctionName.
  - apply emitter_checkArguments.
Qed.

Lemma emitter_checkEventCapWords rules p n name :
  emitter (checkEventCapWords rules p n name).
Proof. unfold checkEventCapWords. emitter_cases. Qed.

Lemma emitter_checkEventPastTense rules p n name :
  emitter (checkEventPastTense rules p n name).
Proof. unfold checkEventPastTense. emitter_cases. Qed.

Lemma emitter_checkEvent rules p content m :
  emitter (checkEvent rules p content m).
Proof.
  unfold checkEvent. apply emitter_comp;
    [apply emitter_checkEventCapWords|apply emitter_checkEventPastTense].
Qed.

Lemma emitter_checkConstant rules p content m :
  emitter (checkConstant rules p content m).
Proof. unfold checkConstant. emitter_cases. Qed.

Lemma emitter_checkContracts cfg rules p content :
  emitter (checkContracts cfg rules p content).
Proof.
  unfold checkContracts. destruct (truthy _); [|apply emitter_id].
  apply emitter_forEach. intros. apply emitter_checkContract.
Qed.

Lemma emitter_checkFunctions cfg rules p content :
  emitter (checkFunctions cfg rules p content).
Proof.
  unfold checkFunctions. destruct (_ || _); [|apply emitter_id].
  apply emitter_forEach. intros. apply emitter_checkFunction.
Qed.

Lemma emitter_checkEvents rules p content :
  emitter (checkEvents rules p content).
Proof.
  unfold checkEvents. destruct (truthy _); [|apply emitter_id].
  apply emitter_forEach. intros. apply emitter_checkEvent.
Qed.

Lemma emitter_checkConstants rules p content :
  emitter (checkConstants rules p content).
Proof.
  unfold checkConstants. destruct (truthy _); [|apply emitter_id].
  apply emitter_forEach. intros. apply emitter_checkConstant.
Qed.

Lemma emitter_checkNaming cfg p content lines :
  emitter (checkNaming cfg p content lines).
Proof.
  unfold checkNaming. destruct (naming (RULES cfg)); [|apply emitter_id].
  apply emitter_comp; [apply emitter_comp; [apply emitter_comp|]|].
  - apply emitter_checkContracts.
  - apply emitter_checkFunctions.
  - apply emitter_checkEvents.
  - apply emitter_checkConstants.
Qed.

Lemma emitter_checkLineLength cfg rules p n l :
  emitter (checkLineLength cfg rules p n l).
Proof. unfold checkLineLength. emitter_cases. Qed.

Lemma emitter_checkTabs rules p n l : emitter (checkTabs rules p n l).
Proof. unfold checkTabs. emitter_cases. Qed.

Lemma emitter_checkTrailingWhitespace rules p n l :
  emitter (checkTrailingWhitespace rules p n l).
Proof. unfold checkTrailingWhitespace. emitter_cases. Qed.

Lemma emitter_checkLine cfg rules p k l : emitter (checkLine cfg rules p k l).
Proof.
  unfold checkLine. apply emitter_comp; [apply emitter_comp|].
  - apply emitter_checkLineLength.
  - apply emitter_checkTabs.
  - apply emitter_checkTrailingWhitespace.
Qed.

Lemma emitter_checkLayout cfg p content lines :
  emitter (checkLayout cfg p content lines).
Proof.
  unfold checkLayout. destruct (layout (RULES cfg)); [|apply emitter_id].
  apply emitter_forEachIndexed. intros. apply emitter_checkLine.
Qed.

Lemma checkFile_passes cfg c s : checkFile cfg c s = passes cfg c (countFile s).
Proof. reflexivity. Qed.

Lemma emitter_passes cfg c : emitter (passes cfg c).
Proof.
  unfold passes.
  apply emitter_comp; [apply emitter_comp; [apply emitter_comp|]|].
  - apply emitter_checkFileStructure.
  - apply emitter_checkImports.
  - apply emitter_checkNaming.
  - apply emitter_checkLayout.
Qed.

Lemma findings_passes cfg c :
  findings (passes cfg c)
  = findings (checkFileStructure cfg (path c) (text c) (split LF (text c)))
    ++ findings (checkImports cfg (path c) (text c) (split LF (text c)))
    ++ findings (checkNaming cfg (path c) (text c) (split LF (text c)))
    ++ findings (checkLayout cfg (path c) (text c) (split LF (text c))).
Proof.
  unfold passes.
  pose proof (emitter_checkFileStructure cfg (path c) (text c)
                (split LF (text c))) as H1.
  pose proof (emitter_checkImports cfg (path c) (text c)
                (split LF (text c))) as H2.
  pose proof (emitter_checkNaming cfg (path c) (text c)
                (split LF (text c))) as H3.
  pose proof (emitter_checkLayout cfg (path c) (text c)
                (split LF (text c))) as H4.
  rewrite findings_comp;
    [|apply emitter_comp; [apply emitter_comp|]; assumption|assumption].
  rewrite findings_comp; [|apply emitter_comp; assumption|assumption].
  rewrite findings_comp; [|assumption|assumption].
  now rewrite <- !app_assoc.
Qed.

(* ===================================================================== *)
(** ** The counters and the exit status *)
(* ===================================================================== *)

Lemma countSeverity_app sev l1 l2 :
  countSeverity sev (l1 ++ l2) = countSeverity sev l1 + countSeverity sev l2.
Proof. unfold countSeverity. now rewrite List.filter_app, length_app. Qed.

Lemma countRule_app r l1 l2 :
  countRule r (l1 ++ l2) = countRule r l1 + countRule r l2.
Proof. unfold countRule. now rewrite List.filter_app, length_app. Qed.

Lemma countRuleAt_app r n l1 l2 :
  countRuleAt r n (l1 ++ l2) = countRuleAt r n l1 + countRuleAt r n l2.
Proof. unfold countRuleAt. now rewrite List.filter_app, length_app. Qed.

(** The three severities that [addIssue] counts exclude one another. *)
Lemma severity_cases (v : jsval) :
  (isStr v "error" = true /\ isStr v "warning" = false
   /\ isStr v "info" = false)
  \/ (isStr v "error" = false /\ isStr v "warning" = true
      /\ isStr v "info" = false)
  \/ (isStr v "error" = false /\ isStr v "warning" = false
      /\ isStr v "info" = true)
  \/ (isStr v "error" = false /\ isStr v "warning" = false
      /\ isStr v "info" = false).
Proof.
  destruct (isStr v "error") eqn:He.
  { apply isStr_eq in He. subst v. left. repeat split. }
  destruct (isStr v "warning") eqn:Hw.
  { apply isStr_eq in Hw. subst v. right. left. repeat split. }
  destruct (isStr v "info") eqn:Hi; auto 10.
Qed.

Lemma consistent_addIssue f l r m sv s :
  consistent s -> consistent (addIssue f l r m sv s).
Proof.
  intros (He & Hw & Hi). unfold consistent, addIssue. simpl.
  rewrite !countSeverity_app. unfold countSeverity at 2 4 6. simpl.
  unfold hasSeverity. simpl.
  destruct (severity_cases sv) as [H|[H|[H|H]]];
    destruct H as (-> & -> & ->); simpl; lia.
Qed.

Lemma consistent_emitAll l s : consistent s -> consistent (emitAll l s).
Proof.
  revert s. induction l as [|i l IH]; intros s Hs; simpl; [assumption|].
  apply IH. now apply consistent_addIssue.
Qed.

Lemma consistent_countFile s : consistent s -> consistent (countFile s).
Proof. intros H. exact H. Qed.

Lemma consistent_checkFile cfg c s :
  consistent s -> consistent (checkFile cfg c s).
Proof.
  intros H. rewrite checkFile_passes, (emitter_passes cfg c).
  now apply consistent_emitAll, consistent_countFile.
Qed.

Lemma consistent_main cfg found s :
  consistent s -> consistent (fst (main cfg found s)).
Proof.
  simpl. revert s. induction found as [|c found IH]; intros s Hs; simpl.
  - assumption.
  - apply IH. now apply consistent_checkFile.
Qed.

Lemma consistent_initial : consistent initial.
Proof. repeat split. Qed.

Lemma countSeverity_pos sev l :
  0 < countSeverity sev l <-> exists i, In i l /\ hasSeverity sev i = true.
Proof.
  unfold countSeverity. split.
  - intros H. destruct (List.filter (hasSeverity sev) l) as [|i t] eqn:E.
    + simpl in H. lia.
    + assert (Hi : In i (List.filter (hasSeverity sev) l))
        by (rewrite E; now left).
      apply List.filter_In in Hi. eauto.
  - intros (i & Hin & Hs).
    assert (Hi : In i (List.filter (hasSeverity sev) l))
      by (apply List.filter_In; auto).
    destruct (List.filter (hasSeverity sev) l); [contradiction|simpl; lia].
Qed.

Lemma exitStatus_addIssue f l r m sv s :
  isStr sv "error" = false ->
  exitStatus (addIssue f l r m sv s) = exitStatus s.
Proof.
  intros H. unfold exitStatus, addIssue. simpl. rewrite H.
  destruct (isStr sv "warning"); [reflexivity|].
  destruct (isStr sv "info"); reflexivity.
Qed.

(** C1.  For every run, [summary.errors > 0] if and only if an emitted
    finding has the severity error, and the exit status that [main]
    computes is not zero if and only if [summary.errors > 0]; recording a
    finding of severity warning or info never changes the exit status. *)
Theorem exit_status_iff_error_finding (cfg : config) (found : list contract) :
  let s := fst (run cfg found) in
  let status := snd (run cfg found) in
  (0 < errors (stats s)
   <-> exists i, In i (issues s) /\ severity i = sevError)
  /\ (status <> 0 <-> 0 < errors (stats s))
  /\ (forall f l r m s',
        exitStatus (addIssue f l r m sevWarning s') = exitStatus s'
        /\ exitStatus (addIssue f l r m sevInfo s') = exitStatus s').
Proof.
  intros s status.
  assert (Hc : consistent s)
    by (apply consistent_main, consistent_initial).
  destruct Hc as (He & _). split; [|split].
  - rewrite He, countSeverity_pos. unfold hasSeverity.
    split; intros (i & Hin & Hs); exists i; (split; [assumption|]);
      now apply isStr_eq.
  - subst status s. unfold run, main. simpl. unfold exitStatus.
    destruct (0 <? errors _) eqn:E.
    + apply Nat.ltb_lt in E. split; [auto|discriminate].
    + apply Nat.ltb_ge in E. split; [congruence|lia].
  - intros. split; now apply exitStatus_addIssue.
Qed.

(* ===================================================================== *)
(** ** The accumulators across a run *)
(* ===================================================================== *)

Lemma issues_checkFile cfg c s :
  issues (checkFile cfg c s) = issues s ++ findings (passes cfg c).
Proof.
  rewrite checkFile_passes, (emitter_passes cfg c), issues_emitAll.
  reflexivity.
Qed.

Lemma issues_main cfg found s :
  issues (fst (main cfg found s)) = issues s ++ runFindings cfg found.
Proof.
  simpl. revert s. induction found as [|c found IH]; intros s; simpl.
  - now rewrite app_nil_r.
  - change (issues (forEach (checkFile cfg) found (checkFile cfg c s))
            = issues s ++ findings (passes cfg c) ++ runFindings cfg found).
    rewrite IH, issues_checkFile, <- app_assoc. reflexivity.
Qed.

Lemma balanced_addIssue f l r m sv s :
  validSeverity (Issue f l r m sv) = true ->
  balanced s -> balanced (addIssue f l r m sv s).
Proof.
  unfold validSeverity, hasSeverity, balanced, addIssue. simpl.
  intros Hv Hb. rewrite length_app. simpl.
  destruct (severity_cases sv) as [H|[H|[H|H]]];
    destruct H as (He & Hw & Hi); rewrite He, Hw, Hi in *; simpl in *;
    try lia; discriminate.
Qed.

Lemma balanced_emitAll l s :
  forallb validSeverity l = true -> balanced s -> balanced (emitAll l s).
Proof.
  revert s. induction l as [|i l IH]; intros s Hv Hs; simpl; [assumption|].
  simpl in Hv. apply andb_prop in Hv as [Hi Hl].
  apply IH; [assumption|]. destruct i. now apply balanced_addIssue.
Qed.

Lemma balanced_checkFile cfg c s :
  forallb validSeverity (findings (passes cfg c)) = true ->
  balanced s -> balanced (checkFile cfg c s).
Proof.
  intros Hv Hs. rewrite checkFile_passes, (emitter_passes cfg c).
  apply balanced_emitAll; [assumption|exact Hs].
Qed.

(** C9.  The invariant that the number of accumulated findings is the sum
    of the error, warning and info counters is preserved by a run, and so
    by every emission of it, provided that every emitted severity is one
    of error, warning and info. *)
Theorem total_is_sum_of_counters (cfg : config) (found : list contract)
    (s : state) :
  balanced s ->
  forallb validSeverity (runFindings cfg found) = true ->
  balanced (fst (main cfg found s)).
Proof.
  simpl. revert s. induction found as [|c found IH]; intros s Hs Hv; simpl.
  - assumption.
  - unfold runFindings in Hv. simpl in Hv. rewrite forallb_app in Hv.
    apply andb_prop in Hv as [Hc Hf].
    apply IH; [|exact Hf]. now apply balanced_checkFile.
Qed.

(** The run of [build-config.js] over the private function and the two
    imports. *)
Lemma total_is_sum_of_counters_witness :
  balanced (fst (main buildConfig [privateFunctionFile; unorderedImportsFile]
                   initial))
  /\ length (issues (fst (main buildConfig
                            [privateFunctionFile; unorderedImportsFile]
                            initial))) = 5.
Proof.
  split.
  - apply (total_is_sum_of_counters buildConfig
             [privateFunctionFile; unorderedImportsFile] initial).
    + reflexivity.
    + vm_compute. reflexivity.
  - vm_compute. reflexivity.
Defined.

(** C8.  The findings of a run are a function of the contracts and of the
    configuration alone: whatever the accumulators hold when [main]
    starts, the issues that it appends are, in order, the issues of a run
    that starts from the initial accumulators. *)
Theorem findings_deterministic (cfg : config) (found : list contract)
    (s : state) :
  issues (fst (main cfg found s)) = issues s ++ issues (fst (run cfg found)).
Proof.
  unfold run. now rewrite !issues_main.
Qed.

(* ===================================================================== *)
(** ** The categories of the findings *)
(* ===================================================================== *)

Section FindingsForall.

Variable P : issue -> Prop.

Lemma Forall_findings_comp (f g : state -> state) :
  emitter f -> emitter g ->
  Forall P (findings f) -> Forall P (findings g) ->
  Forall P (findings (fun s => g (f s))).
Proof.
  intros Hf Hg Pf Pg. rewrite findings_comp by assumption.
  apply Forall_app. now split.
Qed.

Lemma Forall_findings_forEach {A} (body : A -> state -> state) (l : list A) :
  (forall x, emitter (body x)) ->
  (forall x, Forall P (findings (body x))) ->
  Forall P (findings (forEach body l)).
Proof.
  intros Hb Pb. rewrite findings_forEach by assumption.
  induction l as [|x l IH]; simpl; [constructor|].
  apply Forall_app. split; [apply Pb|apply IH].
Qed.

Lemma Forall_flatMapFrom {A} (F : nat -> A -> list issue) (l : list A) k :
  (forall k x, Forall P (F k x)) -> Forall P (flatMapFrom k F l).
Proof.
  intros HF. revert k. induction l as [|x l IH]; intros k; simpl;
    [constructor|].
  apply Forall_app. split; [apply HF|apply IH].
Qed.

Lemma Forall_findings_forEachIndexed {A} (body : nat -> A -> state -> state)
    (l : list A) :
  (forall k x, emitter (body k x)) ->
  (forall k x, Forall P (findings (body k x))) ->
  Forall P (findings (forEachIndexed body l)).
Proof.
  intros Hb Pb. rewrite findings_forEachIndexed by assumption.
  now apply Forall_flatMapFrom.
Qed.

End FindingsForall.

(** The findings of a cascade of tests around calls of [addIssue]. *)
Ltac findings_cases :=
  repeat match goal with
         | |- context [if ?b then _ else _] => destruct b
         | |- context [match ?o with Some _ => _ | None => _ end] => destruct o
         end;
  try (cbv [findings]; simpl issues; repeat constructor).

Lemma category_checkFileStructure cfg p content lines :
  Forall (inCategory "structure")
    (findings (checkFileStructure cfg p content lines)).
Proof.
  unfold checkFileStructure. destruct (structure (RULES cfg)); [|constructor].
  apply Forall_findings_comp;
    auto using emitter_checkSpdx, emitter_checkPragma.
  - unfold checkSpdx. findings_cases.
  - unfold checkPragma. findings_cases.
Qed.

Lemma category_checkImports cfg p content lines :
  Forall (inCategory "imports") (findings (checkImports cfg p content lines)).
Proof.
  unfold checkImports. destruct (imports (RULES cfg)); [|constructor].
  apply Forall_findings_forEachIndexed;
    [intros; apply emitter_checkImport|].
  intros k x. unfold checkImport. apply Forall_findings_comp;
    auto using emitter_checkNamedImport, emitter_checkAlphabetical.
  - unfold checkNamedImport. findings_cases.
  - unfold checkAlphabetical. findings_cases.
Qed.

Lemma category_checkFunction cfg rules p content m :
  Forall (inCategory "naming")
    (findings (checkFunction cfg rules p content m)).
Proof.
  unfold checkFunction. destruct (memStr _ _); [constructor|].
  apply Forall_findings_comp; [apply emitter_comp| | |];
    auto using emitter_checkPrivateInternalName, emitter_checkFunctionName,
      emitter_checkArguments.
  - apply Forall_findings_comp;
      auto using emitter_checkPrivateInternalName, emitter_checkFunctionName.
    + unfold checkPrivateInternalName. findings_cases.
    + unfold checkFunctionName. findings_cases.
  - unfold checkArguments. destruct (_ && _); [|constructor].
    apply Forall_findings_forEach; [intros; apply emitter_checkArgument|].
    intros x. unfold checkArgument. findings_cases.
Qed.

Lemma category_checkNaming cfg p content lines :
  Forall (inCategory "naming") (findings (checkNaming cfg p content lines)).
Proof.
  unfold checkNaming. destruct (naming (RULES cfg)); [|constructor].
  apply Forall_findings_comp;
    [apply emitter_comp; [apply emitter_comp|]| | |];
    auto using emitter_checkContracts, emitter_checkFunctions,
      emitter_checkEvents, emitter_checkConstants.
  - apply Forall_findings_comp; [apply emitter_comp| | |];
      auto using emitter_checkContracts, emitter_checkFunctions,
        emitter_checkEvents.
    + apply Forall_findings_comp;
        auto using emitter_checkContracts, emitter_checkFunctions.
      * unfold checkContracts. destruct (truthy _); [|constructor].
        apply Forall_findings_forEach;
          [intros; apply emitter_checkContract|].
        intros x. unfold checkContract. findings_cases.
      * unfold checkFunctions. destruct (_ || _); [|constructor].
        apply Forall_findings_forEach;
          [intros; apply emitter_checkFunction|].
        intros x. apply category_checkFunction.
    + unfold checkEvents. destruct (truthy _); [|constructor].
      apply Forall_findings_forEach; [intros; apply emitter_checkEvent|].
      intros x. unfold checkEvent. apply Forall_findings_comp;
        auto using emitter_checkEventCapWords, emitter_checkEventPastTense.
      * unfold checkEventCapWords. findings_cases.
      * unfold checkEventPastTense. findings_cases.
  - unfold checkConstants. destruct (truthy _); [|constructor].
    apply Forall_findings_forEach; [intros; apply emitter_checkConstant|].
    intros x. unfold checkConstant. findings_cases.
Qed.

Lemma category_checkLayout cfg p content lines :
  Forall (inCategory "layout") (findings (checkLayout cfg p content lines)).
Proof.
  unfold checkLayout. destruct (layout (RULES cfg)); [|constructor].
  apply Forall_findings_forEachIndexed; [intros; apply emitter_checkLine|].
  intros k x. unfold checkLine.
  apply Forall_findings_comp; [apply emitter_comp| | |];
    auto using emitter_checkLineLength, emitter_checkTabs,
      emitter_checkTrailingWhitespace.
  - apply Forall_findings_comp;
      auto using emitter_checkLineLength, emitter_checkTabs.
    + unfold checkLineLength. findings_cases.
    + unfold checkTabs. findings_cases.
  - unfold checkTrailingWhitespace. findings_cases.
Qed.

Lemma findings_passes_In cfg c i :
  In i (findings (passes cfg c)) ->
  (In i (findings (checkFileStructure cfg (path c) (text c)
                     (split LF (text c))))
   /\ present (structure (RULES cfg)) = true /\ inCategory "structure" i)
  \/ (In i (findings (checkImports cfg (path c) (text c)
                        (split LF (text c))))
      /\ present (imports (RULES cfg)) = true /\ inCategory "imports" i)
  \/ (In i (findings (checkNaming cfg (path c) (text c)
                        (split LF (text c))))
      /\ present (naming (RULES cfg)) = true /\ inCategory "naming" i)
  \/ (In i (findings (checkLayout cfg (path c) (text c)
                        (split LF (text c))))
      /\ present (layout (RULES cfg)) = true /\ inCategory "layout" i).
Proof.
  rewrite findings_passes, !in_app_iff.
  intros [H|[H|[H|H]]]; [left|right; left|right; right; left|right; right; right];
    (split; [exact H|split]).
  - revert H. unfold checkFileStructure.
    destruct (structure (RULES cfg)); [reflexivity|intros []].
  - eapply (proj1 (List.Forall_forall _ _));
      [apply category_checkFileStructure|exact H].
  - revert H. unfold checkImports.
    destruct (imports (RULES cfg)); [reflexivity|intros []].
  - eapply (proj1 (List.Forall_forall _ _));
      [apply category_checkImports|exact H].
  - revert H. unfold checkNaming.
    destruct (naming (RULES cfg)); [reflexivity|intros []].
  - eapply (proj1 (List.Forall_forall _ _));
      [apply category_checkNaming|exact H].
  - revert H. unfold checkLayout.
    destruct (layout (RULES cfg)); [reflexivity|intros []].
  - eapply (proj1 (List.Forall_forall _ _));
      [apply category_checkLayout|exact H].
Qed.

(** C3.  When a category (structure, imports, naming or layout) is absent
    from the rule configuration or disabled in it, a run emits no finding
    whose rule identifier belongs to that category, whatever the input. *)
Theorem disabled_category_emits_nothing (cfg : config)
    (found : list contract) (cat : string) :
  categoryOn cfg cat = false ->
  forall i, In i (issues (fst (run cfg found))) -> categoryOf (rule i) <> cat.
Proof.
  intros Hoff i Hi. unfold run in Hi. rewrite issues_main in Hi.
  simpl in Hi. apply in_flat_map in Hi as (c & _ & Hi).
  apply findings_passes_In in Hi. unfold categoryOn in Hoff.
  unfold inCategory in Hi. intros Hcat.
  destruct Hi as [(_ & Hon & Hc)|[(_ & Hon & Hc)|[(_ & Hon & Hc)|(_ & Hon & Hc)]]];
    rewrite Hc in Hcat; subst cat; simpl in Hoff; congruence.
Qed.

(** Without the naming category the private function, whose name breaks
    the underscore rule, is not reported. *)
Lemma disabled_category_emits_nothing_witness :
  categoryOn namingOff "naming" = false
  /\ Forall (fun i => categoryOf (rule i) <> "naming")
       (issues (fst (run namingOff [privateFunctionFile]))).
Proof.
  split; [reflexivity|].
  apply List.Forall_forall.
  apply (disabled_category_emits_nothing namingOff [privateFunctionFile]
           "naming").
  reflexivity.
Defined.

(* ===================================================================== *)
(** ** The structure pass *)
(* ===================================================================== *)

Lemma lit_startsWith m st :
  match lit m st with [] => false | _ :: _ => true end
  = startsWith (rest st) m.
Proof.
  revert st. induction m as [|x m IH]; intros st; simpl; [reflexivity|].
  destruct (rest st) as [|c r] eqn:E; [reflexivity|].
  rewrite (N.eqb_sym x c).
  destruct (c =? x)%N; simpl; [|reflexivity].
  apply (IH (MState (c :: pre st) r (caps st))).
Qed.

Lemma search_Lit m p r :
  present (search (Lit m) p r) = includes r m.
Proof.
  revert p. induction r as [|c r IH]; intros p.
  - simpl search. pose proof (lit_startsWith m (MState p [] [])) as H.
    simpl in H. simpl includes. rewrite <- H.
    destruct (lit m (MState p [] [])); reflexivity.
  - simpl search. pose proof (lit_startsWith m (MState p (c :: r) [])) as H.
    simpl in H.
    change (includes (c :: r) m)
      with (startsWith (c :: r) m || includes r m).
    rewrite <- H.
    destruct (lit m (MState p (c :: r) [])); [apply IH|reflexivity].
Qed.

(** A pattern that is one literal is found where [includes] finds it. *)
Lemma test_Lit m s : test (Lit m) s = includes s m.
Proof.
  rewrite <- (search_Lit m [] s). unfold test, exec.
  change (length s <? 0) with false. cbv iota.
  change (take 0 s) with (@nil N). change (drop 0 s) with s.
  reflexivity.
Qed.

Lemma countRule_other cat r l :
  Forall (inCategory cat) l -> categoryOf r <> cat -> countRule r l = 0.
Proof.
  intros Hl Hr. unfold countRule. induction Hl as [|i l Hi Hl IH]; simpl.
  - reflexivity.
  - unfold hasRule at 1. destruct (String.eqb (rule i) r) eqn:E; [|exact IH].
    apply String.eqb_eq in E. unfold inCategory in Hi. congruence.
Qed.

Lemma checkSpdx_findings cfg rules p content lines :
  let L := findings (checkSpdx cfg rules p content lines) in
  countRule "structure.spdxLicense" L + countRule "structure.spdxAtTop" L <= 1
  /\ (0 < countRule "structure.spdxAtTop" L ->
      includes content spdxMarker = true)
  /\ Forall (fun i => line i = 1) L.
Proof.
  unfold checkSpdx, spdxPattern. rewrite test_Lit.
  change (str "SPDX-License-Identifier:") with spdxMarker.
  assert (Hnone : forall b : bool,
    countRule "structure.spdxLicense" [] + countRule "structure.spdxAtTop" []
    <= 1
    /\ (0 < countRule "structure.spdxAtTop" [] -> b = true)
    /\ Forall (fun i => line i = 1) []).
  { intros b. unfold countRule. simpl. repeat split; try lia. constructor. }
  destruct (truthy (spdxLicense rules)); [|apply Hnone].
  destruct (includes content spdxMarker) eqn:Hin; simpl negb; cbv iota.
  - destruct (truthy (spdxAtTop rules) && (0 <? length lines));
      [destruct (negb _)|]; try apply Hnone.
    cbv [findings countRule hasRule]. simpl.
    split; [lia|split; [reflexivity|repeat constructor]].
  - cbv [findings countRule hasRule]. simpl.
    split; [lia|split; [lia|repeat constructor]].
Qed.

Lemma checkPragma_findings rules p lines :
  Forall (fun i => rule i = "structure.pragmaAfterLicense")
    (findings (checkPragma rules p lines)).
Proof. unfold checkPragma. findings_cases. Qed.

Lemma countRule_pragma r l :
  r <> "structure.pragmaAfterLicense" ->
  Forall (fun i => rule i = "structure.pragmaAfterLicense") l ->
  countRule r l = 0.
Proof.
  intros Hr Hl. unfold countRule. induction Hl as [|i l Hi Hl IH]; simpl.
  - reflexivity.
  - unfold hasRule at 1. destruct (String.eqb (rule i) r) eqn:E; [|exact IH].
    apply String.eqb_eq in E. congruence.
Qed.

Lemma countRule_In r l i : In i l -> rule i = r -> 0 < countRule r l.
Proof.
  intros Hin Hr. unfold countRule.
  assert (H : In i (List.filter (hasRule r) l)).
  { apply List.filter_In. split; [assumption|].
    unfold hasRule. now apply String.eqb_eq. }
  destruct (List.filter (hasRule r) l); [contradiction|simpl; lia].
Qed.

(** C10.  For every file, the findings [structure.spdxLicense]
    (MissingSPDX) and [structure.spdxAtTop] (SPDXNotAtTop) number at most
    one together; SPDXNotAtTop is only emitted when the text of the file
    contains the SPDX marker; and both carry the line number 1. *)
Theorem spdx_findings_exclusive (cfg : config) (c : contract) :
  let L := findings (passes cfg c) in
  countRule "structure.spdxLicense" L + countRule "structure.spdxAtTop" L <= 1
  /\ (0 < countRule "structure.spdxAtTop" L ->
      includes (text c) spdxMarker = true)
  /\ (forall i, In i L ->
        rule i = "structure.spdxLicense" \/ rule i = "structure.spdxAtTop" ->
        line i = 1).
Proof.
  intros L.
  set (lines := split LF (text c)).
  set (S0 := findings (checkFileStructure cfg (path c) (text c) lines)).
  assert (Hcount : forall r, categoryOf r = "structure" ->
                     countRule r L = countRule r S0).
  { intros r Hr. subst L S0 lines.
    rewrite findings_passes, !countRule_app.
    rewrite (countRule_other "imports" r _ (category_checkImports _ _ _ _)),
      (countRule_other "naming" r _ (category_checkNaming _ _ _ _)),
      (countRule_other "layout" r _ (category_checkLayout _ _ _ _));
      try (rewrite Hr; discriminate). lia. }
  assert (HS0 :
    countRule "structure.spdxLicense" S0 + countRule "structure.spdxAtTop" S0
    <= 1
    /\ (0 < countRule "structure.spdxAtTop" S0 ->
        includes (text c) spdxMarker = true)
    /\ (forall i, In i S0 ->
          rule i = "structure.spdxLicense" \/ rule i = "structure.spdxAtTop" ->
          line i = 1)).
  { subst S0. unfold checkFileStructure.
    destruct (structure (RULES cfg)) as [rules|].
    2: { cbv [findings countRule]. simpl.
         split; [lia|split; [intros H; lia|intros i []]]. }
    rewrite findings_comp
      by auto using emitter_checkSpdx, emitter_checkPragma.
    destruct (checkSpdx_findings cfg rules (path c) (text c) lines)
      as (H1 & H2 & H3).
    pose proof (checkPragma_findings rules (path c) lines) as H4.
    rewrite !countRule_app.
    rewrite (countRule_pragma "structure.spdxLicense" _
               ltac:(discriminate) H4),
      (countRule_pragma "structure.spdxAtTop" _ ltac:(discriminate) H4),
      !Nat.add_0_r.
    split; [exact H1|split; [exact H2|]].
    intros i Hi Hr. apply in_app_iff in Hi as [Hi|Hi].
    - exact (proj1 (List.Forall_forall _ _) H3 i Hi).
    - pose proof (proj1 (List.Forall_forall _ _) H4 i Hi) as Hp.
      cbv beta in Hp. destruct Hr as [Hr|Hr]; rewrite Hr in Hp; discriminate. }
  destruct HS0 as (H1 & H2 & H3).
  rewrite !Hcount by reflexivity.
  split; [exact H1|split; [exact H2|]].
  intros i Hi Hr. apply findings_passes_In in Hi.
  destruct Hi as [(Hi & _)|[(_ & _ & Hc)|[(_ & _ & Hc)|(_ & _ & Hc)]]];
    [now apply H3| | |];
    unfold inCategory in Hc; destruct Hr as [Hr|Hr]; rewrite Hr in Hc;
    discriminate.
Qed.

(* ===================================================================== *)
(** ** The layout pass *)
(* ===================================================================== *)

Lemma In_flatMapFrom {A B} (F : nat -> A -> list B) (l : list A) k j x y :
  l !! j = Some x -> In y (F (k + j) x) -> In y (flatMapFrom k F l).
Proof.
  revert k j. induction l as [|a l IH]; intros k j Hj Hy; [discriminate|].
  simpl. apply in_app_iff. destruct j as [|j]; simpl in Hj.
  - injection Hj as ->. left. now rewrite Nat.add_0_r in Hy.
  - right. apply (IH (S k) j Hj). now rewrite Nat.add_succ_comm.
Qed.

Lemma includes_char c l : includes l [c] = true <-> In c l.
Proof.
  induction l as [|x l IH]; simpl.
  - split; [discriminate|intros []].
  - rewrite andb_true_r, orb_true_iff, IH, N.eqb_eq. intuition congruence.
Qed.

Lemma findings_checkLine cfg rules p k l :
  findings (checkLine cfg rules p k l)
  = findings (checkLineLength cfg rules p (k + 1) l)
    ++ findings (checkTabs rules p (k + 1) l)
    ++ findings (checkTrailingWhitespace rules p (k + 1) l).
Proof.
  unfold checkLine.
  rewrite findings_comp;
    [|apply emitter_comp;
       [apply emitter_checkLineLength|apply emitter_checkTabs]
     |apply emitter_checkTrailingWhitespace].
  rewrite findings_comp
    by (apply emitter_checkLineLength || apply emitter_checkTabs).
  now rewrite <- app_assoc.
Qed.

(** C7, as the code has it.  When the layout options [indentation] and
    [noTabs] are both enabled, every physical line that contains a tab
    character, at any position, produces a [layout.noTabs] finding of
    severity error at that line. *)
Theorem tabs_reported (cfg : config) (rules : layout_rules) (c : contract)
    (k : nat) (l : jsstring) :
  layout (RULES cfg) = Some rules ->
  truthy (indentation rules) = true ->
  truthy (noTabs rules) = true ->
  split LF (text c) !! k = Some l ->
  In TAB l ->
  In (Issue (path c) (k + 1) "layout.noTabs"
        (str "Use spaces instead of tabs for indentation") sevError)
     (findings (passes cfg c)).
Proof.
  intros Hlay Hind Htabs Hk Htab.
  rewrite findings_passes, !in_app_iff. do 3 right.
  unfold checkLayout. rewrite Hlay.
  rewrite findings_forEachIndexed by (intros; apply emitter_checkLine).
  apply (In_flatMapFrom _ _ 0 k l _ Hk). simpl.
  rewrite findings_checkLine, !in_app_iff. right. left.
  unfold checkTabs. rewrite Hind, Htabs. simpl.
  apply includes_char in Htab. rewrite Htab. now left.
Qed.

Lemma tabs_reported_witness :
  In (Issue (path tabFile) 1 "layout.noTabs"
        (str "Use spaces instead of tabs for indentation") sevError)
     (findings (passes buildConfig tabFile)).
Proof.
  apply (tabs_reported buildConfig
           (LayoutRules (Some 120%Z) (VNum 4) (VBool true) (VBool true))
           tabFile 0 (TAB :: str "uint256 x;")).
  - reflexivity.
  - reflexivity.
  - reflexivity.
  - reflexivity.
  - now left.
Defined.

(** C7, as stated, fails: with [noTabs] enabled and no [indentation]
    option, a line that starts with a tab produces no finding. *)
Lemma tabs_need_indentation :
  layout (RULES noTabsOnly)
  = Some (LayoutRules None VUndef (VBool true) VUndef)
  /\ truthy (noTabs (LayoutRules None VUndef (VBool true) VUndef)) = true
  /\ split LF (text tabFile) !! 0 = Some (TAB :: str "uint256 x;")
  /\ In TAB (TAB :: str "uint256 x;")
  /\ findings (passes noTabsOnly tabFile) = [].
Proof. repeat split. now left. Qed.

(* ===================================================================== *)
(** ** The naming of functions *)
(* ===================================================================== *)

Lemma checkArguments_rule rules p n args :
  Forall (fun i => rule i = "naming.functionArguments")
    (findings (checkArguments rules p n args)).
Proof.
  unfold checkArguments. destruct (_ && _); [|constructor].
  apply Forall_findings_forEach; [intros; apply emitter_checkArgument|].
  intros x. unfold checkArgument. findings_cases.
Qed.

Lemma findings_checkFunction cfg rules p content m :
  memStr (grp 1 m) specialFunctions = false ->
  findings (checkFunction cfg rules p content m)
  = findings (checkPrivateInternalName rules p
                (lineNumberAt content (m_index m))
                (resolveVisibility (grp 3 m)) (grp 1 m))
    ++ findings (checkFunctionName cfg rules p
                   (lineNumberAt content (m_index m))
                   (resolveVisibility (grp 3 m)) (grp 1 m))
    ++ findings (checkArguments rules p
                   (lineNumberAt content (m_index m)) (grp 2 m)).
Proof.
  intros Hs. unfold checkFunction. rewrite Hs.
  rewrite findings_comp;
    [|apply emitter_comp;
       [apply emitter_checkPrivateInternalName
       |apply emitter_checkFunctionName]
     |apply emitter_checkArguments].
  rewrite findings_comp
    by (apply emitter_checkPrivateInternalName
        || apply emitter_checkFunctionName).
  now rewrite <- app_assoc.
Qed.

(* ===================================================================== *)
(** ** The severity of the import findings *)
(* ===================================================================== *)

Lemma checkImports_severity cfg p content lines :
  Forall (fun i => severity i = sevWarning)
    (findings (checkImports cfg p content lines)).
Proof.
  unfold checkImports. destruct (imports (RULES cfg)); [|constructor].
  apply Forall_findings_forEachIndexed;
    [intros; apply emitter_checkImport|].
  intros k x. unfold checkImport. apply Forall_findings_comp;
    auto using emitter_checkNamedImport, emitter_checkAlphabetical.
  - unfold checkNamedImport. findings_cases.
  - unfold checkAlphabetical. findings_cases.
Qed.

(** Whatever [RULE_SEVERITY] holds, a finding of the imports category has
    the severity warning. *)
Lemma import_severity_fixed cfg c i :
  In i (findings (passes cfg c)) ->
  categoryOf (rule i) = "imports" -> severity i = sevWarning.
Proof.
  intros Hi Hcat. apply findings_passes_In in Hi.
  destruct Hi as [(_ & _ & Hc)|[(Hi & _)|[(_ & _ & Hc)|(_ & _ & Hc)]]];
    try (unfold inCategory in Hc; rewrite Hcat in Hc; discriminate).
  exact (proj1 (List.Forall_forall _ _)
           (checkImports_severity cfg _ _ _) i Hi).
Qed.

(** C6 fails on the code.  [RULE_SEVERITY] gives the severity error to the
    rules [imports.namedOnly] and [imports.alphabetical], and the findings
    of both rules still have the severity warning: [checkImports] never
    reads [RULE_SEVERITY]. *)
Theorem import_severity_not_configurable :
  RULE_SEVERITY importsAsErrors !! "imports.namedOnly" = Some sevError
  /\ RULE_SEVERITY importsAsErrors !! "imports.alphabetical" = Some sevError
  /\ List.filter (fun i => String.eqb (categoryOf (rule i)) "imports")
       (findings (passes importsAsErrors unorderedImportsFile))
     = [Issue (str "Example.sol") 2 "imports.namedOnly" namedImportMessage
          sevWarning;
        Issue (str "Example.sol") 2 "imports.alphabetical"
          (str "Imports should be alphabetically ordered") sevWarning].
Proof. vm_compute. repeat split. Qed.

(* ===================================================================== *)
(** ** The matcher *)
(* ===================================================================== *)

Section Matcher.

Lemma mstate_eq (st st' : mstate) :
  pre st' = pre st -> rest st' = rest st -> caps st' = caps st -> st' = st.
Proof. destruct st, st'; simpl; congruence. Qed.

Lemma reaches_nil st : reaches [] st st.
Proof. split; reflexivity. Qed.

Lemma reaches_app u v st mid st' :
  reaches u st mid -> reaches v mid st' -> reaches (u ++ v) st st'.
Proof.
  intros [Hp1 Hr1] [Hp2 Hr2]. split.
  - now rewrite Hp2, Hp1, rev_app_distr, <- app_assoc.
  - now rewrite Hr1, Hr2, <- app_assoc.
Qed.

Lemma reaches_index w st st' :
  reaches w st st' -> index st' = index st + length w.
Proof.
  intros [Hp _]. unfold index. rewrite Hp, length_app, length_rev. lia.
Qed.

Lemma reaches_between w st st' : reaches w st st' -> between st st' = w.
Proof.
  intros H. unfold between. rewrite (reaches_index w st st' H).
  destruct H as [Hp _]. rewrite Hp.
  replace (index st + length w - index st) with (length (rev w))
    by (rewrite length_rev; lia).
  rewrite take_app_length. apply rev_involutive.
Qed.

Lemma lit_spec s st st' :
  In st' (lit s st) <-> reaches s st st' /\ caps st' = caps st.
Proof.
  revert st. induction s as [|x s IH]; intros st; simpl.
  - split.
    + intros [<-|[]]. split; [apply reaches_nil|reflexivity].
    + intros [[Hp Hr] Hc]. left. symmetry. now apply mstate_eq.
  - destruct (rest st) as [|c r] eqn:E.
    + split; [intros []|]. intros [[_ Hr] _]. rewrite E in Hr.
      discriminate Hr.
    + destruct (c =? x)%N eqn:Ecx.
      * apply N.eqb_eq in Ecx. subst c. rewrite IH. unfold reaches. simpl.
        rewrite E, <- app_assoc. simpl.
        split; intros [[Hp Hr] Hc]; repeat split; congruence.
      * split; [intros []|]. intros [[_ Hr] _]. rewrite E in Hr.
        simpl in Hr. apply N.eqb_neq in Ecx. congruence.
Qed.

Lemma run_of_nil k p r cs : run_of k p r cs (MState p r cs).
Proof. exists []. repeat split. Qed.

Lemma run_of_cons k c p r cs st' :
  inClass k c = true -> run_of k (c :: p) r cs st' -> run_of k p (c :: r) cs st'.
Proof.
  intros Hc (w & Hw & [Hp Hr] & Hcs). exists (c :: w). simpl in *.
  split; [now rewrite Hc|]. split; [|assumption]. split; simpl.
  - rewrite Hp, <- app_assoc. reflexivity.
  - now rewrite Hr.
Qed.

Lemma run_of_inv k p r cs st' :
  run_of k p r cs st' ->
  st' = MState p r cs
  \/ exists c r', r = c :: r' /\ inClass k c = true
                  /\ run_of k (c :: p) r' cs st'.
Proof.
  intros (w & Hw & [Hp Hr] & Hcs). simpl in *. destruct w as [|c w].
  - left. apply mstate_eq; simpl; auto.
  - right. simpl in Hw. apply andb_prop in Hw as [Hc Hw].
    exists c, (w ++ rest st'). split; [exact Hr|]. split; [exact Hc|].
    exists w. split; [exact Hw|]. split; [|exact Hcs]. split; simpl.
    + simpl in Hp. rewrite Hp, <- app_assoc. reflexivity.
    + reflexivity.
Qed.

Lemma star_spec k p r cs st' : In st' (star k p r cs) <-> run_of k p r cs st'.
Proof.
  revert p. induction r as [|c r IH]; intros p; simpl.
  - split.
    + intros [<-|[]]. apply run_of_nil.
    + intros H. apply run_of_inv in H as [->|(c & r' & E & _)];
        [now left|discriminate].
  - destruct (inClass k c) eqn:Hc.
    + rewrite in_app_iff, IH. split.
      * intros [H|[<-|[]]]; [now apply run_of_cons|apply run_of_nil].
      * intros H. apply run_of_inv in H as [->|(c' & r' & E & _ & H)].
        -- right. now left.
        -- injection E as <- <-. now left.
    + split.
      * intros [<-|[]]. apply run_of_nil.
      * intros H. apply run_of_inv in H as [->|(c' & r' & E & Hc' & _)].
        -- now left.
        -- injection E as <- <-. congruence.
Qed.

Lemma starLazy_spec k p r cs st' :
  In st' (starLazy k p r cs) <-> run_of k p r cs st'.
Proof.
  revert p. induction r as [|c r IH]; intros p; simpl.
  - split.
    + intros [<-|[]]. apply run_of_nil.
    + intros H. apply run_of_inv in H as [->|(c & r' & E & _)];
        [now left|discriminate].
  - destruct (inClass k c) eqn:Hc.
    + simpl. rewrite IH. split.
      * intros [<-|H]; [apply run_of_nil|now apply run_of_cons].
      * intros H. apply run_of_inv in H as [->|(c' & r' & E & _ & H)].
        -- now left.
        -- injection E as <- <-. now right.
    + split.
      * intros [<-|[]]. apply run_of_nil.
      * intros H. apply run_of_inv in H as [->|(c' & r' & E & Hc' & _)].
        -- now left.
        -- injection E as <- <-. congruence.
Qed.

Lemma plus_spec k st st' :
  In st' (rmatch (Plus k) st)
  <-> exists w, w <> [] /\ forallb (inClass k) w = true
                /\ reaches w st st' /\ caps st' = caps st.
Proof.
  simpl. destruct (rest st) as [|c r] eqn:E.
  - split; [intros []|]. intros (w & Hne & _ & [_ Hr] & _).
    rewrite E in Hr. destruct w; [contradiction|discriminate].
  - destruct (inClass k c) eqn:Hc.
    + rewrite star_spec. split.
      * intros (w & Hw & [Hp Hr] & Hcs). exists (c :: w). simpl in *.
        split; [discriminate|]. split; [now rewrite Hc|].
        split; [|assumption]. split; simpl.
        -- rewrite Hp, <- app_assoc. reflexivity.
        -- now rewrite E, Hr.
      * intros (w & Hne & Hw & [Hp Hr] & Hcs).
        destruct w as [|c' w]; [contradiction|].
        rewrite E in Hr. simpl in Hr. injection Hr as <- ->. simpl in Hw.
        apply andb_prop in Hw as [_ Hw]. exists w.
        split; [exact Hw|]. split; [|exact Hcs]. split; simpl.
        -- simpl in Hp. rewrite Hp, <- app_assoc. reflexivity.
        -- reflexivity.
    + split; [intros []|]. intros (w & Hne & Hw & [_ Hr] & _).
      destruct w as [|c' w]; [contradiction|].
      rewrite E in Hr. simpl in Hr. injection Hr as <- ->. simpl in Hw.
      rewrite Hc in Hw. discriminate.
Qed.

Lemma cls_spec k st st' :
  In st' (rmatch (Cls k) st)
  <-> exists c, inClass k c = true /\ reaches [c] st st'
                /\ caps st' = caps st.
Proof.
  simpl. unfold step. destruct (rest st) as [|c r] eqn:E.
  - split; [intros []|]. intros (c & _ & [_ Hr] & _).
    rewrite E in Hr. discriminate.
  - destruct (inClass k c) eqn:Hc.
    + split.
      * intros [<-|[]]. exists c. unfold reaches. simpl. rewrite E.
        repeat split. assumption.
      * intros (c' & _ & [Hp Hr] & Hcs). left. rewrite E in Hr.
        simpl in Hr, Hp. injection Hr as <- ->. symmetry.
        apply mstate_eq; simpl; auto.
    + split; [intros []|]. intros (c' & Hc' & [_ Hr] & _).
      rewrite E in Hr. simpl in Hr. injection Hr as <- ->. congruence.
Qed.

(** A match of [r] reads a word of at least [minLen r] code units. *)
Lemma rmatch_reaches r st st' :
  In st' (rmatch r st) -> exists w, reaches w st st' /\ minLen r <= length w.
Proof.
  revert st st'. induction r; intros st st' H.
  - destruct H as [<-|[]]. exists []. split; [apply reaches_nil|simpl; lia].
  - apply lit_spec in H as [H _]. exists s. split; [assumption|simpl; lia].
  - apply cls_spec in H as (c & _ & H & _). exists [c].
    split; [assumption|simpl; lia].
  - simpl in H. apply in_flat_map in H as (mid & H1 & H2).
    apply IHr1 in H1 as (u & Hu & Lu). apply IHr2 in H2 as (v & Hv & Lv).
    exists (u ++ v). split; [now apply (reaches_app u v st mid)|].
    rewrite length_app. simpl. lia.
  - simpl in H. apply in_app_iff in H as [H|H].
    + apply IHr1 in H as (w & Hw & Lw). exists w. split; [assumption|].
      simpl. lia.
    + apply IHr2 in H as (w & Hw & Lw). exists w. split; [assumption|].
      simpl. lia.
  - simpl in H. apply star_spec in H as (w & _ & H & _). exists w.
    split; [destruct st; exact H|simpl; lia].
  - apply plus_spec in H as (w & Hne & _ & H & _). exists w.
    split; [assumption|]. destruct w; [contradiction|simpl; lia].
  - simpl in H. apply starLazy_spec in H as (w & _ & H & _). exists w.
    split; [destruct st; exact H|simpl; lia].
  - simpl in H. apply in_app_iff in H as [H|[<-|[]]].
    + apply List.filter_In in H as [H _]. apply IHr in H as (w & Hw & _).
      exists w. split; [assumption|simpl; lia].
    + exists []. split; [apply reaches_nil|simpl; lia].
  - simpl in H. apply in_map_iff in H as (x & <- & H).
    apply IHr in H as (w & Hw & Lw). exists w. split; [exact Hw|exact Lw].
  - simpl in H. destruct (atLineStart multiline st); [|destruct H].
    destruct H as [<-|[]]. exists []. split; [apply reaches_nil|simpl; lia].
  - simpl in H. destruct (atLineEnd multiline st); [|destruct H].
    destruct H as [<-|[]]. exists []. split; [apply reaches_nil|simpl; lia].
  - simpl in H. destruct (xorb _ _); [|destruct H].
    destruct H as [<-|[]]. exists []. split; [apply reaches_nil|simpl; lia].
Qed.

(** A pattern without groups leaves the captures as they are. *)
Lemma rmatch_groupFree r st st' :
  groupFree r = true -> In st' (rmatch r st) -> caps st' = caps st.
Proof.
  revert st st'. induction r; intros st st' Hg H; simpl in Hg.
  - destruct H as [<-|[]]. reflexivity.
  - now apply lit_spec in H as [_ H].
  - now apply cls_spec in H as (c & _ & _ & H).
  - apply andb_prop in Hg as [Hg1 Hg2]. simpl in H.
    apply in_flat_map in H as (mid & H1 & H2).
    rewrite (IHr2 _ _ Hg2 H2). now apply IHr1.
  - apply andb_prop in Hg as [Hg1 Hg2]. simpl in H.
    apply in_app_iff in H as [H|H]; [now apply IHr1|now apply IHr2].
  - simpl in H. now apply star_spec in H as (w & _ & _ & H).
  - now apply plus_spec in H as (w & _ & _ & _ & H).
  - simpl in H. now apply starLazy_spec in H as (w & _ & _ & H).
  - simpl in H. apply in_app_iff in H as [H|[<-|[]]]; [|reflexivity].
    apply List.filter_In in H as [H _]. now apply IHr.
  - discriminate.
  - simpl in H. destruct (atLineStart multiline st); [|destruct H].
    destruct H as [<-|[]]. reflexivity.
  - simpl in H. destruct (atLineEnd multiline st); [|destruct H].
    destruct H as [<-|[]]. reflexivity.
  - simpl in H. destruct (xorb _ _); [|destruct H].
    destruct H as [<-|[]]. reflexivity.
Qed.

End Matcher.

(* ===================================================================== *)
(** ** exec and the loops over the matches of a global pattern *)
(* ===================================================================== *)

Lemma search_Some re p r m :
  search re p r = Some m ->
  exists u r' st' tl,
    r = u ++ r'
    /\ rmatch re (MState (rev u ++ p) r' []) = st' :: tl
    /\ m = MResult (length (rev u ++ p)) (index st') (caps st').
Proof.
  revert p. induction r as [|c r IH]; intros p; simpl.
  - destruct (rmatch re (MState p [] [])) as [|st' tl] eqn:E; [discriminate|].
    intros [= <-]. exists [], [], st', tl. repeat split. exact E.
  - destruct (rmatch re (MState p (c :: r) [])) as [|st' tl] eqn:E.
    + intros H. apply IH in H as (u & r' & st' & tl & -> & Hm & ->).
      exists (c :: u), r', st', tl. simpl. rewrite <- !app_assoc.
      repeat split. exact Hm.
    + intros [= <-]. exists [], (c :: r), st', tl. repeat split. exact E.
Qed.

(** A match lies in the subject, starts at or after [lastIndex], and is
    at least as long as the pattern requires. *)
Lemma exec_bounds re s i m :
  exec re s i = Some m ->
  i <= m_index m /\ m_index m + minLen re <= m_end m /\ m_end m <= length s.
Proof.
  unfold exec. destruct (length s <? i) eqn:Ei; [discriminate|].
  apply Nat.ltb_ge in Ei. intros H.
  apply search_Some in H as (u & r' & st' & tl & Hs & Hm & ->). simpl.
  assert (Hin : In st' (rmatch re (MState (rev u ++ rev (take i s)) r' [])))
    by (rewrite Hm; now left).
  apply rmatch_reaches in Hin as (w & Hw & Lw).
  pose proof (reaches_index _ _ _ Hw) as Hi. unfold index in Hi at 2.
  simpl in Hi. destruct Hw as [_ Hr]. simpl in Hr.
  assert (Hlen : length s = i + (length u + (length w + length (rest st')))).
  { rewrite <- (take_drop i s) at 1.
    rewrite Hs, Hr, !length_app, length_take. lia. }
  rewrite length_app, !length_rev, length_take in *. lia.
Qed.

(** With a pattern that cannot match the empty string, the loop over the
    matches ends before its fuel does: more fuel finds no more matches. *)
Lemma execLoop_fuel re s :
  0 < minLen re ->
  forall fuel fuel' i,
    length s < i + fuel -> length s < i + fuel' ->
    execLoop fuel re s i = execLoop fuel' re s i.
Proof.
  intros Hmin. induction fuel as [|fuel IH]; intros fuel' i H1 H2.
  - assert (E : exec re s i = None).
    { unfold exec. destruct (length s <? i) eqn:Ei; [reflexivity|].
      apply Nat.ltb_ge in Ei. lia. }
    destruct fuel'; simpl; [reflexivity|now rewrite E].
  - simpl. destruct (exec re s i) as [m|] eqn:E.
    + pose proof (exec_bounds _ _ _ _ E) as (B1 & B2 & B3).
      destruct fuel' as [|fuel']; [lia|]. simpl. rewrite E. f_equal.
      apply IH; lia.
    + destruct fuel'; simpl; [reflexivity|now rewrite E].
Qed.

Lemma execAll_fuel re s fuel :
  0 < minLen re -> length s < fuel -> execLoop fuel re s 0 = execAll re s.
Proof.
  intros Hmin Hf. unfold execAll. apply execLoop_fuel; [assumption|lia..].
Qed.

(** None of the four global patterns of [checkNaming] matches the empty
    string, so each of its loops visits every match of its pattern. *)
Lemma global_patterns_progress :
  0 < minLen contractPattern /\ 0 < minLen functionPattern
  /\ 0 < minLen eventPattern /\ 0 < minLen constantPattern.
Proof. cbv. repeat split; lia. Qed.

(* ===================================================================== *)
(** ** The path of an import *)
(* ===================================================================== *)

Lemma rmatch_Seq a b st st' :
  In st' (rmatch (Seq a b) st)
  <-> exists mid, In mid (rmatch a st) /\ In st' (rmatch b mid).
Proof. simpl. apply in_flat_map. Qed.

(** A group that is followed by a pattern without groups holds the text
    that it matched. *)
Lemma group_captured n a b st st' :
  groupFree b = true ->
  In st' (rmatch (Seq (Group n a) b) st) ->
  exists x w, In x (rmatch a st) /\ reaches w st x
              /\ group n (caps st') = Some w /\ minLen a <= length w.
Proof.
  intros Hb H. apply rmatch_Seq in H as (mid & Ha & Hb').
  rewrite (rmatch_groupFree b mid st' Hb Hb').
  simpl in Ha. apply in_map_iff in Ha as (x & <- & Hx).
  destruct (rmatch_reaches _ _ _ Hx) as (w & Hw & Lw). exists x, w.
  split; [exact Hx|]. split; [exact Hw|]. split; [|exact Lw].
  simpl. rewrite Nat.eqb_refl. now rewrite (reaches_between w st x Hw).
Qed.

(** The path that [extractImportPath] returns is never the empty string,
    so that it is truthy whenever it is not null. *)
Lemma extractImportPath_nonempty l c : extractImportPath l = Some c -> c <> [].
Proof.
  unfold extractImportPath.
  destruct (exec importPathPattern l 0) as [m|] eqn:E; [|discriminate].
  intros [= <-]. unfold exec in E.
  destruct (length l <? 0); [discriminate|].
  apply search_Some in E as (u & r' & st' & tl & _ & Hm & ->).
  assert (Hin : In st' (rmatch importPathPattern
                          (MState (rev u ++ rev (take 0 l)) r' [])))
    by (rewrite Hm; now left).
  unfold importPathPattern, cat in Hin. simpl foldr in Hin.
  apply rmatch_Seq in Hin as (s1 & _ & Hin).
  apply rmatch_Seq in Hin as (s2 & _ & Hin).
  apply rmatch_Seq in Hin as (s3 & _ & Hin).
  apply group_captured in Hin as (x & w & _ & _ & Hg & Lw); [|reflexivity].
  unfold grp. simpl m_caps. rewrite Hg. simpl in *.
  destruct w; [simpl in Lw; lia|discriminate].
Qed.

(* ===================================================================== *)
(** ** The import pass *)
(* ===================================================================== *)

Lemma countRuleAt_le r n l : countRuleAt r n l <= countRule r l.
Proof.
  unfold countRuleAt, countRule, hasRuleAt, hasRule.
  induction l as [|i l IH]; simpl; [lia|].
  destruct (String.eqb (rule i) r); simpl; [|exact IH].
  destruct (line i =? n); simpl; lia.
Qed.

Lemma countRuleAt_other cat r n l :
  Forall (inCategory cat) l -> categoryOf r <> cat -> countRuleAt r n l = 0.
Proof.
  intros Hl Hr. pose proof (countRuleAt_le r n l) as H.
  rewrite (countRule_other cat r l Hl Hr) in H. lia.
Qed.

(** The findings of a rule of the imports category are those of
    [checkImports]. *)
Lemma count_imports_passes cfg c r :
  categoryOf r = "imports" ->
  countRule r (findings (passes cfg c))
  = countRule r (findings (checkImports cfg (path c) (text c)
                             (split LF (text c))))
  /\ forall n,
       countRuleAt r n (findings (passes cfg c))
       = countRuleAt r n (findings (checkImports cfg (path c) (text c)
                                      (split LF (text c)))).
Proof.
  intros Hr. rewrite findings_passes. split; [|intros n].
  - rewrite !countRule_app.
    rewrite (countRule_other "structure" r _
               (category_checkFileStructure _ _ _ _)),
      (countRule_other "naming" r _ (category_checkNaming _ _ _ _)),
      (countRule_other "layout" r _ (category_checkLayout _ _ _ _));
      try (rewrite Hr; discriminate). lia.
  - rewrite !countRuleAt_app.
    rewrite (countRuleAt_other "structure" r n _
               (category_checkFileStructure _ _ _ _)),
      (countRuleAt_other "naming" r n _ (category_checkNaming _ _ _ _)),
      (countRuleAt_other "layout" r n _ (category_checkLayout _ _ _ _));
      try (rewrite Hr; discriminate). lia.
Qed.

Lemma findings_checkImport rules p imps k imp :
  findings (checkImport rules p imps k imp)
  = findings (checkNamedImport rules p imp)
    ++ findings (checkAlphabetical rules p imps k imp).
Proof.
  unfold checkImport. apply findings_comp;
    [apply emitter_checkNamedImport|apply emitter_checkAlphabetical].
Qed.

Lemma findings_checkNamedImport rules p imp :
  findings (checkNamedImport rules p imp)
  = if truthy (namedOnly rules) && negb (test namedImportPattern (i_line imp))
    then [Issue p (i_lineNumber imp) "imports.namedOnly" namedImportMessage
            sevWarning]
    else [].
Proof.
  unfold checkNamedImport. destruct (truthy (namedOnly rules)); [|reflexivity].
  simpl. destruct (negb _); reflexivity.
Qed.

Lemma findings_checkAlphabetical rules p imps k imp :
  findings (checkAlphabetical rules p imps k imp)
  = if truthy (alphabetical rules) && (0 <? k)
       && inverted (nth (k - 1) imps imp) imp
    then [Issue p (i_lineNumber imp) "imports.alphabetical"
            (str "Imports should be alphabetically ordered") sevWarning]
    else [].
Proof.
  unfold checkAlphabetical, inverted.
  destruct (truthy (alphabetical rules) && (0 <? k)); [|reflexivity].
  simpl. destruct (outOfOrder _ _); reflexivity.
Qed.

Lemma checkImport_lines rules p imps k imp :
  Forall (fun i => line i = i_lineNumber imp)
    (findings (checkImport rules p imps k imp)).
Proof.
  rewrite findings_checkImport, findings_checkNamedImport,
    findings_checkAlphabetical.
  apply Forall_app. split.
  - destruct (_ && _); repeat constructor.
  - destruct (_ && _); repeat constructor.
Qed.

(** The line numbers of the imports increase. *)
Lemma collectImportsFrom_numbers k lines :
  Forall (fun imp => k < i_lineNumber imp) (collectImportsFrom k lines)
  /\ NoDup (map i_lineNumber (collectImportsFrom k lines)).
Proof.
  revert k. induction lines as [|l lines IH]; intros k;
    cbn [collectImportsFrom]; cbv zeta.
  - split; constructor.
  - destruct (IH (S k)) as [Hlt Hnd].
    assert (Hlt' : Forall (fun imp => k < i_lineNumber imp)
                     (collectImportsFrom (S k) lines)).
    { eapply List.Forall_impl; [|exact Hlt]. simpl. intros; lia. }
    destruct (startsWith (trim l) (str "import ")); [|now split].
    split.
    + constructor; [simpl; lia|exact Hlt'].
    + simpl. constructor; [|exact Hnd].
      intros Hin. apply list_elem_of_In, in_map_iff in Hin
        as (imp & Heq & Hin).
      pose proof (proj1 (List.Forall_forall _ _) Hlt imp Hin) as H.
      simpl in H. lia.
Qed.

Lemma countRuleAt_absent {A} (F : nat -> A -> list issue) (num : A -> nat)
    (l : list A) k r n :
  (forall k x, Forall (fun i => line i = num x) (F k x)) ->
  ~ In n (map num l) ->
  countRuleAt r n (flatMapFrom k F l) = 0.
Proof.
  intros HF. revert k. induction l as [|x l IH]; intros k Hn; simpl;
    [reflexivity|].
  rewrite countRuleAt_app, IH by (intros H; apply Hn; now right).
  rewrite Nat.add_0_r. unfold countRuleAt.
  assert (Hx : num x <> n) by (intros H; apply Hn; now left).
  specialize (HF k x). induction HF as [|i t Hi Ht IHt]; simpl; [reflexivity|].
  unfold hasRuleAt at 1. rewrite Hi.
  destruct (num x =? n) eqn:E; [apply Nat.eqb_eq in E; contradiction|].
  rewrite andb_false_r. exact IHt.
Qed.

(** The findings at the line of one element of an indexed loop are those
    of its iteration, when the iterations report at pairwise different
    lines. *)
Lemma countRuleAt_flatMapFrom {A} (F : nat -> A -> list issue)
    (num : A -> nat) (l : list A) k r j x :
  (forall k x, Forall (fun i => line i = num x) (F k x)) ->
  NoDup (map num l) ->
  l !! j = Some x ->
  countRuleAt r (num x) (flatMapFrom k F l)
  = countRuleAt r (num x) (F (k + j) x).
Proof.
  intros HF. revert k j. induction l as [|a l IH]; intros k j Hnd Hj;
    [discriminate|].
  simpl. rewrite countRuleAt_app. apply NoDup_cons in Hnd as [Ha Hnd].
  rewrite list_elem_of_In in Ha.
  destruct j as [|j]; simpl in Hj.
  - injection Hj as ->.
    rewrite (countRuleAt_absent F num l (S k) r (num x) HF Ha).
    now rewrite Nat.add_0_r, Nat.add_0_r.
  - rewrite (IH (S k) j Hnd Hj), Nat.add_succ_comm.
    assert (Hne : num a <> num x).
    { intros E. apply Ha. rewrite E. apply in_map.
      apply list_elem_of_In. eapply list_elem_of_lookup_2. exact Hj. }
    assert (E0 : countRuleAt r (num x) (F k a) = 0).
    { unfold countRuleAt. specialize (HF k a).
      induction HF as [|i t Hi Ht IHt]; simpl; [reflexivity|].
      unfold hasRuleAt at 1. rewrite Hi.
      destruct (num a =? num x) eqn:E;
        [apply Nat.eqb_eq in E; contradiction|].
      rewrite andb_false_r. exact IHt. }
    rewrite E0. reflexivity.
Qed.

Lemma inverted_pathLess prev cur : inverted prev cur = true <-> pathLess prev cur.
Proof.
  unfold inverted, pathLess, outOfOrder.
  destruct (extractImportPath (i_line cur)) as [c|] eqn:Ec.
  - destruct (extractImportPath (i_line prev)) as [p|] eqn:Ep.
    + pose proof (extractImportPath_nonempty _ _ Ec) as Hc.
      pose proof (extractImportPath_nonempty _ _ Ep) as Hp.
      destruct c; [contradiction|]. destruct p; [contradiction|].
      simpl truthy. rewrite !andb_true_l. split.
      * intros H. eauto.
      * intros (c' & p' & [= <-] & [= <-] & H). exact H.
    + split; [discriminate|]. intros (c' & p' & _ & H & _). discriminate.
  - split; [discriminate|]. intros (c' & p' & H & _). discriminate.
Qed.

Lemma count_alphabetical_from rules p imps :
  truthy (alphabetical rules) = true ->
  forall l d prev,
    imps = d ++ prev :: l ->
    countRule "imports.alphabetical"
      (flatMapFrom (S (length d))
         (fun k imp => findings (checkImport rules p imps k imp)) l)
    = inversionsFrom (Some prev) l.
Proof.
  intros Hon. induction l as [|cur l IH]; intros d prev Himps;
    cbn [flatMapFrom inversionsFrom]; [reflexivity|].
  rewrite countRule_app.
  replace (S (S (length d))) with (S (length (d ++ [prev])))
    by (rewrite length_app; simpl; lia).
  rewrite (IH (d ++ [prev]) cur)
    by (rewrite Himps, <- app_assoc; reflexivity).
  f_equal.
  rewrite findings_checkImport, countRule_app,
    findings_checkNamedImport, findings_checkAlphabetical, Hon.
  replace (nth (S (length d) - 1) imps cur) with prev.
  - destruct (truthy (namedOnly rules) && _); destruct (inverted prev cur);
      reflexivity.
  - rewrite Himps. simpl. rewrite Nat.sub_0_r. symmetry. apply nth_middle.
Qed.

Lemma inversionsFrom_descending l prev :
  (forall j a b, (prev :: l) !! j = Some a -> (prev :: l) !! S j = Some b ->
                 inverted a b = true) ->
  inversionsFrom (Some prev) l = length l.
Proof.
  revert prev. induction l as [|cur l IH]; intros prev H; simpl;
    [reflexivity|].
  rewrite (H 0 prev cur eq_refl eq_refl).
  rewrite IH; [reflexivity|].
  intros j a b Ha Hb. exact (H (S j) a b Ha Hb).
Qed.

Lemma count_alphabetical_at rules p imps k imp n :
  countRuleAt "imports.alphabetical" n
    (findings (checkImport rules p imps k imp))
  = if truthy (alphabetical rules) && (0 <? k)
       && inverted (nth (k - 1) imps imp) imp && (i_lineNumber imp =? n)
    then 1 else 0.
Proof.
  rewrite findings_checkImport, countRuleAt_app, findings_checkNamedImport,
    findings_checkAlphabetical.
  destruct (truthy (namedOnly rules) && _);
    destruct (truthy (alphabetical rules) && (0 <? k)
              && inverted (nth (k - 1) imps imp) imp);
    unfold countRuleAt, hasRuleAt; simpl;
    try destruct (i_lineNumber imp =? n); reflexivity.
Qed.

(* ===================================================================== *)
(** ** The matcher and the words of a pattern *)
(* ===================================================================== *)

Lemma rmatch_lang_sound r st st' :
  contextFree r = true -> In st' (rmatch r st) ->
  exists w, lang r w /\ reaches w st st'.
Proof.
  revert st st'. induction r; intros st st' Hc H; simpl in Hc;
    try discriminate.
  - destruct H as [<-|[]]. exists []. split; [reflexivity|apply reaches_nil].
  - apply lit_spec in H as [H _]. exists s. split; [reflexivity|assumption].
  - apply cls_spec in H as (c & Hk & H & _). exists [c].
    split; [exists c; now split|assumption].
  - apply andb_prop in Hc as [Hc1 Hc2].
    apply rmatch_Seq in H as (mid & H1 & H2).
    apply IHr1 in H1 as (u & Lu & Hu); [|assumption].
    apply IHr2 in H2 as (v & Lv & Hv); [|assumption].
    exists (u ++ v). split; [exists u, v; now repeat split|].
    now apply (reaches_app u v st mid).
  - apply andb_prop in Hc as [Hc1 Hc2]. simpl in H.
    apply in_app_iff in H as [H|H].
    + apply IHr1 in H as (w & Lw & Hw); [|assumption]. exists w.
      split; [now left|assumption].
    + apply IHr2 in H as (w & Lw & Hw); [|assumption]. exists w.
      split; [now right|assumption].
  - simpl in H. apply star_spec in H as (w & Hk & H & _). exists w.
    split; [exact Hk|destruct st; exact H].
  - apply plus_spec in H as (w & Hne & Hk & H & _). exists w.
    split; [now split|assumption].
  - simpl in H. apply starLazy_spec in H as (w & Hk & H & _). exists w.
    split; [exact Hk|destruct st; exact H].
  - simpl in H. apply in_app_iff in H as [H|[<-|[]]].
    + apply List.filter_In in H as [H _].
      apply IHr in H as (w & Lw & Hw); [|assumption]. exists w.
      split; [now right|assumption].
    + exists []. split; [now left|apply reaches_nil].
  - simpl in H. apply in_map_iff in H as (x & <- & H).
    apply IHr in H as (w & Lw & Hw); [|assumption]. exists w.
    split; [exact Lw|exact Hw].
Qed.

Lemma rmatch_lang_complete r w :
  contextFree r = true -> lang r w ->
  forall st r', rest st = w ++ r' ->
  exists cs, In (MState (rev w ++ pre st) r' cs) (rmatch r st).
Proof.
  revert w. induction r; intros w Hc Hl st r' Hr; simpl in Hc, Hl;
    try discriminate.
  - subst w. exists (caps st). left. symmetry. now apply mstate_eq.
  - subst w. exists (caps st). apply lit_spec. now repeat split.
  - destruct Hl as (c & -> & Hk). exists (caps st). apply cls_spec.
    exists c. now repeat split.
  - apply andb_prop in Hc as [Hc1 Hc2]. destruct Hl as (u & v & -> & Lu & Lv).
    rewrite <- app_assoc in Hr.
    destruct (IHr1 u Hc1 Lu st (v ++ r') Hr) as (cs1 & H1).
    destruct (IHr2 v Hc2 Lv (MState (rev u ++ pre st) (v ++ r') cs1) r'
                eq_refl) as (cs2 & H2).
    exists cs2. apply rmatch_Seq. eexists. split; [exact H1|].
    simpl in H2. now rewrite rev_app_distr, <- app_assoc.
  - apply andb_prop in Hc as [Hc1 Hc2]. destruct Hl as [Hl|Hl].
    + destruct (IHr1 w Hc1 Hl st r' Hr) as (cs & H). exists cs.
      simpl. apply in_app_iff. now left.
    + destruct (IHr2 w Hc2 Hl st r' Hr) as (cs & H). exists cs.
      simpl. apply in_app_iff. now right.
  - exists (caps st). simpl. apply star_spec. exists w.
    now repeat split.
  - destruct Hl as [Hne Hk]. exists (caps st). apply plus_spec. exists w.
    now repeat split.
  - exists (caps st). simpl. apply starLazy_spec. exists w.
    now repeat split.
  - assert (Hnil : w = [] ->
              exists cs, In (MState (rev w ++ pre st) r' cs)
                           (rmatch (Opt r) st)).
    { intros ->. exists (caps st). simpl. apply in_app_iff. right. left.
      symmetry. now apply mstate_eq. }
    destruct Hl as [Hl|Hl]; [now apply Hnil|].
    destruct w as [|c w]; [now apply Hnil|].
    destruct (IHr (c :: w) Hc Hl st r' Hr) as (cs & H). exists cs.
    simpl. apply in_app_iff. left. apply List.filter_In. split; [exact H|].
    unfold index. simpl. rewrite length_app, length_app. simpl.
    apply negb_true_iff, Nat.eqb_neq. lia.
  - destruct (IHr w Hc Hl st r' Hr) as (cs & H).
    eexists. simpl. apply in_map_iff. eexists. split; [|exact H].
    reflexivity.
Qed.

Lemma cat_app l1 l2 st st' :
  In st' (rmatch (cat (l1 ++ l2)) st)
  <-> exists mid, In mid (rmatch (cat l1) st) /\ In st' (rmatch (cat l2) mid).
Proof.
  revert st. induction l1 as [|a l1 IH]; intros st.
  - simpl. split.
    + intros H. exists st. split; [now left|exact H].
    + intros (mid & [<-|[]] & H). exact H.
  - change (cat ((a :: l1) ++ l2)) with (Seq a (cat (l1 ++ l2))).
    change (cat (a :: l1)) with (Seq a (cat l1)).
    rewrite rmatch_Seq. split.
    + intros (m1 & Ha & H). apply IH in H as (mid & H1 & H2).
      exists mid. split; [|exact H2]. apply rmatch_Seq. eauto.
    + intros (mid & H1 & H2). apply rmatch_Seq in H1 as (m1 & Ha & H1).
      exists m1. split; [exact Ha|]. apply IH. eauto.
Qed.

Lemma contextFree_cat l :
  forallb contextFree l = true -> contextFree (cat l) = true.
Proof.
  induction l as [|a l IH]; simpl; [reflexivity|].
  intros H. apply andb_prop in H as [Ha Hl]. now rewrite Ha, IH.
Qed.

Lemma search_first re p r st tl :
  rmatch re (MState p r []) = st :: tl ->
  search re p r = Some (MResult (length p) (index st) (caps st)).
Proof. intros H. destruct r; simpl; now rewrite H. Qed.

(** A pattern [^ ... $] whose parts are context free accepts the subjects
    that are words of its parts. *)
Theorem test_anchored l s :
  forallb contextFree l = true ->
  test (cat (Bol false :: l ++ [Eol false])) s = true <-> lang (cat l) s.
Proof.
  intros Hl. apply contextFree_cat in Hl.
  change (cat (Bol false :: l ++ [Eol false]))
    with (Seq (Bol false) (cat (l ++ [Eol false]))).
  assert (Hm : forall st',
            In st' (rmatch (Seq (Bol false) (cat (l ++ [Eol false])))
                      (MState [] s []))
            <-> In st' (rmatch (cat l) (MState [] s [])) /\ rest st' = []).
  { intros st'. rewrite rmatch_Seq. split.
    - intros (m0 & [<-|[]] & H). apply cat_app in H as (mid & H1 & H2).
      simpl in H2. unfold atLineEnd in H2.
      destruct (rest mid) eqn:E; simpl in H2.
      + destruct H2 as [<-|[]]. now split.
      + destruct H2.
    - intros [H E]. exists (MState [] s []). split; [now left|].
      apply cat_app. exists st'. split; [exact H|].
      simpl. unfold atLineEnd. rewrite E. now left. }
  unfold test, exec. change (length s <? 0) with false. cbv iota.
  change (take 0 s) with (@nil N). change (drop 0 s) with s. simpl rev.
  split.
  - intros H.
    destruct (search (Seq (Bol false) (cat (l ++ [Eol false]))) [] s)
      as [m|] eqn:E; [clear H|discriminate].
    apply search_Some in E as (u & r' & st' & tl & Hs & Hmatch & _).
    destruct u as [|c u].
    + simpl in Hs. change (rev [] ++ []) with (@nil N) in Hmatch. subst r'.
      assert (Hin : In st' (rmatch (Seq (Bol false) (cat (l ++ [Eol false])))
                               (MState [] s []))) by (rewrite Hmatch; now left).
      apply Hm in Hin as [Hin Hrest].
      apply rmatch_lang_sound in Hin as (w & Lw & [_ Hw]); [|assumption].
      simpl in Hw. rewrite Hrest, app_nil_r in Hw. now subst w.
    + exfalso. destruct (rev (c :: u) ++ []) as [|x p'] eqn:E.
      * apply (f_equal length) in E.
        rewrite length_app, length_rev in E. simpl in E. lia.
      * simpl in Hmatch. discriminate.
  - intros Hw.
    destruct (rmatch_lang_complete (cat l) s Hl Hw (MState [] s []) [])
      as (cs & Hin); [simpl; now rewrite app_nil_r|].
    assert (Hin' : In (MState (rev s ++ []) [] cs)
                     (rmatch (Seq (Bol false) (cat (l ++ [Eol false])))
                        (MState [] s []))) by (apply Hm; now split).
    destruct (rmatch (Seq (Bol false) (cat (l ++ [Eol false])))
                (MState [] s [])) as [|st tl] eqn:E; [destruct Hin'|].
    now rewrite (search_first _ _ _ _ _ E).
Qed.

(* ===================================================================== *)
(** ** The visibility of a function *)
(* ===================================================================== *)

(** The visibility that [checkNaming] resolves is one of the four
    keywords: the one found in the tail of the declaration, or internal. *)
Lemma resolveVisibility_cases mods :
  resolveVisibility mods = str "public"
  \/ resolveVisibility mods = str "external"
  \/ resolveVisibility mods = str "internal"
  \/ resolveVisibility mods = str "private".
Proof.
  unfold resolveVisibility.
  destruct (exec visibilityPattern mods 0) as [m|] eqn:E; [|auto].
  unfold exec in E. destruct (length mods <? 0); [discriminate|].
  apply search_Some in E as (u & r' & st' & tl & _ & Hm & ->).
  assert (Hin : In st' (rmatch visibilityPattern
                          (MState (rev u ++ rev (take 0 mods)) r' [])))
    by (rewrite Hm; now left).
  unfold visibilityPattern, cat in Hin. simpl foldr in Hin.
  apply rmatch_Seq in Hin as (s1 & _ & Hin).
  apply group_captured in Hin as (x & w & Hx & Hw & Hg & _); [|reflexivity].
  apply rmatch_lang_sound in Hx as (w' & Lw & Hw'); [|reflexivity].
  rewrite <- (reaches_between _ _ _ Hw), (reaches_between _ _ _ Hw') in Hg.
  unfold grp. simpl m_caps. rewrite Hg. simpl default.
  simpl in Lw. destruct Lw as [-> | [-> | [-> | ->]]]; auto.
Qed.

(* ===================================================================== *)
(** ** Named imports *)
(* ===================================================================== *)

Lemma collectImportsFrom_lookup k lines j l :
  lines !! j = Some l ->
  startsWith (trim l) (str "import ") = true ->
  exists idx,
    collectImportsFrom k lines !! idx = Some (ImportInfo (trim l) (k + j + 1)).
Proof.
  revert k j. induction lines as [|a lines IH]; intros k j Hj Hl;
    [discriminate|].
  cbn [collectImportsFrom]; cbv zeta. destruct j as [|j]; simpl in Hj.
  - injection Hj as ->. rewrite Hl. exists 0. now rewrite Nat.add_0_r.
  - destruct (IH (S k) j Hj Hl) as (idx & Hidx).
    replace (k + S j + 1) with (S k + j + 1) by lia.
    destruct (startsWith (trim a) (str "import "));
      [exists (S idx)|exists idx]; exact Hidx.
Qed.

Lemma collectImportsFrom_In k lines imp :
  In imp (collectImportsFrom k lines) ->
  exists j l,
    lines !! j = Some l /\ imp = ImportInfo (trim l) (k + j + 1)
    /\ startsWith (trim l) (str "import ") = true.
Proof.
  revert k. induction lines as [|a lines IH]; intros k;
    cbn [collectImportsFrom]; cbv zeta; [intros []|].
  assert (Hrest : In imp (collectImportsFrom (S k) lines) ->
            exists j l, (a :: lines) !! j = Some l
                        /\ imp = ImportInfo (trim l) (k + j + 1)
                        /\ startsWith (trim l) (str "import ") = true).
  { intros H. apply IH in H as (j & l & Hj & -> & Hl).
    exists (S j), l. repeat split; [exact Hj| |exact Hl].
    f_equal. lia. }
  destruct (startsWith (trim a) (str "import ")) eqn:Ha; [|exact Hrest].
  intros [<-|H]; [|now apply Hrest].
  exists 0, a. repeat split; [|exact Ha]. now rewrite Nat.add_0_r.
Qed.

Lemma count_named_at rules p imps k imp n :
  countRuleAt "imports.namedOnly" n
    (findings (checkImport rules p imps k imp))
  = if truthy (namedOnly rules) && negb (test namedImportPattern (i_line imp))
       && (i_lineNumber imp =? n)
    then 1 else 0.
Proof.
  rewrite findings_checkImport, countRuleAt_app, findings_checkNamedImport,
    findings_checkAlphabetical.
  destruct (truthy (namedOnly rules)
            && negb (test namedImportPattern (i_line imp)));
    destruct (truthy (alphabetical rules) && (0 <? k)
              && inverted (nth (k - 1) imps imp) imp);
    unfold countRuleAt, hasRuleAt; simpl;
    try destruct (i_lineNumber imp =? n); reflexivity.
Qed.

(** The subjects that [namedImportPattern] accepts are the words of its
    parts. *)
Lemma namedImportPattern_lang (l : jsstring) :
  test namedImportPattern l = true <-> lang (cat namedImportParts) l.
Proof. unfold namedImportPattern. now apply test_anchored. Qed.

(** C5, as the code has it.  With the named-only rule enabled, a line
    whose trimmed text starts with the keyword import and a space gets
    one [imports.namedOnly] finding at its line when the trimmed text is
    not a word of the pattern of the code (the keyword, braces that hold
    one or more code units other than the closing brace, the word from, a
    path of one or more code units other than a quote between two quotes,
    and an optional semicolon, with blanks between them), and none when
    it is; any other line gets none. *)
Theorem named_import_findings (cfg : config) (rules : imports_rules)
    (c : contract) (j : nat) (l : jsstring) :
  imports (RULES cfg) = Some rules ->
  truthy (namedOnly rules) = true ->
  split LF (text c) !! j = Some l ->
  let L := findings (passes cfg c) in
  (startsWith (trim l) (str "import ") = true ->
   countRuleAt "imports.namedOnly" (j + 1) L
   = (if test namedImportPattern (trim l) then 0 else 1)
   /\ (test namedImportPattern (trim l) = true
       <-> lang (cat namedImportParts) (trim l)))
  /\ (startsWith (trim l) (str "import ") = false ->
      countRuleAt "imports.namedOnly" (j + 1) L = 0).
Proof.
  intros Hrules Hon Hj L.
  destruct (count_imports_passes cfg c "imports.namedOnly" eq_refl)
    as [_ Hat].
  fold L in Hat. unfold checkImports in Hat. rewrite Hrules in Hat.
  cbv zeta in Hat.
  rewrite findings_forEachIndexed in Hat
    by (intros; apply emitter_checkImport).
  set (imps := collectImports (split LF (text c))) in *.
  assert (Hlines : forall k x,
            Forall (fun i => line i = i_lineNumber x)
              (findings (checkImport rules (path c) imps k x)))
    by (intros; apply checkImport_lines).
  assert (Hnd : NoDup (map i_lineNumber imps))
    by apply (collectImportsFrom_numbers 0).
  split.
  - intros Hl. split; [|apply namedImportPattern_lang].
    destruct (collectImportsFrom_lookup 0 _ j l Hj Hl) as (idx & Hidx).
    fold (collectImports (split LF (text c))) in Hidx. fold imps in Hidx.
    rewrite Hat.
    pose proof (countRuleAt_flatMapFrom _ i_lineNumber imps 0
                  "imports.namedOnly" idx _ Hlines Hnd Hidx) as Hc.
    simpl i_lineNumber in Hc. rewrite Hc, count_named_at, Hon.
    simpl. rewrite Nat.eqb_refl, andb_true_r.
    destruct (test namedImportPattern (trim l)); reflexivity.
  - intros Hl. rewrite Hat.
    apply (countRuleAt_absent _ i_lineNumber); [exact Hlines|].
    intros Hin. apply in_map_iff in Hin as (imp & Hnum & Hin).
    apply collectImportsFrom_In in Hin as (j' & l' & Hj' & -> & Hl').
    simpl in Hnum. assert (j' = j) by lia. subst j'.
    rewrite Hj in Hj'. injection Hj' as <-. congruence.
Qed.

(** An unnamed and a named import, with the configuration of
    [build-config.js]. *)
Lemma named_import_findings_witness :
  countRuleAt "imports.namedOnly" 2
    (findings (passes buildConfig unorderedImportsFile)) = 1
  /\ countRuleAt "imports.namedOnly" 1
       (findings (passes buildConfig unorderedImportsFile)) = 0.
Proof.
  split.
  - exact (proj1 (proj1 (named_import_findings buildConfig
                           (ImportsRules (VBool true) (VBool true))
                           unorderedImportsFile 1
                           (str "import A from './a.sol';")
                           eq_refl eq_refl eq_refl) eq_refl)).
  - exact (proj1 (proj1 (named_import_findings buildConfig
                           (ImportsRules (VBool true) (VBool true))
                           unorderedImportsFile 0
                           (str "import {B} from './b.sol';")
                           eq_refl eq_refl eq_refl) eq_refl)).
Defined.

(** The grammar of the specification accepts the named imports of one
    and of several names. *)
Lemma specNamedImportGrammar_accepts :
  specNamedImportGrammar (str "import {B} from './b.sol';") = true
  /\ specNamedImportGrammar (str "import {A, B} from './ab.sol'") = true
  /\ specNamedImportGrammar (str "import './b.sol';") = false.
Proof. vm_compute. repeat split. Qed.

(** C5, as stated, fails: the braces of the line hold an operator, not
    identifier names, and the line gets no finding. *)
Lemma named_import_accepts_non_identifiers :
  imports (RULES buildConfig) = Some (ImportsRules (VBool true) (VBool true))
  /\ startsWith (text operatorImportFile) (str "import") = true
  /\ specNamedImportGrammar (text operatorImportFile) = false
  /\ countRule "imports.namedOnly"
       (findings (passes buildConfig operatorImportFile)) = 0.
Proof. vm_compute. repeat split. Qed.

(* ===================================================================== *)
(** ** The scenarios of the specification *)
(* ===================================================================== *)

(** A license on the first line and a pragma on the second: no finding of
    the structure category. *)
Example scenario_license_first :
  findings (checkFileStructure buildConfig (path licensedFile)
              (text licensedFile) (split LF (text licensedFile))) = [].
Proof. vm_compute. reflexivity. Qed.

(** [contract myToken { }] gets one [naming.contracts] finding, at line 1,
    and [contract MyToken { }] none. *)
Example scenario_contract_name :
  List.filter (hasRule "naming.contracts")
    (findings (passes buildConfig lowerContractFile))
  = [Issue (str "Example.sol") 1 "naming.contracts"
       (str "Contract name 'myToken' should use CapWords style") sevError]
  /\ countRule "naming.contracts"
       (findings (passes buildConfig capContractFile)) = 0.
Proof. vm_compute. split; reflexivity. Qed.

(** A line of 130 code units with [maxLineLength: 120] gets one
    [layout.maxLineLength] finding, whose message has both numbers. *)
Example scenario_long_line :
  List.filter (hasRule "layout.maxLineLength")
    (findings (passes buildConfig longLineFile))
  = [Issue (str "Example.sol") 1 "layout.maxLineLength"
       (str "Line length 130 exceeds maximum 120") sevWarning].
Proof. vm_compute. reflexivity. Qed.

(* ===================================================================== *)
(** ** The statistics of a run *)
(* ===================================================================== *)

Lemma countSeverity_cons sev i l :
  countSeverity sev (i :: l)
  = (if isStr (severity i) sev then 1 else 0) + countSeverity sev l.
Proof.
  unfold countSeverity. simpl. unfold hasSeverity at 1.
  destruct (isStr (severity i) sev); reflexivity.
Qed.

Lemma stats_emitAll l s :
  stats (emitAll l s)
  = Stats (files (stats s))
      (errors (stats s) + countSeverity "error" l)
      (warnings (stats s) + countSeverity "warning" l)
      (info (stats s) + countSeverity "info" l)
      (passed (stats s)).
Proof.
  revert s. induction l as [|i l IH]; intros s.
  - simpl. unfold countSeverity. simpl. rewrite !Nat.add_0_r.
    now destruct (stats s).
  - change (emitAll (i :: l) s) with (emitAll l (emit i s)). rewrite IH.
    rewrite !countSeverity_cons. unfold emit, addIssue.
    destruct (severity_cases (severity i)) as [H|[H|[H|H]]];
      destruct H as (He & Hw & Hi); rewrite ?He, ?Hw, ?Hi; simpl;
      f_equal; lia.
Qed.

(** After [main], [stats.files] has grown by the number of contracts
    checked and each severity counter by the number of findings of its
    severity that the run emitted; [stats.passed] is never updated. *)
Theorem stats_after_main (cfg : config) (found : list contract) (s : state) :
  stats (fst (main cfg found s))
  = Stats (files (stats s) + length found)
      (errors (stats s) + countSeverity "error" (runFindings cfg found))
      (warnings (stats s) + countSeverity "warning" (runFindings cfg found))
      (info (stats s) + countSeverity "info" (runFindings cfg found))
      (passed (stats s)).
Proof.
  simpl. revert s. induction found as [|c found IH]; intros s.
  - simpl. unfold runFindings, countSeverity. simpl. rewrite !Nat.add_0_r.
    now destruct (stats s).
  - change (forEach (checkFile cfg) (c :: found) s)
      with (forEach (checkFile cfg) found (checkFile cfg c s)).
    rewrite IH, checkFile_passes, (emitter_passes cfg c), stats_emitAll.
    unfold runFindings. simpl flat_map. rewrite !countSeverity_app.
    simpl. f_equal; lia.
Qed.

(* ===================================================================== *)
(** ** The place of a finding *)
(* ===================================================================== *)

Lemma split_length sep s :
  length (split sep s) = S (length (List.filter (fun c => (c =? sep)%N) s)).
Proof.
  induction s as [|c s IH]; simpl; [reflexivity|].
  destruct (c =? sep)%N; simpl; [now rewrite IH|].
  destruct (split sep s) as [|l ls]; simpl in *; [discriminate|exact IH].
Qed.

Lemma filter_take_le {A} (f : A -> bool) n (l : list A) :
  length (List.filter f (take n l)) <= length (List.filter f l).
Proof.
  revert n. induction l as [|x l IH]; intros [|n]; simpl; try lia.
  specialize (IH n). destruct (f x); simpl; lia.
Qed.

(** The line number of an offset lies within the lines of the content. *)
Lemma lineNumberAt_bounds content idx :
  1 <= lineNumberAt content idx <= length (split LF content).
Proof.
  unfold lineNumberAt. rewrite !split_length.
  pose proof (filter_take_le (fun c => (c =? LF)%N) idx content). lia.
Qed.

Lemma findIndex_lt {A} (p : A -> bool) (l : list A) i :
  findIndex p l = Some i -> i < length l.
Proof.
  revert i. induction l as [|x l IH]; intros i; simpl; [discriminate|].
  destruct (p x); [intros [= <-]; lia|].
  destruct (findIndex p l) as [j|]; [|discriminate].
  intros [= <-]. specialize (IH j eq_refl). lia.
Qed.

Lemma Forall_flatMapFrom_lookup {A} (P : issue -> Prop)
    (F : nat -> A -> list issue) (l : list A) k :
  (forall j x, l !! j = Some x -> Forall P (F (k + j) x)) ->
  Forall P (flatMapFrom k F l).
Proof.
  revert k. induction l as [|a l IH]; intros k H; simpl; [constructor|].
  apply Forall_app. split.
  - specialize (H 0 a eq_refl). now rewrite Nat.add_0_r in H.
  - apply IH. intros j x Hj. specialize (H (S j) x Hj).
    now rewrite Nat.add_succ_comm.
Qed.

(** The findings of a cascade of tests, each at a place in the file. *)
Ltac located_cases :=
  repeat match goal with
         | |- context [if ?b then _ else _] => destruct b
         | |- context [match ?o with Some _ => _ | None => _ end] => destruct o
         end;
  try (cbv [findings]; simpl issues;
       repeat (constructor; [split; [reflexivity|simpl; lia]|]);
       constructor).

Lemma located_checkFileStructure cfg p content lines :
  0 < length lines ->
  Forall (located p (length lines))
    (findings (checkFileStructure cfg p content lines)).
Proof.
  intros Hn. unfold checkFileStructure.
  destruct (structure (RULES cfg)); [|constructor].
  apply Forall_findings_comp;
    auto using emitter_checkSpdx, emitter_checkPragma.
  - unfold checkSpdx. located_cases.
  - unfold checkPragma. destruct (truthy _); [|constructor].
    destruct (findIndex _ lines) as [i|] eqn:E; [|constructor].
    apply findIndex_lt in E. located_cases.
Qed.

Lemma located_checkImports cfg p content lines :
  Forall (located p (length lines))
    (findings (checkImports cfg p content lines)).
Proof.
  unfold checkImports. destruct (imports (RULES cfg)) as [rules|];
    [|constructor].
  rewrite findings_forEachIndexed by (intros; apply emitter_checkImport).
  apply Forall_flatMapFrom_lookup. intros j imp Hj.
  assert (Hin : In imp (collectImports lines)).
  { apply list_elem_of_In. eapply list_elem_of_lookup_2. exact Hj. }
  apply collectImportsFrom_In in Hin as (k & l & Hk & -> & _).
  apply lookup_lt_Some in Hk.
  rewrite findings_checkImport, findings_checkNamedImport,
    findings_checkAlphabetical.
  apply Forall_app. split; destruct (_ && _); located_cases.
Qed.

Lemma located_checkNaming cfg p content lines :
  Forall (located p (length (split LF content)))
    (findings (checkNaming cfg p content lines)).
Proof.
  assert (B : forall idx,
            1 <= lineNumberAt content idx <= length (split LF content))
    by apply lineNumberAt_bounds.
  unfold checkNaming. destruct (naming (RULES cfg)); [|constructor].
  apply Forall_findings_comp;
    [apply emitter_comp; [apply emitter_comp|]| | |];
    auto using emitter_checkContracts, emitter_checkFunctions,
      emitter_checkEvents, emitter_checkConstants.
  - apply Forall_findings_comp; [apply emitter_comp| | |];
      auto using emitter_checkContracts, emitter_checkFunctions,
        emitter_checkEvents.
    + apply Forall_findings_comp;
        auto using emitter_checkContracts, emitter_checkFunctions.
      * unfold checkContracts. destruct (truthy _); [|constructor].
        apply Forall_findings_forEach;
          [intros; apply emitter_checkContract|].
        intros x. specialize (B (m_index x)). unfold checkContract.
        located_cases.
      * unfold checkFunctions. destruct (_ || _); [|constructor].
        apply Forall_findings_forEach;
          [intros; apply emitter_checkFunction|].
        intros x. specialize (B (m_index x)). unfold checkFunction.
        destruct (memStr _ _); [constructor|].
        apply Forall_findings_comp; [apply emitter_comp| | |];
          auto using emitter_checkPrivateInternalName,
            emitter_checkFunctionName, emitter_checkArguments.
        -- apply Forall_findings_comp;
             auto using emitter_checkPrivateInternalName,
               emitter_checkFunctionName.
           ++ unfold checkPrivateInternalName. located_cases.
           ++ unfold checkFunctionName. located_cases.
        -- unfold checkArguments. destruct (_ && _); [|constructor].
           apply Forall_findings_forEach;
             [intros; apply emitter_checkArgument|].
           intros a. unfold checkArgument. located_cases.
    + unfold checkEvents. destruct (truthy _); [|constructor].
      apply Forall_findings_forEach; [intros; apply emitter_checkEvent|].
      intros x. specialize (B (m_index x)). unfold checkEvent.
      apply Forall_findings_comp;
        auto using emitter_checkEventCapWords, emitter_checkEventPastTense.
      * unfold checkEventCapWords. located_cases.
      * unfold checkEventPastTense. located_cases.
  - unfold checkConstants. destruct (truthy _); [|constructor].
    apply Forall_findings_forEach; [intros; apply emitter_checkConstant|].
    intros x. specialize (B (m_index x)). unfold checkConstant.
    located_cases.
Qed.

Lemma located_checkLayout cfg p content lines :
  Forall (located p (length lines))
    (findings (checkLayout cfg p content lines)).
Proof.
  unfold checkLayout. destruct (layout (RULES cfg)) as [rules|];
    [|constructor].
  rewrite findings_forEachIndexed by (intros; apply emitter_checkLine).
  apply Forall_flatMapFrom_lookup. intros j l Hj.
  apply lookup_lt_Some in Hj. rewrite findings_checkLine.
  apply Forall_app. split; [|apply Forall_app; split].
  - unfold checkLineLength. located_cases.
  - unfold checkTabs. located_cases.
  - unfold checkTrailingWhitespace. located_cases.
Qed.

(** Every finding of a file carries the path of the file and the number
    of one of its lines: at least 1 and at most the number of lines. *)
Theorem findings_well_located (cfg : config) (c : contract) :
  Forall (located (path c) (length (split LF (text c))))
    (findings (passes cfg c)).
Proof.
  rewrite findings_passes. repeat (apply Forall_app; split).
  - apply located_checkFileStructure.
    pose proof (split_nonempty LF (text c)).
    destruct (split LF (text c)); [contradiction|simpl; lia].
  - apply located_checkImports.
  - apply located_checkNaming.
  - apply located_checkLayout.
Qed.

(* ===================================================================== *)
(** ** The severity of a finding *)
(* ===================================================================== *)

Lemma severity_checkFileStructure cfg p content lines :
  Forall (fun i => severity i = severityTable cfg (rule i))
    (findings (checkFileStructure cfg p content lines)).
Proof.
  unfold checkFileStructure. destruct (structure (RULES cfg)); [|constructor].
  apply Forall_findings_comp;
    auto using emitter_checkSpdx, emitter_checkPragma.
  - unfold checkSpdx. findings_cases.
  - unfold checkPragma. findings_cases.
Qed.

Lemma severity_checkImports cfg p content lines :
  Forall (fun i => severity i = severityTable cfg (rule i))
    (findings (checkImports cfg p content lines)).
Proof.
  unfold checkImports. destruct (imports (RULES cfg)); [|constructor].
  apply Forall_findings_forEachIndexed;
    [intros; apply emitter_checkImport|].
  intros k x. unfold checkImport. apply Forall_findings_comp;
    auto using emitter_checkNamedImport, emitter_checkAlphabetical.
  - unfold checkNamedImport. findings_cases.
  - unfold checkAlphabetical. findings_cases.
Qed.

Lemma severity_checkFunction cfg rules p content m :
  Forall (fun i => severity i = severityTable cfg (rule i))
    (findings (checkFunction cfg rules p content m)).
Proof.
  unfold checkFunction. destruct (memStr _ _); [constructor|].
  apply Forall_findings_comp; [apply emitter_comp| | |];
    auto using emitter_checkPrivateInternalName, emitter_checkFunctionName,
      emitter_checkArguments.
  - apply Forall_findings_comp;
      auto using emitter_checkPrivateInternalName, emitter_checkFunctionName.
    + unfold checkPrivateInternalName. findings_cases.
    + unfold checkFunctionName. findings_cases.
  - unfold checkArguments. destruct (_ && _); [|constructor].
    apply Forall_findings_forEach; [intros; apply emitter_checkArgument|].
    intros x. unfold checkArgument. findings_cases.
Qed.

Lemma severity_checkNaming cfg p content lines :
  Forall (fun i => severity i = severityTable cfg (rule i))
    (findings (checkNaming cfg p content lines)).
Proof.
  unfold checkNaming. destruct (naming (RULES cfg)); [|constructor].
  apply Forall_findings_comp;
    [apply emitter_comp; [apply emitter_comp|]| | |];
    auto using emitter_checkContracts, emitter_checkFunctions,
      emitter_checkEvents, emitter_checkConstants.
  - apply Forall_findings_comp; [apply emitter_comp| | |];
      auto using emitter_checkContracts, emitter_checkFunctions,
        emitter_checkEvents.
    + apply Forall_findings_comp;
        auto using emitter_checkContracts, emitter_checkFunctions.
      * unfold checkContracts. destruct (truthy _); [|constructor].
        apply Forall_findings_forEach;
          [intros; apply emitter_checkContract|].
        intros x. unfold checkContract. findings_cases.
      * unfold checkFunctions. destruct (_ || _); [|constructor].
        apply Forall_findings_forEach;
          [intros; apply emitter_checkFunction|].
        intros x. apply severity_checkFunction.
    + unfold checkEvents. destruct (truthy _); [|constructor].
      apply Forall_findings_forEach; [intros; apply emitter_checkEvent|].
      intros x. unfold checkEvent. apply Forall_findings_comp;
        auto using emitter_checkEventCapWords, emitter_checkEventPastTense.
      * unfold checkEventCapWords. findings_cases.
      * unfold checkEventPastTense. findings_cases.
  - unfold checkConstants. destruct (truthy _); [|constructor].
    apply Forall_findings_forEach; [intros; apply emitter_checkConstant|].
    intros x. unfold checkConstant. findings_cases.
Qed.

Lemma severity_checkLayout cfg p content lines :
  Forall (fun i => severity i = severityTable cfg (rule i))
    (findings (checkLayout cfg p content lines)).
Proof.
  unfold checkLayout. destruct (layout (RULES cfg)); [|constructor].
  apply Forall_findings_forEachIndexed; [intros; apply emitter_checkLine|].
  intros k x. unfold checkLine.
  apply Forall_findings_comp; [apply emitter_comp| | |];
    auto using emitter_checkLineLength, emitter_checkTabs,
      emitter_checkTrailingWhitespace.
  - apply Forall_findings_comp;
      auto using emitter_checkLineLength, emitter_checkTabs.
    + unfold checkLineLength. findings_cases.
    + unfold checkTabs. findings_cases.
  - unfold checkTrailingWhitespace. findings_cases.
Qed.

(** The severity of every finding is the one that [severityTable] gives to
    its rule: the truthy entry of [RULE_SEVERITY], or else error, for
    [structure.spdxLicense], [naming.contracts] and [naming.functions];
    the truthy entry, or else warning, for [layout.maxLineLength]; and for
    every other rule a constant that no configuration changes. *)
Theorem finding_severity (cfg : config) (c : contract) :
  Forall (fun i => severity i = severityTable cfg (rule i))
    (findings (passes cfg c)).
Proof.
  rewrite findings_passes. repeat (apply Forall_app; split).
  - apply severity_checkFileStructure.
  - apply severity_checkImports.
  - apply severity_checkNaming.
  - apply severity_checkLayout.
Qed.

Lemma severityOf_valid cfg r dflt :
  In r overridableRules -> validOverrides cfg = true ->
  validValue (VStr (str dflt)) = true ->
  validValue (severityOf cfg r dflt) = true.
Proof.
  intros Hr Hv Hd. unfold validOverrides in Hv.
  rewrite forallb_forall in Hv. specialize (Hv r Hr).
  unfold severityOf, orElse.
  destruct (RULE_SEVERITY cfg !! r) as [v|]; simpl default.
  - destruct (truthy v); [exact Hv|exact Hd].
  - exact Hd.
Qed.

Lemma severityTable_valid cfg r :
  validOverrides cfg = true -> validValue (severityTable cfg r) = true.
Proof.
  intros Hv. unfold severityTable.
  repeat match goal with
         | |- context [String.eqb r ?lit] =>
             destruct (String.eqb r lit) eqn:?
         end; try reflexivity;
    match goal with
    | H : String.eqb r _ = true |- _ => apply String.eqb_eq in H; subst r
    end;
    apply severityOf_valid; try assumption; try reflexivity;
    unfold overridableRules; simpl; auto.
Qed.

(** When every entry of [RULE_SEVERITY] for one of the four overridable
    rules is absent, falsy or one of error, warning and info, every
    finding of a run has one of these three severities, and after the run
    the number of issues is the sum of the three counters. *)
Theorem valid_overrides_valid_severities (cfg : config)
    (found : list contract) :
  validOverrides cfg = true ->
  forallb validSeverity (runFindings cfg found) = true
  /\ balanced (fst (run cfg found)).
Proof.
  intros Hv.
  assert (Hall : forallb validSeverity (runFindings cfg found) = true).
  { apply forallb_forall. intros i Hi. unfold runFindings in Hi.
    apply in_flat_map in Hi as (c & _ & Hi).
    pose proof (proj1 (List.Forall_forall _ _) (finding_severity cfg c) i Hi)
      as Hs. cbv beta in Hs.
    unfold validSeverity, hasSeverity. rewrite Hs.
    exact (severityTable_valid cfg (rule i) Hv). }
  split; [exact Hall|].
  unfold run. simpl. clear Hv. revert Hall.
  assert (Hb : balanced initial) by reflexivity. revert Hb.
  generalize initial. induction found as [|c found IH]; intros s Hs Hall.
  - exact Hs.
  - unfold runFindings in Hall. simpl in Hall. rewrite forallb_app in Hall.
    apply andb_prop in Hall as [Hc Hf].
    apply (IH (checkFile cfg c s)); [|exact Hf].
    now apply balanced_checkFile.
Qed.

Lemma valid_overrides_valid_severities_witness :
  forallb validSeverity
    (runFindings buildConfig [privateFunctionFile; unorderedImportsFile])
  = true
  /\ balanced (fst (run buildConfig
                      [privateFunctionFile; unorderedImportsFile])).
Proof.
  apply (valid_overrides_valid_severities buildConfig
           [privateFunctionFile; unorderedImportsFile]).
  reflexivity.
Defined.

(* ===================================================================== *)
(** ** The layout findings of a line *)
(* ===================================================================== *)

Lemma filter_line_none {A} (F : nat -> A -> list issue) (l : list A) k n :
  (forall k x, Forall (fun i => line i = k + 1) (F k x)) ->
  n < k + 1 ->
  List.filter (fun i => line i =? n) (flatMapFrom k F l) = [].
Proof.
  intros HF. revert k. induction l as [|a l IH]; intros k Hn; simpl;
    [reflexivity|].
  rewrite List.filter_app, IH by lia. rewrite app_nil_r.
  specialize (HF k a). induction HF as [|i t Hi Ht IHt]; simpl;
    [reflexivity|].
  rewrite Hi. destruct (k + 1 =? n) eqn:E;
    [apply Nat.eqb_eq in E; lia|exact IHt].
Qed.

Lemma filter_line_all (t : list issue) n :
  Forall (fun i => line i = n) t ->
  List.filter (fun i => line i =? n) t = t.
Proof.
  induction 1 as [|i t Hi Ht IH]; simpl; [reflexivity|].
  now rewrite Hi, Nat.eqb_refl, IH.
Qed.

Lemma filter_line_other (t : list issue) n n' :
  n <> n' -> Forall (fun i => line i = n) t ->
  List.filter (fun i => line i =? n') t = [].
Proof.
  intros Hn. induction 1 as [|i t Hi Ht IH]; simpl; [reflexivity|].
  rewrite Hi. destruct (n =? n') eqn:E;
    [apply Nat.eqb_eq in E; contradiction|exact IH].
Qed.

(** In a loop whose iteration [k] reports at line [k + 1], the findings
    at a line are those of its iteration. *)
Lemma filter_line_flatMapFrom {A} (F : nat -> A -> list issue) (l : list A)
    k j x :
  (forall k x, Forall (fun i => line i = k + 1) (F k x)) ->
  l !! j = Some x ->
  List.filter (fun i => line i =? k + j + 1) (flatMapFrom k F l)
  = F (k + j) x.
Proof.
  intros HF. revert k j. induction l as [|a l IH]; intros k j Hj;
    [discriminate|].
  simpl. rewrite List.filter_app. destruct j as [|j]; simpl in Hj.
  - injection Hj as ->. rewrite Nat.add_0_r.
    rewrite (filter_line_all _ _ (HF k x)).
    rewrite (filter_line_none F l (S k) (k + 1) HF) by lia.
    apply app_nil_r.
  - rewrite (filter_line_other _ (k + 1) (k + S j + 1)) by (lia || apply HF).
    replace (k + S j + 1) with (S k + j + 1) by lia.
    rewrite (IH (S k) j Hj). simpl. f_equal. lia.
Qed.

Lemma checkLine_lines cfg rules p k l :
  Forall (fun i => line i = k + 1) (findings (checkLine cfg rules p k l)).
Proof.
  rewrite findings_checkLine. repeat (apply Forall_app; split).
  - unfold checkLineLength. findings_cases.
  - unfold checkTabs. findings_cases.
  - unfold checkTrailingWhitespace. findings_cases.
Qed.

(** The findings of the layout pass at the line of index [k] are those of
    the three checks of that line, in the order line length, tabs,
    trailing whitespace: at most three. *)
Theorem layout_findings_of_line (cfg : config) (rules : layout_rules)
    (p content : jsstring) (lines : list jsstring) (k : nat) (l : jsstring) :
  layout (RULES cfg) = Some rules ->
  lines !! k = Some l ->
  List.filter (fun i => line i =? k + 1)
    (findings (checkLayout cfg p content lines))
  = findings (checkLineLength cfg rules p (k + 1) l)
    ++ findings (checkTabs rules p (k + 1) l)
    ++ findings (checkTrailingWhitespace rules p (k + 1) l)
  /\ length (List.filter (fun i => line i =? k + 1)
               (findings (checkLayout cfg p content lines))) <= 3.
Proof.
  intros Hlay Hk. unfold checkLayout. rewrite Hlay.
  rewrite findings_forEachIndexed by (intros; apply emitter_checkLine).
  pose proof (filter_line_flatMapFrom
                (fun k x => findings (checkLine cfg rules p k x)) lines 0 k l
                (checkLine_lines cfg rules p) Hk) as H.
  simpl in H. rewrite H, findings_checkLine. split; [reflexivity|].
  rewrite !length_app.
  assert (H1 : length (findings (checkLineLength cfg rules p (k + 1) l)) <= 1)
    by (unfold checkLineLength;
        repeat match goal with
               | |- context [if ?b then _ else _] => destruct b
               | |- context [match ?o with Some _ => _ | None => _ end] =>
                   destruct o
               end; cbv [findings]; simpl; lia).
  assert (H2 : length (findings (checkTabs rules p (k + 1) l)) <= 1)
    by (unfold checkTabs;
        repeat match goal with
               | |- context [if ?b then _ else _] => destruct b
               end; cbv [findings]; simpl; lia).
  assert (H3 : length (findings (checkTrailingWhitespace rules p (k + 1) l))
               <= 1)
    by (unfold checkTrailingWhitespace;
        repeat match goal with
               | |- context [if ?b then _ else _] => destruct b
               end; cbv [findings]; simpl; lia).
  lia.
Qed.

Lemma layout_findings_of_line_witness :
  List.filter (fun i => line i =? 1)
    (findings (checkLayout buildConfig (path longLineFile)
                 (text longLineFile) (split LF (text longLineFile))))
  = [Issue (str "Example.sol") 1 "layout.maxLineLength"
       (str "Line length 130 exceeds maximum 120") sevWarning].
Proof.
  refine (eq_trans
            (proj1 (layout_findings_of_line buildConfig
                      (LayoutRules (Some 120%Z) (VNum 4) (VBool true)
                         (VBool true))
                      (path longLineFile) (text longLineFile)
                      (split LF (text longLineFile)) 0 (text longLineFile)
                      eq_refl eq_refl)) _).
  vm_compute. reflexivity.
Defined.

(* ===================================================================== *)
(** ** Trailing whitespace *)
(* ===================================================================== *)

(** [search] finds a match when the pattern matches at some position. *)
Lemma search_complete re u :
  forall p r',
    rmatch re (MState (rev u ++ p) r' []) <> [] ->
    search re p (u ++ r') <> None.
Proof.
  induction u as [|c u IH]; intros p r' H.
  - simpl in *. destruct (rmatch re (MState p r' [])) as [|st tl] eqn:E;
      [contradiction|].
    now rewrite (search_first _ _ _ _ _ E).
  - simpl app. simpl search.
    destruct (rmatch re (MState p (c :: u ++ r') [])); [|discriminate].
    apply IH. simpl in H. now rewrite <- app_assoc in H.
Qed.

Lemma inClass_ws c : inClass ws c = isWhiteSpace c.
Proof. unfold inClass, ws. simpl. now rewrite orb_false_r. Qed.

Lemma forallb_last {A} (f : A -> bool) (w : list A) :
  w <> [] -> forallb f w = true ->
  exists w' c, w = w' ++ [c] /\ f c = true.
Proof.
  intros Hne Hw. destruct (exists_last Hne) as (w' & c & ->).
  exists w', c. split; [reflexivity|].
  rewrite forallb_app in Hw. apply andb_prop in Hw as [_ Hc].
  simpl in Hc. now rewrite andb_true_r in Hc.
Qed.

(** [/\s+$/] matches the strings that end with a whitespace code unit. *)
Lemma trailingWhitespacePattern_spec l :
  test trailingWhitespacePattern l = true
  <-> exists l' c, l = l' ++ [c] /\ isWhiteSpace c = true.
Proof.
  unfold test, exec. change (length l <? 0) with false. cbv iota.
  change (take 0 l) with (@nil N). change (drop 0 l) with l. simpl rev.
  split.
  - destruct (search trailingWhitespacePattern [] l) as [m|] eqn:E;
      [intros _|discriminate].
    apply search_Some in E as (u & r' & st' & tl & -> & Hm & _).
    assert (Hin : In st' (rmatch trailingWhitespacePattern
                            (MState (rev u ++ []) r' [])))
      by (rewrite Hm; now left).
    unfold trailingWhitespacePattern, cat in Hin. simpl foldr in Hin.
    apply rmatch_Seq in Hin as (mid & Hplus & Hend).
    apply plus_spec in Hplus as (w & Hne & Hw & [_ Hr] & _).
    simpl in Hr. apply rmatch_Seq in Hend as (e & He & _).
    simpl in He. unfold atLineEnd in He.
    destruct (rest mid) eqn:Er; simpl in He; [|destruct He].
    rewrite app_nil_r in Hr. subst r'.
    destruct (forallb_last _ w Hne Hw) as (w' & c & -> & Hc).
    exists (u ++ w'), c. rewrite inClass_ws in Hc.
    split; [now rewrite <- app_assoc|exact Hc].
  - intros (l' & c & -> & Hc).
    assert (Hne : rmatch trailingWhitespacePattern
                    (MState (rev l' ++ []) [c] []) <> []).
    { assert (Hin : In (MState (c :: rev l' ++ []) [] [])
                      (rmatch trailingWhitespacePattern
                         (MState (rev l' ++ []) [c] []))).
      { unfold trailingWhitespacePattern, cat. simpl foldr.
        apply rmatch_Seq. exists (MState (c :: rev l' ++ []) [] []).
        split.
        - apply plus_spec. exists [c]. split; [discriminate|].
          split; [simpl; now rewrite inClass_ws, Hc|].
          repeat split.
        - apply rmatch_Seq. exists (MState (c :: rev l' ++ []) [] []).
          split; now left. }
      intros E. rewrite E in Hin. destruct Hin. }
    apply (search_complete _ l' [] [c]) in Hne.
    destruct (search trailingWhitespacePattern [] (l' ++ [c]));
      [reflexivity|contradiction].
Qed.

Lemma countRuleAt_filter r n l :
  countRuleAt r n l = countRule r (List.filter (fun i => line i =? n) l).
Proof.
  unfold countRuleAt, countRule, hasRuleAt, hasRule.
  induction l as [|i l IH]; simpl; [reflexivity|].
  destruct (line i =? n); simpl.
  - rewrite andb_true_r. destruct (String.eqb (rule i) r); simpl;
      now rewrite IH.
  - now rewrite andb_false_r.
Qed.

(** With the rule enabled, a line gets one [layout.noTrailingWhitespace]
    finding when its last code unit is whitespace, and none otherwise; in
    particular a line that ends with a carriage return, as every line of
    a file with CRLF line ends does, gets one. *)
Theorem trailing_whitespace_reported (cfg : config) (rules : layout_rules)
    (p content : jsstring) (lines : list jsstring) (k : nat) (l : jsstring) :
  layout (RULES cfg) = Some rules ->
  truthy (noTrailingWhitespace rules) = true ->
  lines !! k = Some l ->
  let n := countRuleAt "layout.noTrailingWhitespace" (k + 1)
             (findings (checkLayout cfg p content lines)) in
  ((exists l' c, l = l' ++ [c] /\ isWhiteSpace c = true) -> n = 1)
  /\ (~ (exists l' c, l = l' ++ [c] /\ isWhiteSpace c = true) -> n = 0)
  /\ (forall l', l = l' ++ [13%N] -> n = 1).
Proof.
  intros Hlay Hon Hk n.
  assert (Hn : n = if test trailingWhitespacePattern l then 1 else 0).
  { subst n. rewrite countRuleAt_filter.
    rewrite (proj1 (layout_findings_of_line cfg rules p content lines k l
                      Hlay Hk)).
    rewrite !countRule_app.
    assert (H1 : countRule "layout.noTrailingWhitespace"
                   (findings (checkLineLength cfg rules p (k + 1) l)) = 0).
    { unfold checkLineLength.
      repeat match goal with
             | |- context [if ?b then _ else _] => destruct b
             | |- context [match ?o with Some _ => _ | None => _ end] =>
                 destruct o
             end; reflexivity. }
    assert (H2 : countRule "layout.noTrailingWhitespace"
                   (findings (checkTabs rules p (k + 1) l)) = 0).
    { unfold checkTabs.
      repeat match goal with
             | |- context [if ?b then _ else _] => destruct b
             end; reflexivity. }
    rewrite H1, H2. unfold checkTrailingWhitespace. rewrite Hon. simpl andb.
    destruct (test trailingWhitespacePattern l); reflexivity. }
  assert (Hyes : (exists l' c, l = l' ++ [c] /\ isWhiteSpace c = true) ->
                 n = 1).
  { intros H. apply trailingWhitespacePattern_spec in H.
    now rewrite Hn, H. }
  split; [exact Hyes|split].
  - intros H. rewrite Hn.
    destruct (test trailingWhitespacePattern l) eqn:E; [|reflexivity].
    apply trailingWhitespacePattern_spec in E. contradiction.
  - intros l' ->. apply Hyes. exists l', 13%N. now split.
Qed.

Lemma trailing_whitespace_reported_witness :
  countRuleAt "layout.noTrailingWhitespace" (0 + 1)
    (findings (checkLayout buildConfig (str "Example.sol")
                 (str "uint256 x; ") [str "uint256 x; "])) = 1.
Proof.
  apply (proj1 (trailing_whitespace_reported buildConfig
                  (LayoutRules (Some 120%Z) (VNum 4) (VBool true)
                     (VBool true))
                  (str "Example.sol") (str "uint256 x; ")
                  [str "uint256 x; "] 0 (str "uint256 x; ")
                  eq_refl eq_refl eq_refl)).
  exists (str "uint256 x;"), 32%N. split; reflexivity.
Defined.

(* ===================================================================== *)
(** ** The naming styles *)
(* ===================================================================== *)

Lemma forallb_eq {A} (f g : A -> bool) (l : list A) :
  (forall a, f a = g a) -> forallb f l = forallb g l.
Proof.
  intros H. induction l as [|a l IH]; simpl; [reflexivity|].
  now rewrite H, IH.
Qed.

Lemma inClass_upper c : inClass upper c = isUpperLetter c.
Proof. unfold inClass, upper. simpl. now rewrite orb_false_r. Qed.

Lemma inClass_lower c : inClass lower c = isLowerLetter c.
Proof. unfold inClass, lower. simpl. now rewrite orb_false_r. Qed.

Lemma inClass_alnum c : inClass alnum c = isAlnum c.
Proof.
  unfold inClass, alnum, isAlnum, isLowerLetter, isUpperLetter, isDigit.
  simpl. now rewrite orb_false_r, orb_assoc.
Qed.

Lemma inClass_upperNum_ c : inClass upperNum_ c = isUpperDigitUnderscore c.
Proof.
  unfold inClass, upperNum_, isUpperDigitUnderscore, isUpperLetter, isDigit.
  simpl. now rewrite orb_false_r, orb_assoc.
Qed.

(** The words of a first code unit of one class followed by code units of
    another. *)
Lemma lang_head_tail k1 k2 name :
  lang (cat [Cls k1; Star k2]) name
  <-> exists c rest, name = c :: rest /\ inClass k1 c = true
                     /\ forallb (inClass k2) rest = true.
Proof.
  simpl. split.
  - intros (u & v & -> & (c & -> & Hc) & (u' & v' & -> & Hu & ->)).
    exists c, u'. rewrite app_nil_r. now repeat split.
  - intros (c & rest & -> & Hc & Hr).
    exists [c], rest. split; [reflexivity|]. split; [now exists c|].
    exists rest, []. now rewrite app_nil_r.
Qed.

Lemma isMixedCase_spec name :
  isMixedCase name = true
  <-> exists c rest, name = c :: rest /\ isLowerLetter c = true
                     /\ forallb isAlnum rest = true.
Proof.
  unfold isMixedCase, mixedCasePattern.
  rewrite (test_anchored [Cls lower; Star alnum] name eq_refl),
    lang_head_tail.
  split; intros (c & rest & -> & Hc & Hr); exists c, rest;
    rewrite inClass_lower, (forallb_eq _ _ _ inClass_alnum) in *;
    now repeat split.
Qed.

(** The four naming helpers decide these shapes: CapWords is an upper-case
    letter followed by letters and digits; mixedCase a lower-case letter
    followed by letters and digits; UPPER_CASE an upper-case letter
    followed by upper-case letters, digits and underscores;
    underscore mixedCase an underscore followed by a mixedCase name.  No
    name is both mixedCase and underscore mixedCase. *)
Theorem naming_styles (name : jsstring) :
  (isCapWords name = true
   <-> exists c rest, name = c :: rest /\ isUpperLetter c = true
                      /\ forallb isAlnum rest = true)
  /\ (isMixedCase name = true
      <-> exists c rest, name = c :: rest /\ isLowerLetter c = true
                         /\ forallb isAlnum rest = true)
  /\ (isUpperCase name = true
      <-> exists c rest, name = c :: rest /\ isUpperLetter c = true
                         /\ forallb isUpperDigitUnderscore rest = true)
  /\ (isUnderscoreMixedCase name = true
      <-> exists n, name = 95%N :: n /\ isMixedCase n = true)
  /\ (isMixedCase name && isUnderscoreMixedCase name = false).
Proof.
  assert (Hu : isUnderscoreMixedCase name = true
               <-> exists n, name = 95%N :: n /\ isMixedCase n = true).
  { unfold isUnderscoreMixedCase, underscoreMixedCasePattern.
    rewrite (test_anchored [Lit (str "_"); Cls lower; Star alnum] name
               eq_refl).
    change (cat [Lit (str "_"); Cls lower; Star alnum])
      with (Seq (Lit (str "_")) (cat [Cls lower; Star alnum])).
    cbn [lang]. split.
    - intros (u & v & -> & -> & Hv). exists v. split; [reflexivity|].
      unfold isMixedCase, mixedCasePattern.
      now apply (test_anchored [Cls lower; Star alnum] v eq_refl).
    - intros (n & -> & Hn). exists (str "_"), n.
      split; [reflexivity|]. split; [reflexivity|].
      unfold isMixedCase, mixedCasePattern in Hn.
      now apply (test_anchored [Cls lower; Star alnum] n eq_refl) in Hn. }
  split; [|split; [apply isMixedCase_spec|split; [|split; [exact Hu|]]]].
  - unfold isCapWords, capWordsPattern.
    rewrite (test_anchored [Cls upper; Star alnum] name eq_refl),
      lang_head_tail.
    split; intros (c & rest & -> & Hc & Hr); exists c, rest;
      rewrite inClass_upper, (forallb_eq _ _ _ inClass_alnum) in *;
      now repeat split.
  - unfold isUpperCase, upperCasePattern.
    rewrite (test_anchored [Cls upper; Star upperNum_] name eq_refl),
      lang_head_tail.
    split; intros (c & rest & -> & Hc & Hr); exists c, rest;
      rewrite inClass_upper, (forallb_eq _ _ _ inClass_upperNum_) in *;
      now repeat split.
  - destruct (isMixedCase name) eqn:Em; [|reflexivity].
    destruct (isUnderscoreMixedCase name) eqn:Eu; [|reflexivity].
    destruct (proj1 Hu eq_refl) as (n & Hn & _).
    apply isMixedCase_spec in Em as (c & rest & Hname & Hc & _).
    rewrite Hname in Hn. injection Hn as -> _. discriminate Hc.
Qed.

(* ===================================================================== *)
(** ** The past tense of an event name *)
(* ===================================================================== *)

Lemma startsWith_app s a b :
  startsWith s (a ++ b) = true -> startsWith s a = true.
Proof.
  revert s. induction a as [|x a IH]; intros s; simpl; [reflexivity|].
  destruct s as [|y s]; [discriminate|].
  intros H. apply andb_prop in H as [Hx H]. rewrite Hx. now apply IH.
Qed.

Lemma endsWith_longer s p q :
  endsWith s (p ++ q) = true -> endsWith s q = true.
Proof.
  unfold endsWith. rewrite rev_app_distr. apply startsWith_app.
Qed.

(** The eight suffixes of [isPastTense] come down to two: an event name
    passes when it ends with [ed] or with [Set], the other six suffixes
    all ending with [ed] themselves. *)
Theorem isPastTense_two_suffixes (eventName : jsstring) :
  isPastTense eventName
  = endsWith eventName (str "ed") || endsWith eventName (str "Set").
Proof.
  unfold isPastTense, pastTenseSuffixes. cbn [existsb].
  destruct (endsWith eventName (str "ed")) eqn:Eed; [reflexivity|].
  assert (H : forall p, endsWith eventName (p ++ str "ed") = false).
  { intros p. destruct (endsWith eventName (p ++ str "ed")) eqn:E;
      [|reflexivity].
    apply endsWith_longer in E. congruence. }
  change (str "Updated") with (str "Updat" ++ str "ed").
  change (str "Created") with (str "Creat" ++ str "ed").
  change (str "Deleted") with (str "Delet" ++ str "ed").
  change (str "Added") with (str "Add" ++ str "ed").
  change (str "Removed") with (str "Remov" ++ str "ed").
  change (str "Changed") with (str "Chang" ++ str "ed").
  rewrite !H. simpl. now rewrite orb_false_r.
Qed.

(* ===================================================================== *)
(** ** Substrings, lines and trimming *)
(* ===================================================================== *)

Lemma startsWith_spec s p :
  startsWith s p = true <-> exists b, s = p ++ b.
Proof.
  revert s. induction p as [|x p IH]; intros s; simpl.
  - split; [intros _; now exists s|reflexivity].
  - destruct s as [|y s].
    + split; [discriminate|intros (b & H); discriminate H].
    + rewrite andb_true_iff, N.eqb_eq, IH. split.
      * intros (-> & b & ->). now exists b.
      * intros (b & [= -> ->]). split; [reflexivity|now exists b].
Qed.

Lemma includes_spec s p :
  includes s p = true <-> exists a b, s = a ++ p ++ b.
Proof.
  induction s as [|c s IH].
  - simpl. rewrite orb_false_r, startsWith_spec. split.
    + intros (b & H). now exists [], b.
    + intros (a & b & H). destruct a; [now exists b|discriminate H].
  - change (includes (c :: s) p)
      with (startsWith (c :: s) p || includes s p).
    rewrite orb_true_iff, startsWith_spec, IH. split.
    + intros [(b & H)|(a & b & ->)]; [now exists [], b|now exists (c :: a), b].
    + intros (a & b & H). destruct a as [|x a].
      * left. now exists b.
      * injection H as -> ->. right. now exists a, b.
Qed.

Lemma includes_substring s t p a b :
  s = a ++ t ++ b -> includes t p = true -> includes s p = true.
Proof.
  intros -> H. apply includes_spec in H as (a' & b' & ->).
  apply includes_spec. exists (a ++ a'), (b' ++ b).
  now rewrite <- !app_assoc.
Qed.

(** The first line is a prefix of the text, and every line a part of it. *)
Lemma split_head sep s l ls :
  split sep s = l :: ls -> exists b, s = l ++ b.
Proof.
  revert l ls. induction s as [|c s IH]; intros l ls; simpl.
  - intros [= <- <-]. now exists [].
  - destruct (c =? sep)%N.
    + intros [= <- <-]. now exists (c :: s).
    + destruct (split sep s) as [|l0 ls0] eqn:E.
      * intros [= <- <-]. pose proof (split_nonempty sep s). contradiction.
      * intros [= <- <-]. destruct (IH l0 ls0 eq_refl) as (b & ->).
        now exists b.
Qed.

Lemma split_In sep s l :
  In l (split sep s) -> exists a b, s = a ++ l ++ b.
Proof.
  revert l. induction s as [|c s IH]; intros l; simpl.
  - intros [<-|[]]. now exists [], [].
  - destruct (c =? sep)%N.
    + intros [<-|H]; [now exists [], (c :: s)|].
      destruct (IH l H) as (a & b & ->). now exists (c :: a), b.
    + destruct (split sep s) as [|l0 ls0] eqn:E.
      * intros [<-|[]]. pose proof (split_nonempty sep s). contradiction.
      * intros [<-|H].
        -- destruct (split_head sep s l0 ls0 E) as (b & ->).
           now exists [], b.
        -- destruct (IH l (or_intror H)) as (a & b & ->).
           now exists (c :: a), b.
Qed.

Lemma trimStart_suffix s : exists a, s = a ++ trimStart s.
Proof.
  induction s as [|c s (a & IH)]; simpl; [now exists []|].
  destruct (isWhiteSpace c); [|now exists []].
  exists (c :: a). simpl. now rewrite <- IH.
Qed.

Lemma trim_substring s : exists a b, s = a ++ trim s ++ b.
Proof.
  unfold trim, trimEnd. destruct (trimStart_suffix s) as (a & Ha).
  destruct (trimStart_suffix (rev (trimStart s))) as (b & Hb).
  exists a, (rev b). rewrite <- rev_app_distr, <- Hb, rev_involutive.
  exact Ha.
Qed.

(** A string that begins with a code unit that is not whitespace survives
    the trimming of what lies before it. *)
Lemma trimStart_keeps a m b c m' :
  m = c :: m' -> isWhiteSpace c = false ->
  exists a', trimStart (a ++ m ++ b) = a' ++ m ++ b.
Proof.
  intros -> Hc. induction a as [|x a (a' & IH)]; simpl.
  - rewrite Hc. now exists [].
  - destruct (isWhiteSpace x); [now exists a'|now exists (x :: a)].
Qed.

Lemma trim_keeps s m c m' d m'' :
  m = c :: m' -> isWhiteSpace c = false ->
  rev m = d :: m'' -> isWhiteSpace d = false ->
  includes s m = true -> includes (trim s) m = true.
Proof.
  intros Hm Hc Hr Hd H. apply includes_spec in H as (a & b & ->).
  destruct (trimStart_keeps a m b c m' Hm Hc) as (a' & Ha).
  unfold trim, trimEnd. rewrite Ha, !rev_app_distr, <- app_assoc.
  destruct (trimStart_keeps (rev b) (rev m) (rev a') d m'' Hr Hd)
    as (b' & Hb).
  rewrite Hb, !rev_app_distr, !rev_involutive, <- app_assoc.
  apply includes_spec. now exists a', (rev b').
Qed.

Lemma findIndex_spec {A} (f : A -> bool) (l : list A) i :
  findIndex f l = Some i ->
  exists x, l !! i = Some x /\ f x = true
            /\ forall j y, j < i -> l !! j = Some y -> f y = false.
Proof.
  revert i. induction l as [|a l IH]; intros i; simpl; [discriminate|].
  destruct (f a) eqn:Ea.
  - intros [= <-]. exists a. repeat split; [exact Ea|]. intros j y Hj. lia.
  - destruct (findIndex f l) as [k|]; [|discriminate].
    intros [= <-]. destruct (IH k eq_refl) as (x & Hx & Hfx & Hbefore).
    exists x. repeat split; [exact Hx|exact Hfx|].
    intros [|j] y Hj Hy; simpl in Hy.
    + now injection Hy as <-.
    + apply (Hbefore j y); [lia|exact Hy].
Qed.

(* ===================================================================== *)
(** ** The license and the pragma *)
(* ===================================================================== *)

Lemma spdxMarker_survives_trim l :
  includes l spdxMarker = true -> includes (trim l) spdxMarker = true.
Proof.
  apply (trim_keeps l spdxMarker (ch "S") (str "PDX-License-Identifier:")
           (ch ":") (rev (str "SPDX-License-Identifier")));
    reflexivity.
Qed.

(** When the first line of a file contains the license marker, the
    structure pass reports nothing, whatever the configuration: no missing
    license, no license away from the top, no pragma before the
    license. *)
Theorem license_on_first_line (cfg : config) (p content : jsstring)
    (l0 : jsstring) (rest : list jsstring) :
  split LF content = l0 :: rest ->
  includes l0 spdxMarker = true ->
  findings (checkFileStructure cfg p content (split LF content)) = [].
Proof.
  intros Hsplit Hl0.
  assert (Hcontent : includes content spdxMarker = true).
  { destruct (split_head LF content l0 rest Hsplit) as (b & Hb).
    apply (includes_substring content l0 spdxMarker [] b);
      [exact Hb|exact Hl0]. }
  apply spdxMarker_survives_trim in Hl0 as Htrim.
  unfold checkFileStructure. destruct (structure (RULES cfg)) as [rules|];
    [|reflexivity].
  rewrite findings_comp by auto using emitter_checkSpdx, emitter_checkPragma.
  assert (H1 : findings (checkSpdx cfg rules p content (split LF content))
               = []).
  { unfold checkSpdx, spdxPattern. rewrite test_Lit.
    change (str "SPDX-License-Identifier:") with spdxMarker.
    rewrite Hcontent, Hsplit. simpl nth. rewrite Htrim.
    destruct (truthy (spdxLicense rules)); [|reflexivity].
    simpl. destruct (truthy (spdxAtTop rules)); reflexivity. }
  assert (H2 : findings (checkPragma rules p (split LF content)) = []).
  { unfold checkPragma. rewrite Hsplit.
    destruct (truthy (pragmaAfterLicense rules)); [|reflexivity].
    cbn [findIndex]. rewrite Hl0.
    destruct (if startsWith (trim l0) (str "pragma solidity") then Some 0
              else option_map S
                     (findIndex
                        (fun l => startsWith (trim l) (str "pragma solidity"))
                        rest)); reflexivity. }
  now rewrite H1, H2.
Qed.

Lemma license_on_first_line_witness :
  findings (checkFileStructure buildConfig (path licensedFile)
              (text licensedFile) (split LF (text licensedFile))) = [].
Proof.
  apply (license_on_first_line buildConfig (path licensedFile)
           (text licensedFile) (str "// SPDX-License-Identifier: MIT")
           [str "pragma solidity ^0.8.13;"]);
    reflexivity.
Defined.

(* ===================================================================== *)
(** ** The from-clause that extractImportPath reads *)
(* ===================================================================== *)

(** [search] returns the match at the first position that has one. *)
Lemma search_Some_first re p r m :
  search re p r = Some m ->
  exists u r' st' tl,
    r = u ++ r'
    /\ rmatch re (MState (rev u ++ p) r' []) = st' :: tl
    /\ m = MResult (length (rev u ++ p)) (index st') (caps st')
    /\ forall u1 u2, u = u1 ++ u2 -> u2 <> [] ->
         rmatch re (MState (rev u1 ++ p) (u2 ++ r') []) = [].
Proof.
  revert p. induction r as [|c r IH]; intros p; simpl.
  - destruct (rmatch re (MState p [] [])) as [|st' tl] eqn:E; [discriminate|].
    intros [= <-]. exists [], [], st', tl.
    split; [reflexivity|]. split; [exact E|]. split; [reflexivity|].
    intros u1 u2 Hu Hne. destruct u1; destruct u2; try discriminate.
    contradiction.
  - destruct (rmatch re (MState p (c :: r) [])) as [|st' tl] eqn:E.
    + intros H. apply IH in H as (u & r' & st' & tl & -> & Hm & -> & Hfirst).
      exists (c :: u), r', st', tl. simpl. rewrite <- !app_assoc.
      split; [reflexivity|]. split; [exact Hm|]. split; [reflexivity|].
      intros u1 u2 Hu Hne. destruct u1 as [|c' u1]; simpl in Hu.
      * subst u2. exact E.
      * injection Hu as <- ->. simpl. rewrite <- app_assoc.
        now apply Hfirst.
    + intros [= <-]. exists [], (c :: r), st', tl.
      split; [reflexivity|]. split; [exact E|]. split; [reflexivity|].
      intros u1 u2 Hu Hne. destruct u1; destruct u2; try discriminate.
      contradiction.
Qed.

Lemma app_eq_shorter {A} (a u x r : list A) :
  a ++ x = u ++ r -> length a < length u ->
  exists u2, u = a ++ u2 /\ u2 <> [] /\ x = u2 ++ r.
Proof.
  revert u. induction a as [|c a IH]; intros u H L.
  - exists u. simpl in *. split; [reflexivity|]. split; [|exact H].
    intros ->. simpl in L. lia.
  - destruct u as [|c' u]; [simpl in L; lia|].
    simpl in H. injection H as <- H. simpl in L.
    destruct (IH u H ltac:(lia)) as (u2 & -> & Hne & ->).
    exists u2. now repeat split.
Qed.

Lemma app_eq_same_length {A} (a u x r : list A) :
  a ++ x = u ++ r -> length a = length u -> a = u /\ x = r.
Proof.
  revert u. induction a as [|c a IH]; intros u H L.
  - destruct u; [now split|discriminate].
  - destruct u as [|c' u]; [discriminate|].
    simpl in H. injection H as <- H. simpl in L.
    destruct (IH u H ltac:(lia)) as [-> ->]. now split.
Qed.

(** A run of code units that satisfy [f] before one that does not
    determines itself. *)
Lemma run_unique {A} (f : A -> bool) w w' c c' x x' :
  forallb f w = true -> forallb f w' = true ->
  f c = false -> f c' = false ->
  w ++ c :: x = w' ++ c' :: x' -> w = w' /\ c = c' /\ x = x'.
Proof.
  revert w'. induction w as [|a w IH]; intros w' Hw Hw' Hc Hc' E.
  - destruct w' as [|a' w'].
    + simpl in E. injection E as -> ->. now repeat split.
    + simpl in E, Hw'. injection E as -> _.
      apply andb_prop in Hw' as [Ha _]. congruence.
  - destruct w' as [|a' w'].
    + simpl in E, Hw. injection E as -> _.
      apply andb_prop in Hw as [Ha _]. congruence.
    + simpl in E, Hw, Hw'. injection E as <- E.
      apply andb_prop in Hw as [_ Hw]. apply andb_prop in Hw' as [_ Hw'].
      destruct (IH w' Hw Hw' Hc Hc' E) as (-> & -> & ->). now repeat split.
Qed.

Lemma inClass_quote c : inClass quote c = isQuote c.
Proof.
  unfold inClass, quote, isQuote. cbn [negated items existsb inItem].
  now rewrite xorb_false_l, orb_false_r.
Qed.

Lemma inClass_notQuote c : inClass notQuote c = negb (isQuote c).
Proof.
  unfold inClass, notQuote, isQuote. cbn [negated items existsb inItem].
  now rewrite xorb_true_l, orb_false_r.
Qed.

Lemma isQuote_not_space c : isQuote c = true -> isWhiteSpace c = false.
Proof.
  unfold isQuote. intros H. apply orb_prop in H as [H|H];
    apply N.eqb_eq in H; subst c; reflexivity.
Qed.

(** A match of the pattern at a position reads a from-clause there. *)
Lemma importPath_at_sound p0 r st' :
  In st' (rmatch importPathPattern (MState p0 r [])) ->
  exists ws q1 p q2 b,
    r = str "from" ++ ws ++ q1 :: p ++ q2 :: b
    /\ ws <> [] /\ forallb isWhiteSpace ws = true
    /\ isQuote q1 = true /\ isQuote q2 = true
    /\ p <> [] /\ forallb (fun c => negb (isQuote c)) p = true
    /\ group 1 (caps st') = Some p.
Proof.
  unfold importPathPattern, cat. cbn [foldr]. intros H.
  apply rmatch_Seq in H as (s1 & H1 & H).
  apply rmatch_Seq in H as (s2 & H2 & H).
  apply rmatch_Seq in H as (s3 & H3 & H).
  apply rmatch_Seq in H as (s4 & H4 & H).
  apply rmatch_Seq in H as (s5 & H5 & H).
  destruct H as [<-|[]].
  apply lit_spec in H1 as [[_ R1] _]. cbn [rest] in R1.
  apply plus_spec in H2 as (w & Hne & Hw & [_ R2] & _).
  apply cls_spec in H3 as (q1 & Hq1 & [_ R3] & _).
  cbn [rmatch] in H4. apply in_map_iff in H4 as (x & <- & Hx).
  apply plus_spec in Hx as (p & Hpne & Hp & Rp & _).
  apply cls_spec in H5 as (q2 & Hq2 & [_ R5] & C5).
  cbn [rest capture] in R5.
  exists w, q1, p, q2, (rest s5).
  split. { rewrite R1, R2, R3, (proj2 Rp), R5. reflexivity. }
  split; [exact Hne|].
  split. { rewrite <- Hw. apply forallb_eq. intros; now rewrite inClass_ws. }
  split; [now rewrite <- inClass_quote|].
  split; [now rewrite <- inClass_quote|].
  split; [exact Hpne|].
  split. { rewrite <- Hp. apply forallb_eq. intros; now rewrite inClass_notQuote. }
  rewrite C5. cbn [caps capture group]. rewrite Nat.eqb_refl.
  now rewrite (reaches_between p s3 x Rp).
Qed.

(** The pattern matches where a from-clause starts. *)
Lemma importPath_at_complete p0 ws q1 p q2 b :
  ws <> [] -> forallb isWhiteSpace ws = true ->
  isQuote q1 = true -> isQuote q2 = true ->
  p <> [] -> forallb (fun c => negb (isQuote c)) p = true ->
  rmatch importPathPattern
    (MState p0 (str "from" ++ ws ++ q1 :: p ++ q2 :: b) []) <> [].
Proof.
  intros Hne Hws Hq1 Hq2 Hpne Hp.
  assert (Hl : lang importPathPattern
                 (str "from" ++ ws ++ [q1] ++ p ++ [q2] ++ [])).
  { unfold importPathPattern, cat. cbn [foldr lang].
    exists (str "from"), (ws ++ [q1] ++ p ++ [q2] ++ []).
    split; [reflexivity|]. split; [reflexivity|].
    exists ws, ([q1] ++ p ++ [q2] ++ []). split; [reflexivity|]. split.
    { split; [exact Hne|]. rewrite <- Hws. apply forallb_eq.
      intros; apply inClass_ws. }
    exists [q1], (p ++ [q2] ++ []). split; [reflexivity|]. split.
    { exists q1. split; [reflexivity|]. now rewrite inClass_quote. }
    exists p, ([q2] ++ []). split; [reflexivity|]. split.
    { split; [exact Hpne|]. rewrite <- Hp. apply forallb_eq.
      intros; apply inClass_notQuote. }
    exists [q2], []. split; [reflexivity|]. split; [|reflexivity].
    exists q2. split; [reflexivity|]. now rewrite inClass_quote. }
  destruct (rmatch_lang_complete importPathPattern _ eq_refl Hl
              (MState p0 (str "from" ++ ws ++ q1 :: p ++ q2 :: b) []) b)
    as (cs & Hin).
  { cbn [rest]. rewrite <- !app_assoc. reflexivity. }
  intros E. rewrite E in Hin. destruct Hin.
Qed.

(** At one position a line has at most one from-clause. *)
Lemma fromClauseAt_unique l a p b p' b' :
  fromClauseAt l a p b -> fromClauseAt l a p' b' -> p = p'.
Proof.
  intros (w & q1 & q2 & E & _ & Hw & Hq1 & Hq2 & _ & Hp)
         (w' & q1' & q2' & E' & _ & Hw' & Hq1' & Hq2' & _ & Hp').
  rewrite E in E'. apply app_inv_head in E'. apply app_inv_head in E'.
  destruct (run_unique isWhiteSpace w w' q1 q1' _ _ Hw Hw'
              (isQuote_not_space _ Hq1) (isQuote_not_space _ Hq1') E')
    as (_ & _ & E2).
  assert (N2 : negb (isQuote q2) = false) by now rewrite Hq2.
  assert (N2' : negb (isQuote q2') = false) by now rewrite Hq2'.
  destruct (run_unique (fun c => negb (isQuote c)) p p' q2 q2' _ _ Hp Hp'
              N2 N2' E2) as (Hpp & _).
  exact Hpp.
Qed.

(** [extractImportPath] returns null exactly for the lines without a
    from-clause. *)
Lemma extractImportPath_None l :
  extractImportPath l = None <-> ~ hasFromClause l.
Proof.
  unfold extractImportPath, exec. change (length l <? 0) with false.
  cbv iota. change (take 0 l) with (@nil N). change (drop 0 l) with l.
  cbn [rev]. split.
  - intros H (a & p & b & w & q1 & q2 & E & Hne & Hw & Hq1 & Hq2 & Hpne & Hp).
    destruct (search importPathPattern [] l) eqn:Es; [discriminate|].
    revert Es. rewrite E. apply search_complete.
    now apply importPath_at_complete.
  - intros Hno. destruct (search importPathPattern [] l) as [m|] eqn:Es;
      [|reflexivity].
    exfalso. apply Hno.
    apply search_Some in Es as (u & r' & st' & tl & -> & Hm & _).
    assert (Hin : In st' (rmatch importPathPattern (MState (rev u ++ []) r' [])))
      by (rewrite Hm; now left).
    apply importPath_at_sound in Hin
      as (w & q1 & p & q2 & b & -> & Hne & Hw & Hq1 & Hq2 & Hpne & Hp & _).
    exists u, p, b, w, q1, q2. now repeat split.
Qed.

(** When it is not null, what [extractImportPath] returns is the path of
    the first from-clause of the line. *)
Lemma extractImportPath_Some l p :
  extractImportPath l = Some p <-> importPathOf l p.
Proof.
  assert (Hfwd : forall p, extractImportPath l = Some p -> importPathOf l p).
  { clear p. intros p. unfold extractImportPath, exec.
    change (length l <? 0) with false.
    cbv iota. change (take 0 l) with (@nil N). change (drop 0 l) with l.
    cbn [rev].
    destruct (search importPathPattern [] l) as [m|] eqn:Es; [|discriminate].
    intros [= <-].
    apply search_Some_first in Es as (u & r' & st' & tl & -> & Hm & -> & Hfirst).
    assert (Hin : In st' (rmatch importPathPattern (MState (rev u ++ []) r' [])))
      by (rewrite Hm; now left).
    apply importPath_at_sound in Hin
      as (w & q1 & p & q2 & b & -> & Hne & Hw & Hq1 & Hq2 & Hpne & Hp & Hg).
    unfold grp. cbn [m_caps]. rewrite Hg. cbn [default].
    exists u, b. split; [exists w, q1, q2; now repeat split|].
    intros a' p' b' (w' & q1' & q2' & E' & Hne' & Hw' & Hq1' & Hq2' & Hpne' & Hp').
    destruct (Nat.le_gt_cases (length u) (length a')) as [|Hlt]; [assumption|].
    exfalso. symmetry in E'.
    destruct (app_eq_shorter _ _ _ _ E' Hlt) as (u2 & Hu & Hu2 & Hx).
    pose proof (Hfirst a' u2 Hu Hu2) as Hnone. rewrite <- Hx in Hnone.
    revert Hnone. now apply importPath_at_complete. }
  split; [apply Hfwd|].
  intros (a & b & Hat & Hleft).
  destruct (extractImportPath l) as [p'|] eqn:E.
  - destruct (Hfwd p' eq_refl) as (a' & b' & Hat' & Hleft').
    pose proof (Hleft _ _ _ Hat') as L1. pose proof (Hleft' _ _ _ Hat) as L2.
    assert (Ha : a = a').
    { destruct Hat as (w & q1 & q2 & E1 & _).
      destruct Hat' as (w' & q1' & q2' & E2 & _). rewrite E1 in E2.
      apply (app_eq_same_length _ _ _ _ E2). lia. }
    subst a'. f_equal. exact (fromClauseAt_unique _ _ _ _ _ _ Hat' Hat).
  - exfalso. apply (proj1 (extractImportPath_None l) E). now exists a, p, b.
Qed.

Lemma pathLess_pathsOutOfOrder prev cur :
  pathLess prev cur <-> pathsOutOfOrder prev cur.
Proof.
  unfold pathLess, pathsOutOfOrder.
  split; intros (x & y & Hx & Hy & H); exists x, y;
    (split; [|split; [|exact H]]); now apply extractImportPath_Some.
Qed.

Lemma inverted_needs_from_clauses prev cur :
  ~ hasFromClause (i_line prev) \/ ~ hasFromClause (i_line cur) ->
  inverted prev cur = false.
Proof.
  unfold inverted. intros [H|H]; apply extractImportPath_None in H;
    rewrite H; [destruct (extractImportPath (i_line cur))|]; reflexivity.
Qed.

(** C4.  The imports of a file are the trimmed lines that start with
    import and a blank, each with the number of its line.
    [extractImportPath] yields null exactly for an import without a
    from-clause (the word from, blanks, and a path of one or more code
    units between quotes), and otherwise the path of the first
    from-clause.  With the alphabetical rule enabled, an import after the
    first gets one [imports.alphabetical] finding at its line when its
    path and the path of the import just before it are both extracted
    and its path is less than the other in the order of the code units,
    and none otherwise; in particular it gets none when it or the import
    before it lacks a from-clause.  The first import gets none.  Only
    adjacent imports are compared: the findings of the rule number the
    adjacent pairs that are out of order, so that imports of which each is
    out of order with the one before yield one finding less than there
    are imports. *)
Theorem alphabetical_adjacent_pairs (cfg : config) (rules : imports_rules)
    (c : contract) :
  imports (RULES cfg) = Some rules ->
  truthy (alphabetical rules) = true ->
  let imps := collectImports (split LF (text c)) in
  let L := findings (passes cfg c) in
  (forall imp,
      In imp imps
      <-> exists j l,
            split LF (text c) !! j = Some l
            /\ startsWith (trim l) (str "import ") = true
            /\ imp = ImportInfo (trim l) (j + 1))
  /\ (forall l, extractImportPath l = None <-> ~ hasFromClause l)
  /\ (forall l p, extractImportPath l = Some p <-> importPathOf l p)
  /\ (forall j prev cur,
      imps !! j = Some prev -> imps !! S j = Some cur ->
      countRuleAt "imports.alphabetical" (i_lineNumber cur) L
      = (if inverted prev cur then 1 else 0)
      /\ (inverted prev cur = true <-> pathLess prev cur)
      /\ (pathLess prev cur <-> pathsOutOfOrder prev cur)
      /\ (~ hasFromClause (i_line prev) \/ ~ hasFromClause (i_line cur) ->
          countRuleAt "imports.alphabetical" (i_lineNumber cur) L = 0))
  /\ (forall first,
        imps !! 0 = Some first ->
        countRuleAt "imports.alphabetical" (i_lineNumber first) L = 0)
  /\ countRule "imports.alphabetical" L = inversions imps
  /\ ((forall j prev cur,
          imps !! j = Some prev -> imps !! S j = Some cur ->
          pathsOutOfOrder prev cur) ->
      countRule "imports.alphabetical" L = length imps - 1).
Proof.
  intros Hrules Hon imps L.
  destruct (count_imports_passes cfg c "imports.alphabetical" eq_refl)
    as [Hall Hat].
  fold L in Hall, Hat. unfold checkImports in Hall, Hat.
  rewrite Hrules in Hall, Hat. cbv zeta in Hall, Hat. fold imps in Hall, Hat.
  rewrite findings_forEachIndexed in Hall, Hat
    by (intros; apply emitter_checkImport).
  assert (Hlines : forall k x,
            Forall (fun i => line i = i_lineNumber x)
              (findings (checkImport rules (path c) imps k x)))
    by (intros; apply checkImport_lines).
  assert (Hnd : NoDup (map i_lineNumber imps))
    by apply (collectImportsFrom_numbers 0).
  assert (Htotal : countRule "imports.alphabetical" L = inversions imps).
  { rewrite Hall. clearbody imps. clear Hall Hat Hlines Hnd.
    destruct imps as [|first l]; [reflexivity|].
    cbn [flatMapFrom]. rewrite countRule_app.
    pose proof (count_alphabetical_from rules (path c) (first :: l) Hon l []
                  first eq_refl) as Hc.
    simpl length in Hc. rewrite Hc.
    rewrite findings_checkImport, countRule_app, findings_checkNamedImport,
      findings_checkAlphabetical, Hon.
    simpl. destruct (truthy (namedOnly rules) && _); reflexivity. }
  assert (Hpair : forall j prev cur,
            imps !! j = Some prev -> imps !! S j = Some cur ->
            countRuleAt "imports.alphabetical" (i_lineNumber cur) L
            = (if inverted prev cur then 1 else 0)).
  { intros j prev cur Hprev Hcur. rewrite Hat.
    rewrite (countRuleAt_flatMapFrom _ i_lineNumber imps 0 _ (S j) cur
               Hlines Hnd Hcur).
    rewrite count_alphabetical_at, Hon, Nat.eqb_refl. simpl.
    rewrite Nat.sub_0_r, (nth_lookup_Some _ _ cur _ Hprev), andb_true_r.
    reflexivity. }
  split; [|split; [|split; [|split; [|split; [|split]]]]].
  - intros imp. unfold imps, collectImports. split.
    + intros H. apply collectImportsFrom_In in H as (j & l & Hj & -> & Hl).
      exists j, l. now repeat split.
    + intros (j & l & Hj & Hl & ->).
      destruct (collectImportsFrom_lookup 0 _ j l Hj Hl) as (idx & Hidx).
      apply list_elem_of_In. eapply list_elem_of_lookup_2. exact Hidx.
  - apply extractImportPath_None.
  - apply extractImportPath_Some.
  - intros j prev cur Hprev Hcur.
    split; [exact (Hpair j prev cur Hprev Hcur)|].
    split; [apply inverted_pathLess|].
    split; [apply pathLess_pathsOutOfOrder|].
    intros Hno. rewrite (Hpair j prev cur Hprev Hcur).
    now rewrite (inverted_needs_from_clauses prev cur Hno).
  - intros first Hfirst. rewrite Hat.
    rewrite (countRuleAt_flatMapFrom _ i_lineNumber imps 0 _ 0 first
               Hlines Hnd Hfirst).
    rewrite count_alphabetical_at, Hon. reflexivity.
  - exact Htotal.
  - intros Hdesc. rewrite Htotal. clearbody imps.
    clear Hall Hat Hlines Hnd Htotal Hpair.
    destruct imps as [|first l]; [reflexivity|].
    unfold inversions. simpl. rewrite Nat.sub_0_r.
    apply inversionsFrom_descending. intros j a b Ha Hb.
    apply inverted_pathLess, pathLess_pathsOutOfOrder.
    exact (Hdesc j a b Ha Hb).
Qed.

(** Two imports out of order, and an import without a from-clause between
    two named imports, with the configuration of [build-config.js]. *)
Lemma alphabetical_adjacent_pairs_witness :
  (countRuleAt "imports.alphabetical" 2
     (findings (passes buildConfig unorderedImportsFile)) = 1
   /\ countRule "imports.alphabetical"
        (findings (passes buildConfig unorderedImportsFile)) = 1)
  /\ (~ hasFromClause (str "import './a.sol';")
      /\ importPathOf (str "import {A} from './a.sol';") (str "./a.sol")
      /\ countRuleAt "imports.alphabetical" 2
           (findings (passes buildConfig plainImportFile)) = 0
      /\ countRuleAt "imports.alphabetical" 3
           (findings (passes buildConfig plainImportFile)) = 0
      /\ countRule "imports.alphabetical"
           (findings (passes buildConfig plainImportFile)) = 0).
Proof.
  split.
  - pose proof (alphabetical_adjacent_pairs buildConfig
                  (ImportsRules (VBool true) (VBool true))
                  unorderedImportsFile eq_refl eq_refl)
      as (_ & _ & _ & H1 & _ & H3 & _).
    split.
    + exact (proj1 (H1 0 (ImportInfo (str "import {B} from './b.sol';") 1)
                      (ImportInfo (str "import A from './a.sol';") 2)
                      eq_refl eq_refl)).
    + exact H3.
  - pose proof (alphabetical_adjacent_pairs buildConfig
                  (ImportsRules (VBool true) (VBool true))
                  plainImportFile eq_refl eq_refl)
      as (_ & Hnone & Hsome & H1 & _ & H3 & _).
    assert (Hplain : ~ hasFromClause (str "import './a.sol';"))
      by (apply Hnone; vm_compute; reflexivity).
    split; [exact Hplain|].
    split; [apply Hsome; vm_compute; reflexivity|].
    split; [|split].
    + apply (proj2 (proj2 (proj2
               (H1 0 (ImportInfo (str "import {B} from './b.sol';") 1)
                     (ImportInfo (str "import './a.sol';") 2)
                     eq_refl eq_refl)))).
      right. exact Hplain.
    + apply (proj2 (proj2 (proj2
               (H1 1 (ImportInfo (str "import './a.sol';") 2)
                     (ImportInfo (str "import {A} from './a.sol';") 3)
                     eq_refl eq_refl)))).
      left. exact Hplain.
    + exact H3.
Defined.

(* ===================================================================== *)
(** ** The visibility keyword that checkNaming resolves *)
(* ===================================================================== *)

Lemma keyword_word kw :
  In kw visibilityKeywords ->
  startsWithWordChar kw = true /\ endsInWordChar kw = true.
Proof.
  intros [<- | [<- | [<- | [<- | []]]]]; split; reflexivity.
Qed.

Lemma startsWithWordChar_app kw b :
  kw <> [] -> startsWithWordChar (kw ++ b) = startsWithWordChar kw.
Proof. destruct kw; [contradiction|reflexivity]. Qed.

Lemma wordBefore_app kw p cs r :
  kw <> [] ->
  wordBefore (MState (rev kw ++ p) r cs) = endsInWordChar kw.
Proof.
  intros Hne. unfold wordBefore, endsInWordChar. cbn [pre].
  destruct (rev kw) as [|c t] eqn:E; [|reflexivity].
  apply (f_equal (@length N)) in E. rewrite length_rev in E.
  destruct kw; [contradiction|discriminate].
Qed.

Lemma keyword_nonempty kw : In kw visibilityKeywords -> kw <> [].
Proof. intros [<- | [<- | [<- | [<- | []]]]]; discriminate. Qed.

Lemma lang_keywords w :
  lang (Alt (Lit (str "public"))
          (Alt (Lit (str "external"))
             (Alt (Lit (str "internal")) (Lit (str "private"))))) w
  <-> In w visibilityKeywords.
Proof.
  cbn [lang]. unfold visibilityKeywords. cbn [In]. split.
  - intros [-> | [-> | [-> | ->]]]; auto.
  - intros [<- | [<- | [<- | [<- | []]]]]; auto.
Qed.

Lemma rmatch_Group n a st y :
  In y (rmatch (Group n a) st)
  <-> exists x, capture n st x = y /\ In x (rmatch a st).
Proof. simpl. apply in_map_iff. Qed.

Lemma rmatch_WordB st y :
  In y (rmatch WordB st)
  <-> y = st /\ xorb (wordBefore st) (wordAfter st) = true.
Proof.
  simpl. destruct (xorb (wordBefore st) (wordAfter st)); simpl.
  - split; [intros [<-|[]]; now split|intros [-> _]; now left].
  - split; [intros []|intros [_ H]; discriminate H].
Qed.

(** A match of the pattern at a position reads a keyword there, as a whole
    word. *)
Lemma visibility_at_sound a r st' :
  In st' (rmatch visibilityPattern (MState (rev a) r [])) ->
  exists kw b,
    r = kw ++ b /\ In kw visibilityKeywords
    /\ endsInWordChar a = false /\ startsWithWordChar b = false
    /\ group 1 (caps st') = Some kw.
Proof.
  unfold visibilityPattern, cat. cbn [foldr]. intros H.
  apply rmatch_Seq in H as (s1 & H1 & H).
  apply rmatch_Seq in H as (s2 & H2 & H).
  apply rmatch_Seq in H as (s3 & H3 & H).
  destruct H as [<-|[]].
  apply rmatch_WordB in H1 as [-> B1].
  apply rmatch_Group in H2 as (x & <- & Hx).
  apply rmatch_lang_sound in Hx as (kw & Lkw & Rkw); [|reflexivity].
  apply lang_keywords in Lkw.
  apply rmatch_WordB in H3 as [-> B2].
  pose proof (keyword_nonempty kw Lkw) as Hne.
  destruct (keyword_word kw Lkw) as [Hs He].
  pose proof Rkw as [Hp Hr]. cbn [pre rest] in Hp, Hr.
  exists kw, (rest x). split; [exact Hr|]. split; [exact Lkw|].
  split; [|split].
  - unfold wordAfter in B1. cbn [rest] in B1. rewrite Hr in B1.
    change (match kw ++ rest x with c :: _ => isWordChar c | [] => false end)
      with (startsWithWordChar (kw ++ rest x)) in B1.
    rewrite (startsWithWordChar_app kw _ Hne), Hs in B1.
    unfold wordBefore in B1. cbn [pre] in B1.
    change (match rev a with c :: _ => isWordChar c | [] => false end)
      with (endsInWordChar a) in B1.
    now destruct (endsInWordChar a).
  - assert (Hb : wordBefore (capture 1 (MState (rev a) r []) x) = true).
    { unfold wordBefore. cbn [pre capture]. rewrite Hp.
      rewrite <- He. apply (wordBefore_app kw (rev a) [] []). exact Hne. }
    rewrite Hb in B2. unfold wordAfter in B2. cbn [rest capture] in B2.
    unfold startsWithWordChar. now destruct (match rest x with
                                             | c :: _ => isWordChar c
                                             | [] => false end).
  - cbn [caps capture group]. rewrite Nat.eqb_refl.
    now rewrite (reaches_between kw _ x Rkw).
Qed.

(** The pattern matches where a keyword stands as a whole word. *)
Lemma visibility_at_complete a kw b :
  In kw visibilityKeywords ->
  endsInWordChar a = false -> startsWithWordChar b = false ->
  rmatch visibilityPattern (MState (rev a) (kw ++ b) []) <> [].
Proof.
  intros Lkw Ha Hb.
  pose proof (keyword_nonempty kw Lkw) as Hne.
  destruct (keyword_word kw Lkw) as [Hs He].
  destruct (rmatch_lang_complete
              (Alt (Lit (str "public"))
                 (Alt (Lit (str "external"))
                    (Alt (Lit (str "internal")) (Lit (str "private")))))
              kw eq_refl (proj2 (lang_keywords kw) Lkw)
              (MState (rev a) (kw ++ b) []) b eq_refl) as (cs & Hx).
  cbn [pre] in Hx.
  assert (Hin : In (capture 1 (MState (rev a) (kw ++ b) [])
                      (MState (rev kw ++ rev a) b cs))
                  (rmatch visibilityPattern (MState (rev a) (kw ++ b) []))).
  { unfold visibilityPattern, cat. cbn [foldr].
    apply rmatch_Seq. exists (MState (rev a) (kw ++ b) []). split.
    { apply rmatch_WordB. split; [reflexivity|].
      unfold wordBefore, wordAfter. cbn [pre rest].
      change (match rev a with c :: _ => isWordChar c | [] => false end)
        with (endsInWordChar a).
      change (match kw ++ b with c :: _ => isWordChar c | [] => false end)
        with (startsWithWordChar (kw ++ b)).
      now rewrite Ha, (startsWithWordChar_app kw b Hne), Hs. }
    apply rmatch_Seq. eexists. split.
    { apply rmatch_Group. eexists. split; [reflexivity|exact Hx]. }
    apply rmatch_Seq. eexists. split; [|now left].
    apply rmatch_WordB. split; [reflexivity|].
    assert (B : xorb (wordBefore (capture 1 (MState (rev a) (kw ++ b) [])
                                    (MState (rev kw ++ rev a) b cs)))
                  (wordAfter (capture 1 (MState (rev a) (kw ++ b) [])
                                (MState (rev kw ++ rev a) b cs))) = true).
    { unfold capture. cbn [pre rest caps].
      rewrite (wordBefore_app kw (rev a) _ b Hne), He.
      unfold wordAfter. cbn [rest].
      change (match b with c :: _ => isWordChar c | [] => false end)
        with (startsWithWordChar b).
      now rewrite Hb. }
    exact B. }
  intros E. rewrite E in Hin. destruct Hin.
Qed.

Lemma keyword_prefix_unique kw kw' b b' :
  In kw visibilityKeywords -> In kw' visibilityKeywords ->
  kw ++ b = kw' ++ b' -> kw = kw'.
Proof.
  intros [<- | [<- | [<- | [<- | []]]]] [<- | [<- | [<- | [<- | []]]]] E;
    try reflexivity; simpl in E; discriminate E.
Qed.

(** The visibility that [checkNaming] resolves is the first visibility
    keyword that stands as a whole word among the modifiers, and internal
    when there is none. *)
Lemma resolveVisibility_spec mods v :
  resolveVisibility mods = v <-> visibilityOf mods v.
Proof.
  assert (Hfwd : visibilityOf mods (resolveVisibility mods)).
  { unfold resolveVisibility, exec. change (length mods <? 0) with false.
    cbv iota. change (take 0 mods) with (@nil N).
    change (drop 0 mods) with mods. cbn [rev].
    destruct (search visibilityPattern [] mods) as [m|] eqn:Es.
    - apply search_Some_first in Es
        as (u & r' & st' & tl & E & Hm & -> & Hfirst).
      rewrite app_nil_r in Hm.
      assert (Hin : In st' (rmatch visibilityPattern (MState (rev u) r' [])))
        by (rewrite Hm; now left).
      apply visibility_at_sound in Hin as (kw & b & -> & Lkw & Ha & Hb & Hg).
      unfold grp. cbn [m_caps]. rewrite Hg. cbn [default].
      left. exists u, b. split; [now repeat split|].
      intros a' kw' b' (E' & Lkw' & Ha' & Hb').
      destruct (Nat.le_gt_cases (length u) (length a')) as [|Hlt];
        [assumption|].
      exfalso. rewrite E in E'. symmetry in E'.
      destruct (app_eq_shorter _ _ _ _ E' Hlt) as (u2 & Hu & Hu2 & Hx).
      pose proof (Hfirst a' u2 Hu Hu2) as Hnone.
      rewrite app_nil_r, <- Hx in Hnone.
      revert Hnone. now apply visibility_at_complete.
    - right. split; [reflexivity|].
      intros a kw b (E & Lkw & Ha & Hb). revert Es. rewrite E.
      apply search_complete. rewrite app_nil_r.
      now apply visibility_at_complete. }
  split; [intros <-; exact Hfwd|].
  intros Hv. destruct Hfwd as [(a & b & Hat & Hleft) | [Hi Hno]];
    destruct Hv as [(a' & b' & Hat' & Hleft') | [Hi' Hno']].
  - pose proof (Hleft _ _ _ Hat') as L1. pose proof (Hleft' _ _ _ Hat) as L2.
    destruct Hat as (E & Lkw & _). destruct Hat' as (E' & Lkw' & _).
    rewrite E in E'.
    destruct (app_eq_same_length _ _ _ _ E' ltac:(lia)) as [_ E2].
    exact (keyword_prefix_unique _ _ _ _ Lkw Lkw' E2).
  - exfalso. exact (Hno' _ _ _ Hat).
  - exfalso. exact (Hno _ _ _ Hat').
  - congruence.
Qed.

(* ===================================================================== *)
(** ** The findings on the names of the functions of a file *)
(* ===================================================================== *)

Lemma filter_none {A} (f : A -> bool) (l : list A) :
  Forall (fun x => f x = false) l -> List.filter f l = [].
Proof.
  induction 1 as [|x l Hx _ IH]; simpl; [reflexivity|]. now rewrite Hx.
Qed.

Lemma filter_flat_map {A B} (f : B -> bool) (g : A -> list B) (l : list A) :
  List.filter f (flat_map g l) = flat_map (fun x => List.filter f (g x)) l.
Proof.
  induction l as [|x l IH]; simpl; [reflexivity|].
  now rewrite List.filter_app, IH.
Qed.

Lemma flat_map_unless {A B} (f : A -> bool) (g : A -> list B) (l : list A) :
  flat_map (fun x => if f x then [] else g x) l
  = flat_map g (List.filter (fun x => negb (f x)) l).
Proof.
  induction l as [|x l IH]; simpl; [reflexivity|].
  rewrite IH. now destruct (f x).
Qed.

Lemma flat_map_nil {A B} (g : A -> list B) (l : list A) :
  (forall x, g x = []) -> flat_map g l = [].
Proof.
  intros H. induction l as [|x l IH]; simpl; [reflexivity|].
  now rewrite H, IH.
Qed.

Lemma countRule_flat_map {A} r (g : A -> list issue) (f : A -> bool)
    (l : list A) :
  (forall x, countRule r (g x) = if f x then 1 else 0) ->
  countRule r (flat_map g l) = length (List.filter f l).
Proof.
  intros H. induction l as [|x l IH]; simpl; [reflexivity|].
  rewrite countRule_app, H, IH. now destruct (f x).
Qed.

Lemma countRule_filter r (f : issue -> bool) (l : list issue) :
  (forall i, hasRule r i = true -> f i = true) ->
  countRule r (List.filter f l) = countRule r l.
Proof.
  intros H. unfold countRule. f_equal.
  induction l as [|i l IH]; [reflexivity|]. cbn [List.filter].
  destruct (hasRule r i) eqn:E.
  - rewrite (H i E). cbn [List.filter]. now rewrite E, IH.
  - destruct (f i); cbn [List.filter]; [rewrite E|]; exact IH.
Qed.

Lemma nameFinding_naming i :
  isFunctionNameFinding i = true -> inCategory "naming" i.
Proof.
  unfold isFunctionNameFinding, hasRule, inCategory. intros H.
  apply orb_prop in H as [H|H]; apply String.eqb_eq in H; now rewrite H.
Qed.

Lemma nameFindings_other_category cat l :
  cat <> "naming" -> Forall (inCategory cat) l ->
  List.filter isFunctionNameFinding l = [].
Proof.
  intros Hc Hl. apply filter_none. eapply List.Forall_impl; [|exact Hl].
  intros i Hi. destruct (isFunctionNameFinding i) eqn:E; [|reflexivity].
  apply nameFinding_naming in E. unfold inCategory in *. congruence.
Qed.

Lemma checkContracts_names cfg rules p content :
  Forall (fun i => isFunctionNameFinding i = false)
    (findings (checkContracts cfg rules p content)).
Proof.
  unfold checkContracts. destruct (truthy _); [|constructor].
  apply Forall_findings_forEach; [intros; apply emitter_checkContract|].
  intros x. unfold checkContract. findings_cases.
Qed.

Lemma checkEvents_names rules p content :
  Forall (fun i => isFunctionNameFinding i = false)
    (findings (checkEvents rules p content)).
Proof.
  unfold checkEvents. destruct (truthy _); [|constructor].
  apply Forall_findings_forEach; [intros; apply emitter_checkEvent|].
  intros x. unfold checkEvent. apply Forall_findings_comp;
    auto using emitter_checkEventCapWords, emitter_checkEventPastTense.
  - unfold checkEventCapWords. findings_cases.
  - unfold checkEventPastTense. findings_cases.
Qed.

Lemma checkConstants_names rules p content :
  Forall (fun i => isFunctionNameFinding i = false)
    (findings (checkConstants rules p content)).
Proof.
  unfold checkConstants. destruct (truthy _); [|constructor].
  apply Forall_findings_forEach; [intros; apply emitter_checkConstant|].
  intros x. unfold checkConstant. findings_cases.
Qed.

Lemma checkArguments_names rules p n args :
  Forall (fun i => isFunctionNameFinding i = false)
    (findings (checkArguments rules p n args)).
Proof.
  eapply List.Forall_impl; [|apply checkArguments_rule].
  intros i Hi. unfold isFunctionNameFinding, hasRule. now rewrite Hi.
Qed.

(** The findings of the naming pass are those of its four blocks, in the
    order of the source. *)
Lemma findings_checkNaming cfg rules p content lines :
  naming (RULES cfg) = Some rules ->
  findings (checkNaming cfg p content lines)
  = findings (checkContracts cfg rules p content)
    ++ findings (checkFunctions cfg rules p content)
    ++ findings (checkEvents rules p content)
    ++ findings (checkConstants rules p content).
Proof.
  intros Hr. unfold checkNaming. rewrite Hr.
  pose proof (emitter_checkContracts cfg rules p content) as H1.
  pose proof (emitter_checkFunctions cfg rules p content) as H2.
  pose proof (emitter_checkEvents rules p content) as H3.
  pose proof (emitter_checkConstants rules p content) as H4.
  rewrite findings_comp;
    [|apply emitter_comp; [apply emitter_comp|]; assumption|assumption].
  rewrite findings_comp; [|apply emitter_comp; assumption|assumption].
  rewrite findings_comp; [|assumption|assumption].
  now rewrite <- !app_assoc.
Qed.

(** The findings on its name that the body of the loop emits for a
    function. *)
Lemma nameFindings_checkFunction cfg rules p content m :
  List.filter isFunctionNameFinding
    (findings (checkFunction cfg rules p content m))
  = if memStr (grp 1 m) specialFunctions then []
    else nameFindings cfg rules p (lineNumberAt content (m_index m))
           (resolveVisibility (grp 3 m)) (grp 1 m).
Proof.
  destruct (memStr (grp 1 m) specialFunctions) eqn:Hs.
  - unfold checkFunction. rewrite Hs. reflexivity.
  - rewrite (findings_checkFunction _ _ _ _ _ Hs), !List.filter_app.
    rewrite (filter_none _ _ (checkArguments_names _ _ _ _)), app_nil_r.
    unfold checkPrivateInternalName, checkFunctionName, nameFindings,
      underscoreRuleApplies.
    destruct (isStr (privateInternalFunctions rules) "_underscoreMixedCase");
      destruct (isPrivateOrInternal (resolveVisibility (grp 3 m)));
      destruct (isUnderscoreMixedCase (grp 1 m));
      destruct (isStr (functions rules) "mixedCase");
      destruct (isMixedCase (grp 1 m)); reflexivity.
Qed.

Lemma isStr_truthy v lit : isStr v lit = true -> lit <> EmptyString -> truthy v = true.
Proof.
  intros H Hl. apply isStr_eq in H. subst v.
  destruct lit; [contradiction|reflexivity].
Qed.

(** The findings on the names of the functions that the block of the
    functions emits. *)
Lemma nameFindings_checkFunctions cfg rules p content :
  List.filter isFunctionNameFinding
    (findings (checkFunctions cfg rules p content))
  = flat_map
      (fun m => nameFindings cfg rules p (lineNumberAt content (m_index m))
                  (resolveVisibility (grp 3 m)) (grp 1 m))
      (checkedFunctions content).
Proof.
  unfold checkFunctions, checkedFunctions.
  destruct (truthy (functions rules) || truthy (functionArguments rules)
            || truthy (privateInternalFunctions rules)) eqn:G.
  - rewrite findings_forEach by (intros; apply emitter_checkFunction).
    rewrite filter_flat_map, <- flat_map_unless.
    apply flat_map_ext. intros m. apply nameFindings_checkFunction.
  - apply orb_false_elim in G as [G G3]. apply orb_false_elim in G as [G1 _].
    symmetry. apply flat_map_nil. intros m.
    unfold nameFindings, underscoreRuleApplies.
    destruct (isStr (privateInternalFunctions rules) "_underscoreMixedCase")
      eqn:E3.
    { apply isStr_truthy in E3; [congruence|discriminate]. }
    destruct (isStr (functions rules) "mixedCase") eqn:E1.
    { apply isStr_truthy in E1; [congruence|discriminate]. }
    reflexivity.
Qed.

(** The findings on the names of the functions in a run over a file. *)
Lemma nameFindings_passes cfg rules c :
  naming (RULES cfg) = Some rules ->
  List.filter isFunctionNameFinding (findings (passes cfg c))
  = flat_map
      (fun m => nameFindings cfg rules (path c)
                  (lineNumberAt (text c) (m_index m))
                  (resolveVisibility (grp 3 m)) (grp 1 m))
      (checkedFunctions (text c)).
Proof.
  intros Hr. rewrite findings_passes, !List.filter_app.
  rewrite (nameFindings_other_category "structure" _ ltac:(discriminate)
             (category_checkFileStructure _ _ _ _)).
  rewrite (nameFindings_other_category "imports" _ ltac:(discriminate)
             (category_checkImports _ _ _ _)).
  rewrite (nameFindings_other_category "layout" _ ltac:(discriminate)
             (category_checkLayout _ _ _ _)).
  rewrite (findings_checkNaming _ _ _ _ _ Hr), !List.filter_app.
  rewrite (filter_none _ _ (checkContracts_names _ _ _ _)).
  rewrite (filter_none _ _ (checkEvents_names _ _ _)).
  rewrite (filter_none _ _ (checkConstants_names _ _ _)).
  rewrite nameFindings_checkFunctions. simpl. now rewrite !app_nil_r.
Qed.

Lemma count_nameFindings cfg rules p n vis name :
  let F := nameFindings cfg rules p n vis name in
  countRule "naming.privateInternalFunctions" F
  = (if underscoreRuleApplies rules vis && negb (isUnderscoreMixedCase name)
     then 1 else 0)
  /\ countRule "naming.functions" F
     = (if isStr (functions rules) "mixedCase"
           && negb (underscoreRuleApplies rules vis)
           && negb (isMixedCase name)
        then 1 else 0).
Proof.
  unfold nameFindings.
  destruct (underscoreRuleApplies rules vis);
    destruct (isUnderscoreMixedCase name);
    destruct (isStr (functions rules) "mixedCase");
    destruct (isMixedCase name); split; reflexivity.
Qed.

(** C2.  The visibility that the naming pass resolves for a function is
    the first visibility keyword (public, external, internal, private)
    that stands as a whole word among its modifiers, and internal when
    there is none.  In a run over a file, the findings
    [naming.privateInternalFunctions] and [naming.functions] are, in
    order, those of the function declarations that the pass finds, other
    than constructor, receive and fallback; each declaration yields at
    most one of them: the first exactly when the underscore rule is
    enabled, the resolved visibility is private or internal and the name
    is not in underscore mixedCase, the second exactly when the mixedCase
    rule is enabled, the underscore rule does not apply and the name is
    not in mixedCase.  In particular a private function that fails the
    enabled underscore rule yields one finding of the first kind and none
    of the second. *)
Theorem function_naming_exclusive (cfg : config) (rules : naming_rules)
    (c : contract) :
  naming (RULES cfg) = Some rules ->
  let L := findings (passes cfg c) in
  let visibility m := resolveVisibility (grp 3 m) in
  let name m := grp 1 m in
  let found m :=
    nameFindings cfg rules (path c) (lineNumberAt (text c) (m_index m))
      (visibility m) (name m) in
  (forall mods v, resolveVisibility mods = v <-> visibilityOf mods v)
  /\ List.filter isFunctionNameFinding L
     = flat_map found (checkedFunctions (text c))
  /\ (forall m,
        countRule "naming.privateInternalFunctions" (found m)
        + countRule "naming.functions" (found m) <= 1
        /\ countRule "naming.privateInternalFunctions" (found m)
           = (if underscoreRuleApplies rules (visibility m)
                 && negb (isUnderscoreMixedCase (name m)) then 1 else 0)
        /\ countRule "naming.functions" (found m)
           = (if isStr (functions rules) "mixedCase"
                 && negb (underscoreRuleApplies rules (visibility m))
                 && negb (isMixedCase (name m)) then 1 else 0)
        /\ (isStr (privateInternalFunctions rules) "_underscoreMixedCase"
            = true ->
            visibilityOf (grp 3 m) (str "private") ->
            isUnderscoreMixedCase (name m) = false ->
            countRule "naming.privateInternalFunctions" (found m) = 1
            /\ countRule "naming.functions" (found m) = 0))
  /\ countRule "naming.privateInternalFunctions" L
     = length (List.filter
                 (fun m => underscoreRuleApplies rules (visibility m)
                           && negb (isUnderscoreMixedCase (name m)))
                 (checkedFunctions (text c)))
  /\ countRule "naming.functions" L
     = length (List.filter
                 (fun m => isStr (functions rules) "mixedCase"
                           && negb (underscoreRuleApplies rules (visibility m))
                           && negb (isMixedCase (name m)))
                 (checkedFunctions (text c))).
Proof.
  intros Hr L visibility name found.
  pose proof (nameFindings_passes cfg rules c Hr) as HL. fold L in HL.
  change (List.filter isFunctionNameFinding L
          = flat_map found (checkedFunctions (text c))) in HL.
  assert (Hcount : forall m,
            countRule "naming.privateInternalFunctions" (found m)
            = (if underscoreRuleApplies rules (visibility m)
                  && negb (isUnderscoreMixedCase (name m)) then 1 else 0)
            /\ countRule "naming.functions" (found m)
               = (if isStr (functions rules) "mixedCase"
                     && negb (underscoreRuleApplies rules (visibility m))
                     && negb (isMixedCase (name m)) then 1 else 0))
    by (intros m; apply count_nameFindings).
  split; [apply resolveVisibility_spec|].
  split; [exact HL|].
  split; [|split].
  - intros m. destruct (Hcount m) as [HP HF]. rewrite HP, HF.
    split; [|split; [reflexivity|split; [reflexivity|]]].
    + destruct (underscoreRuleApplies rules (visibility m));
        destruct (isUnderscoreMixedCase (name m));
        destruct (isStr (functions rules) "mixedCase");
        destruct (isMixedCase (name m)); simpl; lia.
    + intros Hon Hvis Hname. apply resolveVisibility_spec in Hvis.
      unfold underscoreRuleApplies, visibility. rewrite Hon, Hvis, Hname.
      simpl. rewrite !andb_false_r. split; reflexivity.
  - rewrite <- (countRule_filter _ isFunctionNameFinding L), HL.
    + apply countRule_flat_map. intros m. apply (Hcount m).
    + intros i Hi. unfold isFunctionNameFinding. now rewrite Hi.
  - rewrite <- (countRule_filter _ isFunctionNameFinding L), HL.
    + apply countRule_flat_map. intros m. apply (Hcount m).
    + intros i Hi. unfold isFunctionNameFinding. rewrite Hi.
      apply orb_true_r.
Qed.

(** The private function of the specification, and functions of each
    visibility, with the configuration of [build-config.js]. *)
Lemma function_naming_exclusive_witness :
  (countRule "naming.privateInternalFunctions"
     (findings (passes buildConfig privateFunctionFile)) = 1
   /\ countRule "naming.functions"
        (findings (passes buildConfig privateFunctionFile)) = 0)
  /\ map (fun i => (line i, rule i))
       (List.filter isFunctionNameFinding
          (findings (passes buildConfig visibilitiesFile)))
     = [(1, "naming.privateInternalFunctions"); (2, "naming.functions");
        (3, "naming.privateInternalFunctions");
        (6, "naming.privateInternalFunctions")]
  /\ visibilityOf (str "private") (str "private")
  /\ visibilityOf (str "external view returns (uint256)") (str "external")
  /\ visibilityOf [] (str "internal")
  /\ visibilityOf (str "notprivate") (str "internal").
Proof.
  split; [|split].
  - pose proof (function_naming_exclusive buildConfig
                  (NamingRules (VStr (str "CapWords")) (VStr (str "mixedCase"))
                     (VStr (str "_underscoreMixedCase"))
                     (VStr (str "_underscoreMixedCase"))
                     (VStr (str "CapWords")) (VBool true)
                     (VStr (str "UPPER_CASE")))
                  privateFunctionFile eq_refl) as (_ & _ & _ & HP & HF).
    split.
    + refine (eq_trans HP _). vm_compute. reflexivity.
    + refine (eq_trans HF _). vm_compute. reflexivity.
  - pose proof (function_naming_exclusive buildConfig
                  (NamingRules (VStr (str "CapWords")) (VStr (str "mixedCase"))
                     (VStr (str "_underscoreMixedCase"))
                     (VStr (str "_underscoreMixedCase"))
                     (VStr (str "CapWords")) (VBool true)
                     (VStr (str "UPPER_CASE")))
                  visibilitiesFile eq_refl) as (_ & HL & _).
    refine (eq_trans (f_equal (map (fun i => (line i, rule i))) HL) _).
    vm_compute. reflexivity.
  - pose proof (function_naming_exclusive buildConfig
                  (NamingRules (VStr (str "CapWords")) (VStr (str "mixedCase"))
                     (VStr (str "_underscoreMixedCase"))
                     (VStr (str "_underscoreMixedCase"))
                     (VStr (str "CapWords")) (VBool true)
                     (VStr (str "UPPER_CASE")))
                  privateFunctionFile eq_refl) as (Hv & _).
    repeat split; apply Hv; vm_compute; reflexivity.
Defined.

(* ===================================================================== *)
(** ** Options that have no effect on their own *)
(* ===================================================================== *)

Lemma countRule_none r (l : list issue) :
  Forall (fun i => hasRule r i = false) l -> countRule r l = 0.
Proof. intros H. unfold countRule. now rewrite (filter_none _ _ H). Qed.

Lemma checkFunction_rules cfg rules p content m r :
  r <> "naming.privateInternalFunctions" -> r <> "naming.functions" ->
  r <> "naming.functionArguments" ->
  Forall (fun i => hasRule r i = false)
    (findings (checkFunction cfg rules p content m)).
Proof.
  intros H1 H2 H3.
  assert (Hn : forall r', r <> r' -> String.eqb r' r = false).
  { intros r' Hr. apply String.eqb_neq. congruence. }
  unfold checkFunction. destruct (memStr _ _); [constructor|].
  apply Forall_findings_comp; [apply emitter_comp| | |];
    auto using emitter_checkPrivateInternalName, emitter_checkFunctionName,
      emitter_checkArguments.
  - apply Forall_findings_comp;
      auto using emitter_checkPrivateInternalName, emitter_checkFunctionName.
    + unfold checkPrivateInternalName. findings_cases. exact (Hn _ H1).
    + unfold checkFunctionName. findings_cases. exact (Hn _ H2).
  - eapply List.Forall_impl; [|apply checkArguments_rule].
    intros i Hi. unfold hasRule. rewrite Hi. exact (Hn _ H3).
Qed.

(** The option [eventsPastTense] has no effect on its own: without
    the option [events] the naming pass does not look for events, and no
    event is reported for its tense. *)
Theorem past_tense_needs_events (cfg : config) (rules : naming_rules)
    (c : contract) :
  naming (RULES cfg) = Some rules ->
  truthy (events rules) = false ->
  countRule "naming.eventsPastTense" (findings (passes cfg c)) = 0.
Proof.
  intros Hr He. rewrite findings_passes, !countRule_app.
  rewrite (countRule_other "structure" "naming.eventsPastTense" _
             (category_checkFileStructure _ _ _ _)),
    (countRule_other "imports" "naming.eventsPastTense" _
       (category_checkImports _ _ _ _)),
    (countRule_other "layout" "naming.eventsPastTense" _
       (category_checkLayout _ _ _ _)) by (intros H; discriminate H).
  rewrite (findings_checkNaming _ _ _ _ _ Hr), !countRule_app.
  assert (H1 : countRule "naming.eventsPastTense"
                 (findings (checkContracts cfg rules (path c) (text c))) = 0).
  { apply countRule_none. unfold checkContracts.
    destruct (truthy (contracts rules)); [|constructor].
    apply Forall_findings_forEach; [intros; apply emitter_checkContract|].
    intros x. unfold checkContract. findings_cases. }
  assert (H2 : countRule "naming.eventsPastTense"
                 (findings (checkFunctions cfg rules (path c) (text c))) = 0).
  { apply countRule_none. unfold checkFunctions.
    destruct (_ || _); [|constructor].
    apply Forall_findings_forEach; [intros; apply emitter_checkFunction|].
    intros x. apply checkFunction_rules; discriminate. }
  assert (H3 : countRule "naming.eventsPastTense"
                 (findings (checkEvents rules (path c) (text c))) = 0).
  { unfold checkEvents. rewrite He. reflexivity. }
  assert (H4 : countRule "naming.eventsPastTense"
                 (findings (checkConstants rules (path c) (text c))) = 0).
  { apply countRule_none. unfold checkConstants.
    destruct (truthy (constants rules)); [|constructor].
    apply Forall_findings_forEach; [intros; apply emitter_checkConstant|].
    intros x. unfold checkConstant. findings_cases. }
  now rewrite H1, H2, H3, H4.
Qed.

(** An event in the present tense, with [eventsPastTense] alone. *)
Lemma past_tense_needs_events_witness :
  isPastTense (str "Transfer") = false
  /\ countRule "naming.eventsPastTense"
       (findings (passes pastTenseOnly eventFile)) = 0.
Proof.
  split; [reflexivity|].
  apply (past_tense_needs_events pastTenseOnly
           (NamingRules VUndef VUndef VUndef VUndef VUndef (VBool true)
              VUndef) eventFile); reflexivity.
Defined.

(** The option [spdxAtTop] has no effect on its own: without the option
    [spdxLicense] the structure pass does not look for the license, and
    a license away from the first line is not reported. *)
Theorem at_top_needs_license (cfg : config) (rules : structure_rules)
    (c : contract) :
  structure (RULES cfg) = Some rules ->
  truthy (spdxLicense rules) = false ->
  countRule "structure.spdxAtTop" (findings (passes cfg c)) = 0.
Proof.
  intros Hr Hl. rewrite findings_passes, !countRule_app.
  rewrite (countRule_other "imports" "structure.spdxAtTop" _
             (category_checkImports _ _ _ _)),
    (countRule_other "naming" "structure.spdxAtTop" _
       (category_checkNaming _ _ _ _)),
    (countRule_other "layout" "structure.spdxAtTop" _
       (category_checkLayout _ _ _ _)) by (intros H; discriminate H).
  unfold checkFileStructure. rewrite Hr.
  rewrite findings_comp by (apply emitter_checkSpdx || apply emitter_checkPragma).
  rewrite countRule_app.
  rewrite (countRule_pragma "structure.spdxAtTop"
             (findings (checkPragma rules (path c) (split LF (text c)))))
    by (discriminate || apply checkPragma_findings).
  unfold checkSpdx. rewrite Hl. reflexivity.
Qed.

(** A license on the second line, with [spdxAtTop] alone. *)
Lemma at_top_needs_license_witness :
  includes (nth 0 (split LF (text lateLicenseFile)) []) spdxMarker = false
  /\ countRule "structure.spdxAtTop"
       (findings (passes atTopOnly lateLicenseFile)) = 0.
Proof.
  split; [reflexivity|].
  apply (at_top_needs_license atTopOnly
           (StructureRules VUndef (VBool true) VUndef) lateLicenseFile);
    reflexivity.
Defined.
